(** * Foundation Layout Tool: constraint validation, metrics and layout store

    A shallow embedding of [streamlit_app.py].  The script is a Streamlit
    page: every user interaction re-runs it top to bottom against the
    session state ([layouts], [current_layout]) and the widget values
    ([foundation_diameter], [wall_thickness], ...).

    Modelling conventions.
    - Numbers.  The script computes with IEEE 754 doubles.  Three readings
      of its arithmetic are embedded, each used where it decides nothing
      that the script decides otherwise:
      -- the exact reading over the real numbers [R] ([+], [-], [*], [/],
         [**2], [np.sqrt], [np.cos], [np.sin], [np.pi] without rounding),
         for the session, the ids, the estimates, the export and the
         structure of the findings;
      -- module [Binary64]: the three checks of lines 200-226 on binary64
         numbers, operation by operation, for the conditions under which a
         finding is reported, where a comparison can turn on the last
         digit;
      -- module [Rounded]: the pattern handler of lines 58-70 over [R] with
         every operation followed by a rounding, for the positions of the
         generated tendons up to a tolerance.
      True division raises [ZeroDivisionError] on a zero divisor, as in
      Python.
    - Fixed-key dictionaries are records; string formatting of integers is
      decimal ([pretty]), formatting of other numbers is a parameter of the
      definitions that print one.
    - Lists and component dictionaries are objects in a heap, referenced by
      location, so that [list.append], [list.copy] and rebinding of a key
      have their Python meaning (sharing included).
    - The CSV text is written field by field as [csv.writer] does with
      minimal quoting, every row ended by a line feed. *)

From Stdlib Require Import PrimFloat FloatOps FloatAxioms SpecFloat.
From Stdlib Require Import Reals Lra.
From stdpp Require Import gmap strings list pretty.

#[local] Set Warnings "-inexact-float".

(** ** Python results: a value or a raised exception *)

Inductive Exn : Set :=
  | ZeroDivisionError
  | IndexError.

Inductive Result (A : Type) : Type :=
  | Ok (a : A)
  | Raise (e : Exn).
Arguments Ok {A} a.
Arguments Raise {A} e.

#[global] Instance Result_ret : MRet Result := @Ok.
#[global] Instance Result_bind : MBind Result :=
  λ A B f m, match m with Ok a => f a | Raise e => Raise e end.

(** [for x in xs: body] with the loop-carried variables in [st]. *)
Fixpoint for_each {A St : Type} (body : A → St → Result St)
    (xs : list A) (st : St) : Result St :=
  match xs with
  | [] => Ok st
  | x :: xs' => st' ← body x st; for_each body xs' st'
  end.

(** [enumerate(l, start)] *)
Fixpoint enumerate {A : Type} (l : list A) (start : nat) : list (nat * A) :=
  match l with
  | [] => []
  | x :: l' => (start, x) :: enumerate l' (S start)
  end.

(** ** Numbers *)

#[global] Instance Rlt_decision (a b : R) : Decision (a < b)%R := Rlt_dec a b.
#[global] Instance Rgt_decision (a b : R) : Decision (a > b)%R := Rgt_dec a b.
#[global] Instance Req_decision : EqDecision R := Req_dec_T.

(** [a / b] *)
Definition truediv (a b : R) : Result R :=
  if decide (b = 0%R) then Raise ZeroDivisionError else Ok (a / b)%R.

(** [min(a, b)]: the first argument unless the second is smaller. *)
Definition py_min (a b : R) : R := if decide (b < a)%R then b else a.

(** ** Data model *)

(** A tendon dictionary: [{'id', 'x', 'y', 'diameter', 'type'}], diameter
    in millimetres. *)
Record Tendon : Type := mkTendon {
  t_id : nat;
  t_x : R;
  t_y : R;
  t_diameter : R;
  t_type : string
}.

(** A grout connection or access shaft: [{'id', 'x', 'y', 'diameter'}]
    (grout diameter in millimetres, shaft diameter in metres). *)
Record Component : Type := mkComponent {
  c_id : nat;
  c_x : R;
  c_y : R;
  c_diameter : R
}.

(** The contents of a layout, as the analysis column of the page reads it. *)
Record Layout : Type := mkLayout {
  name : string;
  tendons : list Tendon;
  grout_connections : list Component;
  access_shafts : list Component
}.

Record ValidationResult : Type := mkValidation {
  violations : list string;
  warnings : list string
}.

(** ** Geometry primitives *)

Definition distance (x1 y1 x2 y2 : R) : R :=
  sqrt ((x1 - x2) ^ 2 + (y1 - y2) ^ 2).

Definition radialOffset (x y : R) : R := sqrt (x ^ 2 + y ^ 2).

(** ** Constraint validation (lines 200-226) *)

Definition min_clearance : R := 0.3.

Definition containment_msg (tendon : Tendon) : string :=
  "Tendon T" +:+ pretty (t_id tendon) +:+ " too close to wall".

Definition proximity_msg (grout : Component) (tendon : Tendon) : string :=
  "Grout G" +:+ pretty (c_id grout) +:+ " near Tendon T" +:+ pretty (t_id tendon).

Section Validation.
(** [format(v, ".2f")] *)
Variable format_2f : R → string.
Variables foundation_diameter wall_thickness : R.

Definition clearance_msg (i j : nat) (dist min_dist : R) : string :=
  "Tendons T" +:+ pretty i +:+ " and T" +:+ pretty j +:+ " too close ("
    +:+ format_2f dist +:+ "m < " +:+ format_2f min_dist +:+ "m)".

(** Check 1: components inside foundation. *)
Definition check1 (tendons : list Tendon) (violations : list string)
    : Result (list string) :=
  for_each (λ tendon violations,
    let distance := sqrt (t_x tendon ^ 2 + t_y tendon ^ 2) in
    mm ← truediv (t_diameter tendon) 1000;
    r ← truediv mm 2;
    outer ← truediv foundation_diameter 2;
    if decide (distance + r > outer - wall_thickness)%R
    then Ok (violations ++ [containment_msg tendon])
    else Ok violations) tendons violations.

(** Check 2: minimum clearance between tendons. *)
Definition check2 (tendons : list Tendon) (violations : list string)
    : Result (list string) :=
  for_each (λ '(i, t1) violations,
    for_each (λ '(j, t2) violations,
      let dist := sqrt ((t_x t1 - t_x t2) ^ 2 + (t_y t1 - t_y t2) ^ 2) in
      m ← truediv (t_diameter t1 + t_diameter t2) 1000;
      h ← truediv m 2;
      let min_dist := (h + min_clearance)%R in
      if decide (dist < min_dist)%R
      then Ok (violations ++ [clearance_msg i j dist min_dist])
      else Ok violations)
      (enumerate (drop (i + 1) tendons) (i + 1)) violations)
    (enumerate tendons 0) violations.

(** Check 3: grout connection clearance. *)
Definition check3 (grout_connections : list Component)
    (tendons : list Tendon) (warnings : list string) : Result (list string) :=
  for_each (λ grout warnings,
    for_each (λ tendon warnings,
      let dist := sqrt ((c_x grout - t_x tendon) ^ 2
                        + (c_y grout - t_y tendon) ^ 2) in
      gm ← truediv (c_diameter grout) 1000;
      gr ← truediv gm 2;
      tm ← truediv (t_diameter tendon) 1000;
      tr ← truediv tm 2;
      let min_dist := (gr + tr + 0.2)%R in
      if decide (dist < min_dist)%R
      then Ok (warnings ++ [proximity_msg grout tendon])
      else Ok warnings) tendons warnings)
    grout_connections warnings.

Definition validate (layout : Layout) : Result ValidationResult :=
  violations ← check1 (tendons layout) [];
  violations ← check2 (tendons layout) violations;
  warnings ← check3 (grout_connections layout) (tendons layout) [];
  Ok (mkValidation violations warnings).
End Validation.

(** ** Estimates (lines 244-255) *)

Definition steel_per_tendon : nat := 150.
Definition steel_cost_per_kg : R := 3.50.

Record Metrics : Type := mkMetrics {
  totalSteelKg : nat;
  steelCostUsd : R;
  complexityScore : R
}.

Definition estimate (layout : Layout) : Metrics :=
  let tendon_count := length (tendons layout) in
  let total_steel := tendon_count * steel_per_tendon in
  let complexity :=
    py_min 10 (2 + INR tendon_count * 0.3
                 + INR (length (grout_connections layout)) * 0.5) in
  mkMetrics total_steel (INR total_steel * steel_cost_per_kg) complexity.

(** ** Circular pattern (lines 58-70) *)

(** [np.linspace(start, stop, num, endpoint=False)], after numpy's
    implementation: [arange(0, num) * step + start] with
    [step = (stop - start) / num]; when the step is zero numpy divides the
    indices first. *)
Definition linspace (start stop : R) (num : nat) : list R :=
  let delta := (stop - start)%R in
  let y := fmap INR (seq 0 num) in
  let y :=
    if decide (0 < num) then
      let step := (delta / INR num)%R in
      if decide (step = 0%R)
      then fmap (λ v, v / INR num * delta)%R y
      else fmap (λ v, v * step)%R y
    else fmap (λ v, v * delta)%R y in
  fmap (λ v, v + start)%R y.

(** The dictionaries appended by the loop of the pattern handler, in
    order. *)
Definition pattern_dicts (num_tendons : nat) (radius tendon_diameter : R)
    : list Tendon :=
  let angles := linspace 0 (2 * PI) num_tendons in
  fmap (λ '(i, angle),
         let x := (radius * cos angle)%R in
         let y := (radius * sin angle)%R in
         mkTendon i x y tendon_diameter "vertical")
      (enumerate angles 0).

(** ** CSV export (lines 283-291) *)

Definition newline : string := String (Ascii.ascii_of_nat 10) EmptyString.

(** [pd.DataFrame(records)]: the columns are the keys in order of first
    appearance, a missing key gives an empty cell. *)
Definition add_keys (seen : list string) (record : list (string * string))
    : list string :=
  fold_left (λ seen k, if decide (k ∈ seen) then seen else seen ++ [k])
            (fmap fst record) seen.

Definition DataFrame_columns (records : list (list (string * string)))
    : list string :=
  fold_left add_keys records [].

Fixpoint dict_get (k : string) (record : list (string * string)) : string :=
  match record with
  | [] => ""
  | (k', v) :: record' => if decide (k = k') then v else dict_get k record'
  end.

(** The fields are written by [csv.writer] with minimal quoting: a field
    that holds the delimiter, the quote character or a line break is put
    between quotes, with the quotes inside it doubled. *)
Definition comma : Ascii.ascii := Ascii.ascii_of_nat 44.
Definition quote : Ascii.ascii := Ascii.ascii_of_nat 34.
Definition line_feed : Ascii.ascii := Ascii.ascii_of_nat 10.
Definition carriage_return : Ascii.ascii := Ascii.ascii_of_nat 13.

Definition csv_special (c : Ascii.ascii) : bool :=
  bool_decide (c = comma) || bool_decide (c = quote)
  || bool_decide (c = line_feed) || bool_decide (c = carriage_return).

Fixpoint needs_quoting (field : string) : bool :=
  match field with
  | EmptyString => false
  | String c field' => csv_special c || needs_quoting field'
  end.

Fixpoint double_quotes (field : string) : string :=
  match field with
  | EmptyString => EmptyString
  | String c field' =>
      if bool_decide (c = quote)
      then String c (String c (double_quotes field'))
      else String c (double_quotes field')
  end.

Definition csv_field (field : string) : string :=
  if needs_quoting field
  then String quote (double_quotes field +:+ String quote EmptyString)
  else field.

(** [df.to_csv(index=False)], row by row: the header, then one row per
    record. *)
Definition to_csv_lines (records : list (list (string * string)))
    : list string :=
  let columns := DataFrame_columns records in
  String.concat "," (fmap csv_field columns)
    :: fmap (λ record,
               String.concat ","
                 (fmap (λ k, csv_field (dict_get k record)) columns))
           records.

(** Every row ends with the line terminator, [os.linesep] of a POSIX
    system. *)
Definition to_csv (records : list (list (string * string))) : string :=
  String.concat "" (fmap (λ line, line +:+ newline) (to_csv_lines records)).

Section CsvExport.
(** Text of a number in a CSV cell. *)
Variable str_num : R → string.

Definition tendon_items (tendon : Tendon) : list (string * string) :=
  [ ("id", pretty (t_id tendon));
    ("x", str_num (t_x tendon));
    ("y", str_num (t_y tendon));
    ("diameter", str_num (t_diameter tendon));
    ("type", t_type tendon) ].

(** The text offered for download; nothing is offered for an empty
    tendon list. *)
Definition exportTendonsCsv (tendons : list Tendon) : option string :=
  if decide (0 < length tendons)
  then Some (to_csv (fmap tendon_items tendons))
  else None.

Definition tendon_csv_row (tendon : Tendon) : string :=
  pretty (t_id tendon) +:+ "," +:+ str_num (t_x tendon) +:+ ","
    +:+ str_num (t_y tendon) +:+ "," +:+ str_num (t_diameter tendon)
    +:+ "," +:+ t_type tendon.
End CsvExport.

(** ** The object heap *)

Abbreviation loc := nat (only parsing).

(** Dictionaries of one kind and the list objects that hold references to
    them. *)
Record Store (A : Type) : Type := mkStore {
  objs : gmap loc A;
  lists : gmap loc (list loc)
}.
Arguments mkStore {A} _ _.
Arguments objs {A} _.
Arguments lists {A} _.

Definition empty_store {A : Type} : Store A := mkStore ∅ ∅.

(** [{...}]: a new dictionary object. *)
Definition new_obj {A : Type} (v : A) (st : Store A) : loc * Store A :=
  let x := fresh (dom (objs st)) in
  (x, mkStore (<[x := v]> (objs st)) (lists st)).

(** [[...]]: a new list object. *)
Definition new_list {A : Type} (items : list loc) (st : Store A)
    : loc * Store A :=
  let l := fresh (dom (lists st)) in
  (l, mkStore (objs st) (<[l := items]> (lists st))).

(** The references held by the list object at [l] (every location a
    reachable session refers to is allocated, see [session_inv]). *)
Definition list_items {A : Type} (st : Store A) (l : loc) : list loc :=
  default [] (lists st !! l).

(** [l.append(x)]: in place. *)
Definition list_append {A : Type} (l x : loc) (st : Store A) : Store A :=
  mkStore (objs st) (alter (λ items, items ++ [x]) l (lists st)).

(** [l.copy()]: a new list object holding the same references. *)
Definition list_copy {A : Type} (l : loc) (st : Store A) : loc * Store A :=
  new_list (list_items st l) st.

(** [l.append({...})] *)
Definition append_new {A : Type} (l : loc) (v : A) (st : Store A) : Store A :=
  let '(x, st) := new_obj v st in
  list_append l x st.

(** The dictionaries a list object refers to, in order. *)
Definition read_list {A : Type} (st : Store A) (l : loc) : option (list A) :=
  items ← lists st !! l; mapM (λ x, objs st !! x) items.

(** ** Session state *)

(** [st.session_state.current_layout].  The dictionary itself is held by
    value: it is only reachable through the session state, and a saved
    layout is a dictionary literal of its own (line 269), as is a loaded
    one (line 306), so no two names ever refer to one layout dictionary.
    Its three collections are references to list objects. *)
Record LayoutDict : Type := mkLayoutDict {
  d_name : string;
  d_tendons : loc;
  d_grout_connections : loc;
  d_access_shafts : loc
}.

(** An element of [st.session_state.layouts] ([layout_copy]). *)
Record SavedDict : Type := mkSavedDict {
  s_name : string;
  s_timestamp : string;
  s_tendons : loc;
  s_grout_connections : loc;
  s_access_shafts : loc;
  s_foundation_diameter : R;
  s_wall_thickness : R
}.

(** The session: the heap, [st.session_state.layouts],
    [st.session_state.current_layout] and the values of the two foundation
    sliders, which Streamlit keeps between runs of the script. *)
Record Session : Type := mkSession {
  tendon_store : Store Tendon;
  component_store : Store Component;
  layouts : list SavedDict;
  current_layout : LayoutDict;
  foundation_diameter : R;
  wall_thickness : R
}.

(** Lines 20-29 and the slider defaults of lines 42-43. *)
Definition init_session : Session :=
  let '(lt, ts) := new_list [] empty_store in
  let '(lg, cs) := new_list [] empty_store in
  let '(la, cs) := new_list [] cs in
  mkSession ts cs [] (mkLayoutDict "Layout 1" lt lg la) 10 0.8.

(** The foundation sliders. *)
Definition applyFoundationSpec (diameter thickness : R) (s : Session)
    : Session :=
  mkSession (tendon_store s) (component_store s) (layouts s)
            (current_layout s) diameter thickness.

(** "Generate Circular Pattern" (lines 58-70). *)
Definition generateCircularPattern (num_tendons : nat)
    (radius tendon_diameter : R) (s : Session) : Session :=
  let cur := current_layout s in
  let '(l, ts) := new_list [] (tendon_store s) in
  let cur := mkLayoutDict (d_name cur) l (d_grout_connections cur)
                          (d_access_shafts cur) in
  let angles := linspace 0 (2 * PI) num_tendons in
  let ts :=
    fold_left (λ ts '(i, angle),
                 let x := (radius * cos angle)%R in
                 let y := (radius * sin angle)%R in
                 append_new l (mkTendon i x y tendon_diameter "vertical") ts)
              (enumerate angles 0) ts in
  mkSession ts (component_store s) (layouts s) cur
            (foundation_diameter s) (wall_thickness s).

(** "Add Tendon" (lines 78-85). *)
Definition addTendon (manual_x manual_y tendon_diameter : R) (s : Session)
    : Session :=
  let l := d_tendons (current_layout s) in
  let ts := tendon_store s in
  let ts := append_new l (mkTendon (length (list_items ts l)) manual_x manual_y
                                   tendon_diameter "vertical") ts in
  mkSession ts (component_store s) (layouts s) (current_layout s)
            (foundation_diameter s) (wall_thickness s).

(** "Add Grout Connection" (lines 93-99). *)
Definition addGroutConnection (grout_x grout_y grout_diameter : R)
    (s : Session) : Session :=
  let l := d_grout_connections (current_layout s) in
  let cs := component_store s in
  let cs := append_new l (mkComponent (length (list_items cs l)) grout_x grout_y
                                      grout_diameter) cs in
  mkSession (tendon_store s) cs (layouts s) (current_layout s)
            (foundation_diameter s) (wall_thickness s).

(** "Add Access Shaft" (lines 107-113). *)
Definition addAccessShaft (shaft_x shaft_y shaft_diameter : R) (s : Session)
    : Session :=
  let l := d_access_shafts (current_layout s) in
  let cs := component_store s in
  let cs := append_new l (mkComponent (length (list_items cs l)) shaft_x shaft_y
                                      shaft_diameter) cs in
  mkSession (tendon_store s) cs (layouts s) (current_layout s)
            (foundation_diameter s) (wall_thickness s).

(** "Clear All Components" (lines 118-122). *)
Definition clearAll (s : Session) : Session :=
  let '(lt, ts) := new_list [] (tendon_store s) in
  let '(lg, cs) := new_list [] (component_store s) in
  let '(la, cs) := new_list [] cs in
  mkSession ts cs (layouts s)
            (mkLayoutDict (d_name (current_layout s)) lt lg la)
            (foundation_diameter s) (wall_thickness s).

(** The "Layout Name" text input (lines 264-265). *)
Definition setLayoutName (layout_name : string) (s : Session) : Session :=
  let cur := current_layout s in
  mkSession (tendon_store s) (component_store s) (layouts s)
            (mkLayoutDict layout_name (d_tendons cur) (d_grout_connections cur)
                          (d_access_shafts cur))
            (foundation_diameter s) (wall_thickness s).

(** "Save Layout" (lines 268-278); [layout_name] is the name line 265 has
    just stored in the current layout. *)
Definition saveSnapshot (timestamp : string) (s : Session) : Session :=
  let cur := current_layout s in
  let layout_name := d_name cur in
  let '(lt, ts) := list_copy (d_tendons cur) (tendon_store s) in
  let '(lg, cs) := list_copy (d_grout_connections cur) (component_store s) in
  let '(la, cs) := list_copy (d_access_shafts cur) cs in
  let layout_copy :=
    mkSavedDict layout_name timestamp lt lg la
                (foundation_diameter s) (wall_thickness s) in
  mkSession ts cs (layouts s ++ [layout_copy]) cur
            (foundation_diameter s) (wall_thickness s).

(** "Load Layout i" (lines 305-312). *)
Definition loadSnapshot (i : nat) (s : Session) : Result Session :=
  match layouts s !! i with
  | None => Raise IndexError
  | Some layout =>
      let '(lt, ts) := list_copy (s_tendons layout) (tendon_store s) in
      let '(lg, cs) :=
        list_copy (s_grout_connections layout) (component_store s) in
      let '(la, cs) := list_copy (s_access_shafts layout) cs in
      Ok (mkSession ts cs (layouts s)
                    (mkLayoutDict (s_name layout +:+ " (copy)") lt lg la)
                    (foundation_diameter s) (wall_thickness s))
  end.

(** One interaction with the page: a slider is moved, the name is edited
    or a button is pressed (at most one button is down in a run of the
    script; the load buttons exist for the indices of saved layouts). *)
Inductive Action : Type :=
  | ApplyFoundationSpec (diameter thickness : R)
  | GenerateCircularPattern (num_tendons : nat) (radius tendon_diameter : R)
  | AddTendon (manual_x manual_y tendon_diameter : R)
  | AddGroutConnection (grout_x grout_y grout_diameter : R)
  | AddAccessShaft (shaft_x shaft_y shaft_diameter : R)
  | ClearAll
  | SetLayoutName (layout_name : string)
  | SaveSnapshot (timestamp : string)
  | LoadSnapshot (i : nat).

Definition step (a : Action) (s : Session) : Result Session :=
  match a with
  | ApplyFoundationSpec d w => Ok (applyFoundationSpec d w s)
  | GenerateCircularPattern n r d => Ok (generateCircularPattern n r d s)
  | AddTendon x y d => Ok (addTendon x y d s)
  | AddGroutConnection x y d => Ok (addGroutConnection x y d s)
  | AddAccessShaft x y d => Ok (addAccessShaft x y d s)
  | ClearAll => Ok (clearAll s)
  | SetLayoutName n => Ok (setLayoutName n s)
  | SaveSnapshot t => Ok (saveSnapshot t s)
  | LoadSnapshot i => loadSnapshot i s
  end.

Fixpoint run (actions : list Action) (s : Session) : Result Session :=
  match actions with
  | [] => Ok s
  | a :: actions' => s' ← step a s; run actions' s'
  end.

Inductive reachable : Session → Prop :=
  | reachable_init : reachable init_session
  | reachable_step a s s' :
      reachable s → step a s = Ok s' → reachable s'.

(** ** Reading the session *)

Definition read_layout (s : Session) (d : LayoutDict) : option Layout :=
  ts ← read_list (tendon_store s) (d_tendons d);
  gs ← read_list (component_store s) (d_grout_connections d);
  shafts ← read_list (component_store s) (d_access_shafts d);
  Some (mkLayout (d_name d) ts gs shafts).

Definition current (s : Session) : option Layout :=
  read_layout s (current_layout s).

(** A saved layout by value. *)
Record Snapshot : Type := mkSnapshot {
  snap_layout : Layout;
  snap_timestamp : string;
  snap_foundation_diameter : R;
  snap_wall_thickness : R
}.

Definition read_saved (s : Session) (sv : SavedDict) : option Snapshot :=
  layout ← read_layout s (mkLayoutDict (s_name sv) (s_tendons sv)
                            (s_grout_connections sv) (s_access_shafts sv));
  Some (mkSnapshot layout (s_timestamp sv) (s_foundation_diameter sv)
                   (s_wall_thickness sv)).

Definition snapshot (s : Session) (i : nat) : option Snapshot :=
  sv ← layouts s !! i; read_saved s sv.

(** ** The rules as conditions on the data *)

(** Containment fails: [d + r > outerRadius - wallThickness]. *)
Definition outside_bore (diameter thickness : R) (t : Tendon) : Prop :=
  (radialOffset (t_x t) (t_y t) + t_diameter t / 2000
   > diameter / 2 - thickness)%R.

(** Tendon-tendon clearance fails. *)
Definition too_close (t1 t2 : Tendon) : Prop :=
  (distance (t_x t1) (t_y t1) (t_x t2) (t_y t2)
   < (t_diameter t1 / 1000 + t_diameter t2 / 1000) / 2 + 0.3)%R.

(** Grout-tendon proximity fires. *)
Definition near (g : Component) (t : Tendon) : Prop :=
  (distance (c_x g) (c_y g) (t_x t) (t_y t)
   < c_diameter g / 1000 / 2 + t_diameter t / 1000 / 2 + 0.2)%R.

#[global] Instance outside_bore_dec d w t : Decision (outside_bore d w t).
Proof. unfold outside_bore. apply _. Defined.
#[global] Instance too_close_dec t1 t2 : Decision (too_close t1 t2).
Proof. unfold too_close. apply _. Defined.
#[global] Instance near_dec g t : Decision (near g t).
Proof. unfold near. apply _. Defined.

(** The pairs visited by the two loops of check 2, in order, each tendon
    with its position in the list. *)
Definition tendon_pairs (tendons : list Tendon)
    : list ((nat * Tendon) * (nat * Tendon)) :=
  it1 ← enumerate tendons 0;
  fmap (λ jt2, (it1, jt2)) (enumerate (drop (it1.1 + 1) tendons) (it1.1 + 1)).

(** The pairs visited by the two loops of check 3, in order. *)
Definition grout_tendon_pairs (grout_connections : list Component)
    (tendons : list Tendon) : list (Component * Tendon) :=
  grout ← grout_connections; fmap (λ tendon, (grout, tendon)) tendons.

Section Findings.
Variable format_2f : R → string.

Definition clearance_finding (p : (nat * Tendon) * (nat * Tendon)) : string :=
  let t1 := p.1.2 in
  let t2 := p.2.2 in
  clearance_msg format_2f p.1.1 p.2.1
    (distance (t_x t1) (t_y t1) (t_x t2) (t_y t2))
    ((t_diameter t1 + t_diameter t2) / 1000 / 2 + min_clearance)%R.
End Findings.

(** Number formatters for the examples: they agree with Python on the
    numbers that occur there ([format(0.3, ".2f")] is ["0.30"], pandas
    writes the float 4.0 as [4.0] and the integer 150 as [150]). *)
Definition format_2f_example (v : R) : string :=
  if decide (v = 0.3%R) then "0.30"
  else if decide (v = 0.6%R) then "0.60"
  else "?".

Definition str_num_example (v : R) : string :=
  if decide (v = 0%R) then "0.0"
  else if decide (v = 4%R) then "4.0"
  else if decide (v = 150%R) then "150"
  else "?".

(** Ids equal list positions. *)
Definition ids_sequential (ids : list nat) : Prop :=
  ids = seq 0 (length ids).

Definition layout_ids_ok (layout : Layout) : Prop :=
  ids_sequential (t_id <$> tendons layout)
  ∧ ids_sequential (c_id <$> grout_connections layout)
  ∧ ids_sequential (c_id <$> access_shafts layout).

(** ** Invariant of the session *)

(** The list objects of a saved layout are not those of the current
    layout. *)
Definition separated (cur : LayoutDict) (sv : SavedDict) : Prop :=
  s_tendons sv ≠ d_tendons cur
  ∧ s_grout_connections sv ≠ d_grout_connections cur
  ∧ s_grout_connections sv ≠ d_access_shafts cur
  ∧ s_access_shafts sv ≠ d_grout_connections cur
  ∧ s_access_shafts sv ≠ d_access_shafts cur.

Record session_inv (s : Session) : Prop := mkInv {
  inv_current :
    ∃ layout, current s = Some layout ∧ layout_ids_ok layout;
  inv_saved :
    ∀ sv, sv ∈ layouts s →
      ∃ snap, read_saved s sv = Some snap ∧ layout_ids_ok (snap_layout snap);
  inv_separated : ∀ sv, sv ∈ layouts s → separated (current_layout s) sv;
  inv_distinct :
    d_grout_connections (current_layout s) ≠ d_access_shafts (current_layout s)
}.

(** What a step leaves alone: dictionaries are only added, and the only
    list objects modified in place are those of the current layout. *)
Definition frame (s s' : Session) : Prop :=
  objs (tendon_store s) ⊆ objs (tendon_store s')
  ∧ objs (component_store s) ⊆ objs (component_store s')
  ∧ (∀ l, is_Some (lists (tendon_store s) !! l) →
          l ≠ d_tendons (current_layout s) →
          lists (tendon_store s') !! l = lists (tendon_store s) !! l)
  ∧ (∀ l, is_Some (lists (component_store s) !! l) →
          l ≠ d_grout_connections (current_layout s) →
          l ≠ d_access_shafts (current_layout s) →
          lists (component_store s') !! l = lists (component_store s) !! l).

(** ** The analysis column and the plot, read from the session *)

(** The "Constraint Validation" and "Estimates" blocks (lines 198-255) as
    the page computes them: from the current layout of the session and the
    two foundation sliders. *)
Definition page_validation (format_2f : R → string) (s : Session)
    : option (Result ValidationResult) :=
  layout ← current s;
  Some (validate format_2f (foundation_diameter s) (wall_thickness s) layout).

Definition page_estimate (s : Session) : option Metrics :=
  estimate <$> current s.

(** The export column (lines 283-291). *)
Definition page_export (str_num : R → string) (s : Session)
    : option (option string) :=
  layout ← current s; Some (exportTendonsCsv str_num (tendons layout)).

(** The [label=] arguments of the circles (lines 150-175): the component
    with id 0 carries the name of its kind, every other one the empty
    label. *)
Definition tendon_label (tendon : Tendon) : string :=
  if decide (t_id tendon = 0) then "Tendon" else "".
Definition grout_label (grout : Component) : string :=
  if decide (c_id grout = 0) then "Grout" else "".
Definition shaft_label (shaft : Component) : string :=
  if decide (c_id shaft = 0) then "Access Shaft" else "".

(** The labels of the artists in drawing order (lines 140-178). *)
Definition artist_labels (layout : Layout) : list string :=
  ["Foundation Outer"; "Foundation Inner"]
    ++ (tendon_label <$> tendons layout)
    ++ (grout_label <$> grout_connections layout)
    ++ (shaft_label <$> access_shafts layout)
    ++ ["Center"].

(** [ax.get_legend_handles_labels()]: the artists with a non-empty
    label. *)
Definition get_legend_labels (layout : Layout) : list string :=
  filter (λ label, label ≠ "") (artist_labels layout).

(** The keys of [dict(zip(labels, handles))] (line 184): the labels in
    order of first appearance. *)
Definition by_label_keys (labels : list string) : list string :=
  fold_left (λ seen k, if decide (k ∈ seen) then seen else seen ++ [k])
            labels [].

(** The entries of the legend (lines 181-185). *)
Definition legend (layout : Layout) : list string :=
  by_label_keys (get_legend_labels layout).

(** ** Ranges of the foundation sliders (lines 42-43) *)

Definition foundation_sliders (diameter thickness : R) : Prop :=
  (5 <= diameter <= 15)%R ∧ (0.3 <= thickness <= 1.5)%R.

(** The number of "Save Layout" presses in a sequence of actions. *)
Definition is_save (a : Action) : bool :=
  match a with SaveSnapshot _ => true | _ => false end.

Definition saves (actions : list Action) : nat :=
  length (filter (λ a, is_save a) actions).

(** * The checks in double precision

    The numbers of the script are IEEE 754 binary64 values, and the three
    checks compare numbers that can be equal up to the last digit, where
    rounding decides.  This part embeds lines 200-226 over Rocq's binary64
    numbers, operation by operation; the definitions of the first part
    read the same lines in exact arithmetic.

    - An [int] (the tendon and grout diameters come from integer sliders)
      is held as the double of the same value: sums and true divisions of
      the integers below 2^53 that occur give the same doubles.
    - [x ** 2] calls the C library's [pow], which is not always the
      correctly rounded square: it is the parameter [pow2].  [np.sqrt] is
      the IEEE square root.
    - A tendon so far out that [x ** 2] overflows makes Python raise
      [OverflowError]; that needs a coordinate above 1.3e154 and is left
      out. *)
Module Binary64.

Record Tendon : Type := mkTendon {
  t_id : nat;
  t_x : float;
  t_y : float;
  t_diameter : float;
  t_type : string
}.

Record Component : Type := mkComponent {
  c_id : nat;
  c_x : float;
  c_y : float;
  c_diameter : float
}.

Record Layout : Type := mkLayout {
  name : string;
  tendons : list Tendon;
  grout_connections : list Component;
  access_shafts : list Component
}.

(** [a / b] *)
Definition truediv (a b : float) : Result float :=
  if (b =? 0)%float then Raise ZeroDivisionError else Ok (a / b)%float.

Definition min_clearance : float := 0.3.

Definition containment_msg (tendon : Tendon) : string :=
  "Tendon T" +:+ pretty (t_id tendon) +:+ " too close to wall".

Definition proximity_msg (grout : Component) (tendon : Tendon) : string :=
  "Grout G" +:+ pretty (c_id grout) +:+ " near Tendon T" +:+ pretty (t_id tendon).

Section Validation.
(** [x ** 2] and [format(v, ".2f")] *)
Variable pow2 : float → float.
Variable format_2f : float → string.
Variables foundation_diameter wall_thickness : float.

Definition clearance_msg (i j : nat) (dist min_dist : float) : string :=
  "Tendons T" +:+ pretty i +:+ " and T" +:+ pretty j +:+ " too close ("
    +:+ format_2f dist +:+ "m < " +:+ format_2f min_dist +:+ "m)".

(** Check 1: components inside foundation. *)
Definition check1 (tendons : list Tendon) (violations : list string)
    : Result (list string) :=
  for_each (λ tendon violations,
    let distance := PrimFloat.sqrt (pow2 (t_x tendon) + pow2 (t_y tendon)) in
    mm ← truediv (t_diameter tendon) 1000;
    r ← truediv mm 2;
    outer ← truediv foundation_diameter 2;
    if (outer - wall_thickness <? distance + r)%float
    then Ok (violations ++ [containment_msg tendon])
    else Ok violations) tendons violations.

(** Check 2: minimum clearance between tendons. *)
Definition check2 (tendons : list Tendon) (violations : list string)
    : Result (list string) :=
  for_each (λ '(i, t1) violations,
    for_each (λ '(j, t2) violations,
      let dist := PrimFloat.sqrt (pow2 (t_x t1 - t_x t2) + pow2 (t_y t1 - t_y t2)) in
      m ← truediv (t_diameter t1 + t_diameter t2) 1000;
      h ← truediv m 2;
      let min_dist := (h + min_clearance)%float in
      if (dist <? min_dist)%float
      then Ok (violations ++ [clearance_msg i j dist min_dist])
      else Ok violations)
      (enumerate (drop (i + 1) tendons) (i + 1)) violations)
    (enumerate tendons 0) violations.

(** Check 3: grout connection clearance. *)
Definition check3 (grout_connections : list Component)
    (tendons : list Tendon) (warnings : list string) : Result (list string) :=
  for_each (λ grout warnings,
    for_each (λ tendon warnings,
      let dist := PrimFloat.sqrt (pow2 (c_x grout - t_x tendon)
                        + pow2 (c_y grout - t_y tendon)) in
      gm ← truediv (c_diameter grout) 1000;
      gr ← truediv gm 2;
      tm ← truediv (t_diameter tendon) 1000;
      tr ← truediv tm 2;
      let min_dist := (gr + tr + 0.2)%float in
      if (dist <? min_dist)%float
      then Ok (warnings ++ [proximity_msg grout tendon])
      else Ok warnings) tendons warnings)
    grout_connections warnings.

Definition validate (layout : Layout) : Result ValidationResult :=
  violations ← check1 (tendons layout) [];
  violations ← check2 (tendons layout) violations;
  warnings ← check3 (grout_connections layout) (tendons layout) [];
  Ok (mkValidation violations warnings).

(** The three conditions, as the checks compute them. *)
Definition distance (x1 y1 x2 y2 : float) : float :=
  PrimFloat.sqrt (pow2 (x1 - x2) + pow2 (y1 - y2)).

Definition radialOffset (x y : float) : float := PrimFloat.sqrt (pow2 x + pow2 y).

Definition bore : float := (foundation_diameter / 2 - wall_thickness)%float.

Definition outside_bore (t : Tendon) : bool :=
  (bore <? radialOffset (t_x t) (t_y t) + t_diameter t / 1000 / 2)%float.

Definition required_clearance (t1 t2 : Tendon) : float :=
  ((t_diameter t1 + t_diameter t2) / 1000 / 2 + min_clearance)%float.

Definition too_close (t1 t2 : Tendon) : bool :=
  (distance (t_x t1) (t_y t1) (t_x t2) (t_y t2)
   <? required_clearance t1 t2)%float.

Definition near (g : Component) (t : Tendon) : bool :=
  (distance (c_x g) (c_y g) (t_x t) (t_y t)
   <? c_diameter g / 1000 / 2 + t_diameter t / 1000 / 2 + 0.2)%float.

Definition clearance_finding (p : (nat * Tendon) * (nat * Tendon)) : string :=
  let t1 := p.1.2 in
  let t2 := p.2.2 in
  clearance_msg p.1.1 p.2.1
    (distance (t_x t1) (t_y t1) (t_x t2) (t_y t2)) (required_clearance t1 t2).
End Validation.

(** The pairs visited by the two loops of check 2 and of check 3. *)
Definition tendon_pairs (tendons : list Tendon)
    : list ((nat * Tendon) * (nat * Tendon)) :=
  it1 ← enumerate tendons 0;
  fmap (λ jt2, (it1, jt2)) (enumerate (drop (it1.1 + 1) tendons) (it1.1 + 1)).

Definition grout_tendon_pairs (grout_connections : list Component)
    (tendons : list Tendon) : list (Component * Tendon) :=
  grout ← grout_connections; fmap (λ tendon, (grout, tendon)) tendons.

(** ** The real number a double stands for *)

Definition value (f : float) : R :=
  match Prim2SF f with
  | S754_finite s m e =>
      (IZR (cond_Zopp s (Zpos m))
       * (if (0 <=? e)%Z then IZR (2 ^ e) else / IZR (2 ^ (- e))))%R
  | _ => 0%R
  end.

(** ** Instances of the parameters for the examples

    The square is the correctly rounded one, which is what [pow] returns
    on the coordinates of the examples; the formatter agrees with Python's
    [format(v, ".2f")] on the numbers that occur there. *)
Definition pow2_example (x : float) : float := (x * x)%float.

Definition format_2f_example (v : float) : string :=
  if (v =? 0.3)%float then "0.30"
  else if (v =? 0.6)%float then "0.60"
  else if (v =? 0.4)%float then "0.40"
  else if (v =? 0.3999999999999999)%float then "0.40"
  else "?".

End Binary64.

(** * The pattern handler in rounded arithmetic

    The pattern handler computes with [np.pi], [np.cos] and [np.sin],
    which are not computable here, so its doubles are read as the real
    numbers they stand for and every operation of lines 60-63 returns the
    rounding [rnd v] of its exact result [v]; the integers [0 .. num - 1]
    of [arange] are exact.  [rnd], the two library functions and the
    constant are parameters; the properties assume of them what IEEE 754
    and the libraries give: an error of at most [eps] on the range the
    handler needs (for binary64 and numbers of magnitude up to 64, [eps]
    is 2^-48). *)
Module Rounded.
Section Rounded.
Variable rnd : R → R.
Variables cos_lib sin_lib : R → R.
Variable pi_lib : R.

(** [np.linspace(start, stop, num, endpoint=False)] *)
Definition linspace (start stop : R) (num : nat) : list R :=
  let delta := rnd (stop - start) in
  let y := fmap INR (seq 0 num) in
  let y :=
    if decide (0 < num) then
      let step := rnd (delta / INR num) in
      if decide (step = 0%R)
      then fmap (λ v, rnd (rnd (v / INR num) * delta)) y
      else fmap (λ v, rnd (v * step)) y
    else fmap (λ v, rnd (v * delta)) y in
  fmap (λ v, rnd (v + start)) y.

(** The step and the angles that [linspace(0, 2*np.pi, num)] computes
    when the step is not zero. *)
Definition step (num : nat) : R :=
  rnd (rnd (rnd (2 * pi_lib) - 0) / INR num).

Definition angle (num k : nat) : R := rnd (rnd (INR k * step num) + 0).

(** The dictionaries appended by the loop, in order. *)
Definition pattern_dicts (num_tendons : nat) (radius tendon_diameter : R)
    : list Tendon :=
  let angles := linspace 0 (rnd (2 * pi_lib)) num_tendons in
  fmap (λ '(i, angle),
         let x := rnd (radius * cos_lib angle) in
         let y := rnd (radius * sin_lib angle) in
         mkTendon i x y tendon_diameter "vertical")
      (enumerate angles 0).

(** "Generate Circular Pattern" (lines 58-70). *)
Definition generateCircularPattern (num_tendons : nat)
    (radius tendon_diameter : R) (s : Session) : Session :=
  let cur := current_layout s in
  let '(l, ts) := new_list [] (tendon_store s) in
  let cur := mkLayoutDict (d_name cur) l (d_grout_connections cur)
                          (d_access_shafts cur) in
  let angles := linspace 0 (rnd (2 * pi_lib)) num_tendons in
  let ts :=
    fold_left (λ ts '(i, angle),
                 let x := rnd (radius * cos_lib angle) in
                 let y := rnd (radius * sin_lib angle) in
                 append_new l (mkTendon i x y tendon_diameter "vertical") ts)
              (enumerate angles 0) ts in
  mkSession ts (component_store s) (layouts s) cur
            (foundation_diameter s) (wall_thickness s).
End Rounded.

(** An arithmetic for the examples: every result is off by the relative
    error 2^-54, and [np.cos], [np.sin] and [np.pi] are rounded the same
    way. *)
Definition rnd_example (v : R) : R := (v + v / 18014398509481984)%R.
Definition cos_example (a : R) : R := rnd_example (cos a).
Definition sin_example (a : R) : R := rnd_example (sin a).
Definition pi_example : R := rnd_example PI.
Definition eps_example : R := (/ 281474976710656)%R.
End Rounded.

(** * Properties *)

(** ** Loops and division *)

Lemma truediv_ok (a b : R) : b ≠ 0%R → truediv a b = Ok (a / b)%R.
Proof. intros Hb. unfold truediv. by rewrite decide_False. Qed.

Lemma Ok_inj {A : Type} (a b : A) : Ok a = Ok b → a = b.
Proof. by intros [= ->]. Qed.

Lemma Result_bind_ok {A B : Type} (a : A) (f : A → Result B) :
  Ok a ≫= f = f a.
Proof. done. Qed.

Lemma truediv_bind {B : Type} (a b : R) (f : R → Result B) :
  b ≠ 0%R → truediv a b ≫= f = f (a / b)%R.
Proof. intros Hb. by rewrite truediv_ok. Qed.

(** Division by a non-zero literal goes through. *)
Ltac divide := repeat (rewrite truediv_bind; [cbv beta | lra]).

Lemma for_each_append {A B : Type} (g : A → list B)
    (body : A → list B → Result (list B)) :
  (∀ x v, body x v = Ok (v ++ g x)) →
  ∀ xs v, for_each body xs v = Ok (v ++ (xs ≫= g)).
Proof.
  intros Hbody xs. induction xs as [|x xs IH]; intros v; simpl.
  - by rewrite app_nil_r.
  - rewrite Hbody. simpl. rewrite IH. by rewrite <- app_assoc.
Qed.

Lemma for_each_filter {A B : Type} (P : A → Prop) `{!∀ x, Decision (P x)}
    (f : A → B) (body : A → list B → Result (list B)) :
  (∀ x v, body x v = Ok (if decide (P x) then v ++ [f x] else v)) →
  ∀ xs v, for_each body xs v = Ok (v ++ fmap f (filter P xs)).
Proof.
  intros Hbody xs. induction xs as [|x xs IH]; intros v; simpl.
  - by rewrite app_nil_r.
  - rewrite Hbody. simpl. rewrite IH. rewrite filter_cons.
    destruct (decide (P x)); simpl; [by rewrite <- app_assoc | done].
Qed.

Lemma enumerate_lookup {A : Type} (l : list A) (start i : nat) :
  enumerate l start !! i = (λ x, (start + i, x)) <$> l !! i.
Proof.
  revert start i. induction l as [|x l IH]; intros start [|i]; simpl; try done.
  - by rewrite Nat.add_0_r.
  - rewrite IH. by replace (S start + i) with (start + S i) by lia.
Qed.

Lemma elem_of_enumerate {A : Type} (l : list A) (start k : nat) (x : A) :
  (k, x) ∈ enumerate l start ↔ ∃ i, k = start + i ∧ l !! i = Some x.
Proof.
  rewrite list_elem_of_lookup. split.
  - intros [i Hi]. rewrite enumerate_lookup in Hi.
    destruct (l !! i) as [y|] eqn:Hl; simplify_eq/=. eauto.
  - intros (i & -> & Hl). exists i. by rewrite enumerate_lookup, Hl.
Qed.

Lemma NoDup_enumerate {A : Type} (l : list A) (start : nat) :
  NoDup (enumerate l start).
Proof.
  apply NoDup_alt. intros i j [k x] Hi Hj.
  rewrite enumerate_lookup in Hi, Hj.
  destruct (l !! i), (l !! j); simplify_eq/=. lia.
Qed.

(** ** The pairs of check 2 *)

Lemma elem_of_tendon_pairs (ts : list Tendon) (i j : nat) (t1 t2 : Tendon) :
  ((i, t1), (j, t2)) ∈ tendon_pairs ts
  ↔ i < j ∧ ts !! i = Some t1 ∧ ts !! j = Some t2.
Proof.
  unfold tendon_pairs. rewrite list_elem_of_bind. split.
  - intros ([i' t1'] & Hin & Hout). simpl in Hin.
    apply list_elem_of_fmap in Hin as ([j' t2'] & Heq & Hin). simplify_eq.
    apply elem_of_enumerate in Hout as (a & -> & Ha).
    apply elem_of_enumerate in Hin as (b & -> & Hb).
    rewrite lookup_drop in Hb. simpl. by split_and!; [lia | |].
  - intros (Hlt & H1 & H2). exists (i, t1). split.
    + simpl. apply list_elem_of_fmap. exists (j, t2). split; [done|].
      apply elem_of_enumerate. exists (j - (i + 1)). split; [lia|].
      rewrite lookup_drop. by replace (i + 1 + (j - (i + 1))) with j by lia.
    + apply elem_of_enumerate. by exists i.
Qed.

(** ** What the three checks append *)

Lemma check1_spec (diameter thickness : R) (ts : list Tendon) (v : list string) :
  check1 diameter thickness ts v
  = Ok (v ++ (containment_msg <$> filter (outside_bore diameter thickness) ts)).
Proof.
  unfold check1. apply for_each_filter. intros t v'. divide.
  unfold outside_bore, radialOffset.
  repeat case_decide; try done; exfalso; lra.
Qed.

Lemma filter_fmap {A B : Type} (f : A → B) (P : B → Prop)
    `{!∀ y, Decision (P y)} (l : list A) :
  filter P (f <$> l) = f <$> filter (λ x, P (f x)) l.
Proof.
  induction l as [|x l IH]; [done|].
  rewrite fmap_cons, !filter_cons, IH. by case_decide.
Qed.

Lemma check2_spec (format_2f : R → string) (ts : list Tendon) (v : list string) :
  check2 format_2f ts v
  = Ok (v ++ (clearance_finding format_2f
                <$> filter (λ p, too_close p.1.2 p.2.2) (tendon_pairs ts))).
Proof.
  unfold check2.
  rewrite (for_each_append
    (λ it1, clearance_finding format_2f
       <$> filter (λ p, too_close p.1.2 p.2.2)
             ((λ jt2, (it1, jt2))
                <$> enumerate (drop (it1.1 + 1) ts) (it1.1 + 1)))).
  - f_equal. f_equal. unfold tendon_pairs.
    generalize (enumerate ts 0). intros l.
    induction l as [|x l IH]; [done|].
    rewrite !bind_cons, filter_app, fmap_app. by rewrite IH.
  - intros [i t1] v'. cbn [fst snd].
    rewrite filter_fmap, <- list_fmap_compose.
    apply (for_each_filter (λ jt2, too_close t1 jt2.2)).
    intros [j t2] w. divide. cbn [fst snd compose].
    unfold too_close, distance, clearance_finding, min_clearance. cbn [fst snd].
    repeat case_decide; try done; exfalso; lra.
Qed.

Lemma check3_spec (gs : list Component) (ts : list Tendon) (w : list string) :
  check3 gs ts w
  = Ok (w ++ ((λ p, proximity_msg p.1 p.2)
                <$> filter (λ p, near p.1 p.2) (grout_tendon_pairs gs ts))).
Proof.
  unfold check3.
  rewrite (for_each_append
    (λ g, (λ p, proximity_msg p.1 p.2)
            <$> filter (λ p, near p.1 p.2) ((λ t, (g, t)) <$> ts))).
  - f_equal. f_equal. unfold grout_tendon_pairs.
    induction gs as [|g gs IH]; [done|].
    rewrite !bind_cons, filter_app, fmap_app. by rewrite IH.
  - intros g v'. rewrite filter_fmap, <- list_fmap_compose.
    apply (for_each_filter (λ t, near g t)).
    intros t w'. divide. cbn [fst snd compose].
    unfold near, distance.
    repeat case_decide; try done; exfalso; lra.
Qed.

(** [validate] always returns, and its two lists are these. *)
Lemma validate_spec (format_2f : R → string) (diameter thickness : R)
    (layout : Layout) :
  validate format_2f diameter thickness layout
  = Ok (mkValidation
          ((containment_msg
              <$> filter (outside_bore diameter thickness) (tendons layout))
           ++ (clearance_finding format_2f
                 <$> filter (λ p, too_close p.1.2 p.2.2)
                       (tendon_pairs (tendons layout))))
          ((λ p, proximity_msg p.1 p.2)
             <$> filter (λ p, near p.1 p.2)
                   (grout_tendon_pairs (grout_connections layout)
                      (tendons layout)))).
Proof.
  unfold validate. rewrite check1_spec, Result_bind_ok.
  rewrite check2_spec, Result_bind_ok. rewrite check3_spec. done.
Qed.

(** ** Geometry *)

Lemma radialOffset_nonneg (x y : R) : (0 <= radialOffset x y)%R.
Proof. apply sqrt_pos. Qed.

Lemma radialOffset_on_axis (x : R) : (0 <= x)%R → radialOffset x 0 = x.
Proof.
  intros Hx. unfold radialOffset.
  replace (x ^ 2 + 0 ^ 2)%R with (x ^ 2)%R by ring. by apply sqrt_pow2.
Qed.

Lemma distance_sym (x1 y1 x2 y2 : R) :
  distance x1 y1 x2 y2 = distance x2 y2 x1 y1.
Proof. unfold distance. f_equal. ring. Qed.

Lemma distance_on_axis (x1 x2 y : R) :
  (x1 <= x2)%R → distance x1 y x2 y = (x2 - x1)%R.
Proof.
  intros Hx. unfold distance.
  replace ((x1 - x2) ^ 2 + (y - y) ^ 2)%R with ((x2 - x1) ^ 2)%R by ring.
  apply sqrt_pow2. lra.
Qed.

Lemma distance_triangle (x1 y1 x2 y2 x3 y3 : R) :
  (distance x1 y1 x3 y3 <= distance x1 y1 x2 y2 + distance x2 y2 x3 y3)%R.
Proof.
  unfold distance. rewrite <- !Rsqr_pow2.
  apply (triangle x1 y1 x3 y3 x2 y2).
Qed.

Lemma distance_origin (x y : R) : distance x y 0 0 = radialOffset x y.
Proof. unfold distance, radialOffset. f_equal. ring. Qed.

Lemma elem_of_grout_tendon_pairs (gs : list Component) (ts : list Tendon) g t :
  (g, t) ∈ grout_tendon_pairs gs ts ↔ g ∈ gs ∧ t ∈ ts.
Proof.
  unfold grout_tendon_pairs. rewrite list_elem_of_bind. split.
  - intros (g' & Hin & Hg). apply list_elem_of_fmap in Hin as (t' & ? & ?).
    by simplify_eq.
  - intros [Hg Ht]. exists g. split; [|done].
    apply list_elem_of_fmap. eauto.
Qed.

Lemma app_nonempty {A : Type} (l1 l2 : list A) :
  l1 ++ l2 ≠ [] ↔ l1 ≠ [] ∨ l2 ≠ [].
Proof.
  destruct l1, l2; simpl; split; try done; try (by left); try (by right).
  by intros [? | ?].
Qed.

Lemma fmap_filter_nonempty {A B : Type} (f : A → B) (P : A → Prop)
    `{!∀ x, Decision (P x)} (l : list A) :
  f <$> filter P l ≠ [] ↔ ∃ x, x ∈ l ∧ P x.
Proof.
  split.
  - intros Hne. destruct (filter P l) as [|x k] eqn:Hf; [done|].
    assert (x ∈ filter P l) as Hin by (rewrite Hf; left).
    apply list_elem_of_filter in Hin as [? ?]. eauto.
  - intros (x & Hx & HP) Hnil. apply fmap_nil_inv in Hnil.
    assert (x ∈ filter P l) as Hin by by apply list_elem_of_filter.
    rewrite Hnil in Hin. by apply not_elem_of_nil in Hin.
Qed.

(** ** Messages *)

Lemma string_length_app (s1 s2 : string) :
  String.length (s1 +:+ s2) = String.length s1 + String.length s2.
Proof. induction s1 as [|a s1 IH]; simpl; [done | by rewrite IH]. Qed.

Lemma string_app_inj_r (s1 s2 t : string) : s1 +:+ t = s2 +:+ t → s1 = s2.
Proof.
  revert s2. induction s1 as [|a s1 IH]; intros [|b s2] H.
  - done.
  - apply (f_equal String.length) in H.
    rewrite !string_length_app in H. simpl in H. lia.
  - apply (f_equal String.length) in H.
    rewrite !string_length_app in H. simpl in H. lia.
  - injection H as -> H. f_equal. by apply IH.
Qed.

(** ** Degenerate foundation *)

Lemma filter_all {A : Type} (P : A → Prop) `{!∀ x, Decision (P x)}
    (l : list A) :
  (∀ x, x ∈ l → P x) → filter P l = l.
Proof.
  induction l as [|x l IH]; intros Hall; [done|].
  rewrite filter_cons_True by (apply Hall; left).
  f_equal. apply IH. intros y Hy. apply Hall. by right.
Qed.

(** C6. With inner radius [outerDiameter/2 - wallThickness <= 0] and
    positive tendon diameters, [validate] still returns a result (no
    exception is raised; the only divisors are the literals 1000 and 2)
    and its violations start with one containment message for every
    tendon of the layout, in order. *)
Theorem degenerate_foundation (format_2f : R → string)
    (diameter thickness : R) (layout : Layout) :
  (diameter / 2 - thickness <= 0)%R →
  (∀ t, t ∈ tendons layout → (0 < t_diameter t)%R) →
  ∃ vr, validate format_2f diameter thickness layout = Ok vr
    ∧ violations vr
      = (containment_msg <$> tendons layout)
        ++ (clearance_finding format_2f
              <$> filter (λ p, too_close p.1.2 p.2.2)
                    (tendon_pairs (tendons layout)))
    ∧ ∀ t, t ∈ tendons layout → containment_msg t ∈ violations vr.
Proof.
  intros Hinner Hpos.
  assert (filter (outside_bore diameter thickness) (tendons layout)
          = tendons layout) as Hall.
  { apply filter_all. intros t Ht. unfold outside_bore.
    pose proof (radialOffset_nonneg (t_x t) (t_y t)).
    pose proof (Hpos t Ht). lra. }
  eexists. split; [apply validate_spec|]. simpl. rewrite Hall.
  split; [done|]. intros t Ht. apply elem_of_app. left.
  by apply list_elem_of_fmap_2.
Qed.

(** A foundation of diameter 1 m with 1 m walls holding one tendon. *)
Lemma degenerate_foundation_witness :
  let t := mkTendon 0 0 0 150 "vertical" in
  ∃ vr, validate format_2f_example 1 1 (mkLayout "Layout 1" [t] [] []) = Ok vr
    ∧ containment_msg t ∈ violations vr.
Proof.
  intros t.
  destruct (degenerate_foundation format_2f_example 1 1
              (mkLayout "Layout 1" [t] [] []))
    as (vr & Hv & _ & Hall).
  - lra.
  - intros t' Ht'. apply list_elem_of_singleton in Ht' as ->. simpl. lra.
  - exists vr. split; [done|]. apply Hall. left.
Defined.

(** ** The heap: allocation, append and copy *)

Section Store.
Context {A : Type}.
Implicit Types (st : Store A) (l x : nat) (items : list nat) (v : A).

Lemma fresh_unallocated {B : Type} (m : gmap nat B) : m !! fresh (dom m) = None.
Proof. apply not_elem_of_dom. apply is_fresh. Qed.

Lemma read_list_Some st l vs :
  read_list st l = Some vs
  ↔ ∃ items, lists st !! l = Some items
             ∧ Forall2 (λ x v, objs st !! x = Some v) items vs.
Proof.
  unfold read_list. split.
  - intros H. destruct (lists st !! l) as [items|]; [|done].
    exists items. split; [done|]. by apply mapM_Some.
  - intros (items & -> & H). by apply mapM_Some.
Qed.

(** Reading a list only depends on the list object and on the
    dictionaries it refers to; dictionaries are never modified. *)
Lemma read_list_frame st st' l vs :
  objs st ⊆ objs st' →
  lists st' !! l = lists st !! l →
  read_list st l = Some vs → read_list st' l = Some vs.
Proof.
  intros Hobjs Hl. rewrite !read_list_Some.
  intros (items & Hitems & Hall). exists items. split; [congruence|].
  eapply Forall2_impl; [done|]. intros x v Hx. simpl in *.
  by eapply lookup_weaken.
Qed.

Lemma new_obj_objs v st : objs st ⊆ objs (new_obj v st).2.
Proof. apply insert_subseteq, fresh_unallocated. Qed.

Lemma new_list_fresh items st : lists st !! (new_list items st).1 = None.
Proof. apply fresh_unallocated. Qed.

Lemma new_list_lookup items st :
  lists (new_list items st).2 !! (new_list items st).1 = Some items.
Proof. apply lookup_insert_eq. Qed.

Lemma new_list_other items st l :
  is_Some (lists st !! l) →
  lists (new_list items st).2 !! l = lists st !! l.
Proof.
  intros Hl. apply lookup_insert_ne. intros <-.
  rewrite fresh_unallocated in Hl. by destruct Hl.
Qed.

Lemma new_list_ne items st l :
  is_Some (lists st !! l) → l ≠ (new_list items st).1.
Proof. intros Hl ->. rewrite new_list_fresh in Hl. by destruct Hl. Qed.

(** A new empty list reads as empty. *)
Lemma read_new_list_nil st :
  read_list (new_list [] st).2 (new_list [] st).1 = Some [].
Proof. unfold read_list. by rewrite new_list_lookup. Qed.

(** A list that was readable is not affected by an allocation. *)
Lemma read_new_list_other items st l vs :
  read_list st l = Some vs → read_list (new_list items st).2 l = Some vs.
Proof.
  intros Hr. apply (read_list_frame st); [done | | done].
  apply new_list_other. apply read_list_Some in Hr as (? & -> & _). eauto.
Qed.

(** [l.copy()] reads as [l]. *)
Lemma read_list_copy st l vs :
  read_list st l = Some vs →
  read_list (list_copy l st).2 (list_copy l st).1 = Some vs.
Proof.
  rewrite !read_list_Some. intros (items & Hl & Hall).
  exists items. split; [|done].
  unfold list_copy, list_items. rewrite Hl. apply new_list_lookup.
Qed.

Lemma list_copy_other st l l' vs :
  read_list st l' = Some vs → read_list (list_copy l st).2 l' = Some vs.
Proof. apply read_new_list_other. Qed.

Lemma list_copy_ne st l l' :
  is_Some (lists st !! l') → l' ≠ (list_copy l st).1.
Proof. apply new_list_ne. Qed.

(** The copy is shallow: the new list object holds the references of
    the old one, and no dictionary is allocated. *)
Lemma list_copy_shares st l items :
  lists st !! l = Some items →
  lists (list_copy l st).2 !! (list_copy l st).1 = Some items
  ∧ lists (list_copy l st).2 !! l = Some items
  ∧ (list_copy l st).1 ≠ l
  ∧ objs (list_copy l st).2 = objs st.
Proof.
  intros Hl. unfold list_copy, list_items. rewrite Hl. simpl.
  split_and!.
  - apply lookup_insert_eq.
  - rewrite <- Hl. apply (new_list_other items). by rewrite Hl.
  - intros Heq. pose proof (new_list_fresh items st) as Hf.
    simpl in Hf. rewrite Heq in Hf. congruence.
  - done.
Qed.

(** [l.append({...})] *)
Lemma append_new_objs l v st : objs st ⊆ objs (append_new l v st).
Proof. apply (new_obj_objs v st). Qed.

Lemma append_new_other l l' v st :
  l' ≠ l → lists (append_new l v st) !! l' = lists st !! l'.
Proof. intros Hne. unfold append_new. simpl. by apply lookup_alter_ne. Qed.

Lemma read_append_new l v st vs :
  read_list st l = Some vs →
  read_list (append_new l v st) l = Some (vs ++ [v]).
Proof.
  rewrite !read_list_Some. intros (items & Hl & Hall).
  exists (items ++ [fresh (dom (objs st))]). split.
  - unfold append_new. simpl. rewrite lookup_alter_eq, Hl. done.
  - apply Forall2_app.
    + eapply Forall2_impl; [done|]. intros x w Hx. simpl in *.
      eapply lookup_weaken; [done|]. apply (new_obj_objs v st).
    + constructor; [|constructor]. apply lookup_insert_eq.
Qed.

Lemma read_append_new_other l l' v st vs :
  l' ≠ l → read_list st l' = Some vs →
  read_list (append_new l v st) l' = Some vs.
Proof.
  intros Hne. apply (read_list_frame st).
  - apply append_new_objs.
  - by apply append_new_other.
Qed.

Lemma length_list_items st l vs :
  read_list st l = Some vs → length (list_items st l) = length vs.
Proof.
  rewrite read_list_Some. intros (items & Hl & Hall).
  unfold list_items. rewrite Hl. simpl. by eapply Forall2_length.
Qed.

(** A loop of appends. *)
Lemma read_fold_append_new (vs' : list A) l st vs :
  read_list st l = Some vs →
  read_list (fold_left (λ st v, append_new l v st) vs' st) l
  = Some (vs ++ vs').
Proof.
  revert st vs. induction vs' as [|v vs' IH]; intros st vs Hr; simpl.
  - by rewrite app_nil_r.
  - erewrite IH; [|by apply read_append_new].
    by rewrite <- app_assoc.
Qed.

Lemma fold_append_new_objs (vs : list A) l st :
  objs st ⊆ objs (fold_left (λ st v, append_new l v st) vs st).
Proof.
  revert st. induction vs as [|v vs IH]; intros st; simpl; [done|].
  etrans; [apply (append_new_objs l v)|apply IH].
Qed.

Lemma fold_append_new_other (vs : list A) l l' st :
  l' ≠ l →
  lists (fold_left (λ st v, append_new l v st) vs st) !! l'
  = lists st !! l'.
Proof.
  intros Hne. revert st. induction vs as [|v vs IH]; intros st; simpl; [done|].
  rewrite IH. by apply append_new_other.
Qed.
End Store.

Lemma fold_left_pairs {St B C D : Type} (g : D → St → St) (mk : B → C → D)
    (bs : list (B * C)) (st : St) :
  fold_left (λ st '(i, angle), g (mk i angle) st) bs st
  = fold_left (λ st t, g t st) ((λ '(i, angle), mk i angle) <$> bs) st.
Proof.
  revert st. induction bs as [|[i angle] bs IH]; intros st; simpl; [done|].
  apply IH.
Qed.

(** The loop of the pattern handler appends [pattern_dicts]. *)
Lemma generateCircularPattern_loop (num_tendons : nat)
    (radius tendon_diameter : R) (s : Session) :
  generateCircularPattern num_tendons radius tendon_diameter s
  = let cur := current_layout s in
    let l := (new_list [] (tendon_store s)).1 in
    mkSession
      (fold_left (λ st t, append_new l t st)
                 (pattern_dicts num_tendons radius tendon_diameter)
                 (new_list [] (tendon_store s)).2)
      (component_store s) (layouts s)
      (mkLayoutDict (d_name cur) l (d_grout_connections cur)
                    (d_access_shafts cur))
      (foundation_diameter s) (wall_thickness s).
Proof.
  unfold generateCircularPattern, pattern_dicts. cbv zeta.
  destruct (new_list [] (tendon_store s)) as [l st]. cbn [fst snd]. f_equal.
  apply (fold_left_pairs (append_new l)
           (λ i angle, mkTendon i (radius * cos angle) (radius * sin angle)
                                tendon_diameter "vertical")).
Qed.

(** ** Frame of a step *)

Lemma read_layout_Some (s : Session) (d : LayoutDict) (layout : Layout) :
  read_layout s d = Some layout
  ↔ ∃ ts gs shafts,
      read_list (tendon_store s) (d_tendons d) = Some ts
      ∧ read_list (component_store s) (d_grout_connections d) = Some gs
      ∧ read_list (component_store s) (d_access_shafts d) = Some shafts
      ∧ layout = mkLayout (d_name d) ts gs shafts.
Proof.
  unfold read_layout.
  destruct (read_list (tendon_store s) _) as [ts|]; simpl;
    [|split; [done | by intros (? & ? & ? & ? & _)]].
  destruct (read_list (component_store s) (d_grout_connections d))
    as [gs|]; simpl; [|split; [done | by intros (? & ? & ? & _ & ? & _)]].
  destruct (read_list (component_store s) (d_access_shafts d))
    as [shafts|]; simpl;
    [|split; [done | by intros (? & ? & ? & _ & _ & ? & _)]].
  split.
  - intros [= <-]. by exists ts, gs, shafts.
  - intros (? & ? & ? & ? & ? & ? & ->). by simplify_eq.
Qed.

Lemma frame_read_layout (s s' : Session) (d : LayoutDict) (layout : Layout) :
  objs (tendon_store s) ⊆ objs (tendon_store s') →
  objs (component_store s) ⊆ objs (component_store s') →
  lists (tendon_store s') !! d_tendons d
  = lists (tendon_store s) !! d_tendons d →
  lists (component_store s') !! d_grout_connections d
  = lists (component_store s) !! d_grout_connections d →
  lists (component_store s') !! d_access_shafts d
  = lists (component_store s) !! d_access_shafts d →
  read_layout s d = Some layout → read_layout s' d = Some layout.
Proof.
  intros Ht Hc Hlt Hlg Hla. rewrite !read_layout_Some.
  intros (ts & gs & shafts & Hts & Hgs & Hshafts & ->).
  exists ts, gs, shafts. split_and!; [| | |done].
  - by apply (read_list_frame (tendon_store s)).
  - by apply (read_list_frame (component_store s)).
  - by apply (read_list_frame (component_store s)).
Qed.

Lemma read_list_allocated {A : Type} (st : Store A) l vs :
  read_list st l = Some vs → is_Some (lists st !! l).
Proof. rewrite read_list_Some. intros (? & -> & _). eauto. Qed.

Lemma read_layout_allocated (s : Session) (d : LayoutDict) (layout : Layout) :
  read_layout s d = Some layout →
  is_Some (lists (tendon_store s) !! d_tendons d)
  ∧ is_Some (lists (component_store s) !! d_grout_connections d)
  ∧ is_Some (lists (component_store s) !! d_access_shafts d).
Proof.
  rewrite read_layout_Some. intros (? & ? & ? & ? & ? & ? & _).
  split_and!; by eapply read_list_allocated.
Qed.

Lemma read_saved_allocated (s : Session) (sv : SavedDict) (snap : Snapshot) :
  read_saved s sv = Some snap →
  is_Some (lists (tendon_store s) !! s_tendons sv)
  ∧ is_Some (lists (component_store s) !! s_grout_connections sv)
  ∧ is_Some (lists (component_store s) !! s_access_shafts sv).
Proof.
  unfold read_saved. intros Hr.
  destruct (read_layout s _) as [layout|] eqn:Hl; [|done].
  by apply read_layout_allocated in Hl.
Qed.

(** A saved layout separated from the current one reads the same after
    the step. *)
Lemma frame_read_saved (s s' : Session) (sv : SavedDict) (snap : Snapshot) :
  frame s s' → separated (current_layout s) sv →
  read_saved s sv = Some snap → read_saved s' sv = Some snap.
Proof.
  intros (Ht & Hc & Hlt & Hlc) (? & ? & ? & ? & ?) Hr.
  pose proof (read_saved_allocated _ _ _ Hr) as (? & ? & ?).
  unfold read_saved in *.
  destruct (read_layout s _) as [layout|] eqn:Hl; [|done].
  erewrite frame_read_layout; [done|done|done| | | |done]; simpl.
  - by apply Hlt.
  - by apply Hlc.
  - by apply Hlc.
Qed.

(** The handlers that allocate, with the allocations named. *)
Lemma clearAll_eq (s : Session) :
  clearAll s
  = let ts := new_list [] (tendon_store s) in
    let cs1 := new_list [] (component_store s) in
    let cs2 := new_list [] cs1.2 in
    mkSession ts.2 cs2.2 (layouts s)
              (mkLayoutDict (d_name (current_layout s)) ts.1 cs1.1 cs2.1)
              (foundation_diameter s) (wall_thickness s).
Proof. done. Qed.

Lemma saveSnapshot_eq (timestamp : string) (s : Session) :
  saveSnapshot timestamp s
  = let cur := current_layout s in
    let ts := list_copy (d_tendons cur) (tendon_store s) in
    let cs1 := list_copy (d_grout_connections cur) (component_store s) in
    let cs2 := list_copy (d_access_shafts cur) cs1.2 in
    mkSession ts.2 cs2.2
      (layouts s ++ [mkSavedDict (d_name cur) timestamp ts.1 cs1.1 cs2.1
                       (foundation_diameter s) (wall_thickness s)])
      cur (foundation_diameter s) (wall_thickness s).
Proof. done. Qed.

Lemma loadSnapshot_eq (i : nat) (s : Session) (layout : SavedDict) :
  layouts s !! i = Some layout →
  loadSnapshot i s
  = let ts := list_copy (s_tendons layout) (tendon_store s) in
    let cs1 := list_copy (s_grout_connections layout) (component_store s) in
    let cs2 := list_copy (s_access_shafts layout) cs1.2 in
    Ok (mkSession ts.2 cs2.2 (layouts s)
          (mkLayoutDict (s_name layout +:+ " (copy)") ts.1 cs1.1 cs2.1)
          (foundation_diameter s) (wall_thickness s)).
Proof. intros Hi. unfold loadSnapshot. by rewrite Hi. Qed.

Lemma loadSnapshot_Ok (i : nat) (s s' : Session) :
  loadSnapshot i s = Ok s' → ∃ layout, layouts s !! i = Some layout.
Proof.
  unfold loadSnapshot. destruct (layouts s !! i); [eauto | done].
Qed.

Ltac session_simpl :=
  cbv zeta;
  cbn [tendon_store component_store layouts current_layout
       foundation_diameter wall_thickness
       d_name d_tendons d_grout_connections d_access_shafts
       s_name s_timestamp s_tendons s_grout_connections s_access_shafts
       s_foundation_diameter s_wall_thickness].

Lemma step_frame (a : Action) (s s' : Session) :
  step a s = Ok s' → frame s s'.
Proof.
  destruct a; cbn [step]; intros Hstep.
  - by simplify_eq.
  - simplify_eq. rewrite generateCircularPattern_loop.
    unfold frame. session_simpl. split_and!; try done.
    + etrans; [|apply fold_append_new_objs]. done.
    + intros l Hl _.
      rewrite fold_append_new_other by by apply new_list_ne.
      by apply new_list_other.
  - simplify_eq. unfold frame, addTendon. session_simpl.
    split_and!; try done.
    + apply append_new_objs.
    + intros l _ Hne. by apply append_new_other.
  - simplify_eq. unfold frame, addGroutConnection. session_simpl.
    split_and!; try done.
    + apply append_new_objs.
    + intros l _ Hne _. by apply append_new_other.
  - simplify_eq. unfold frame, addAccessShaft. session_simpl.
    split_and!; try done.
    + apply append_new_objs.
    + intros l _ _ Hne. by apply append_new_other.
  - simplify_eq. rewrite clearAll_eq. unfold frame. session_simpl.
    split_and!; try done.
    + intros l Hl _. by apply new_list_other.
    + intros l Hl _ _.
      rewrite new_list_other by (rewrite new_list_other; done).
      by apply new_list_other.
  - by simplify_eq.
  - simplify_eq. rewrite saveSnapshot_eq. unfold frame. session_simpl.
    split_and!; try done.
    + intros l Hl _. by apply new_list_other.
    + intros l Hl _ _. unfold list_copy.
      rewrite new_list_other by (rewrite new_list_other; done).
      by apply new_list_other.
  - destruct (loadSnapshot_Ok _ _ _ Hstep) as [layout Hi].
    rewrite (loadSnapshot_eq _ _ _ Hi) in Hstep.
    apply Ok_inj in Hstep as <-. unfold frame. session_simpl. split_and!; try done.
    + intros l Hl _. by apply new_list_other.
    + intros l Hl _ _. unfold list_copy.
      rewrite new_list_other by (rewrite new_list_other; done).
      by apply new_list_other.
Qed.

Lemma new_list_allocated {A : Type} (items : list nat) (st : Store A) l :
  is_Some (lists st !! l) → is_Some (lists (new_list items st).2 !! l).
Proof. intros Hl. by rewrite new_list_other. Qed.

Lemma new_list_is_allocated {A : Type} (items : list nat) (st : Store A) :
  is_Some (lists (new_list items st).2 !! (new_list items st).1).
Proof. rewrite new_list_lookup. eauto. Qed.

(** ** What each handler does to the current layout *)

Lemma current_Some (s : Session) (layout : Layout) :
  current s = Some layout
  ↔ ∃ ts gs shafts,
      read_list (tendon_store s) (d_tendons (current_layout s)) = Some ts
      ∧ read_list (component_store s)
          (d_grout_connections (current_layout s)) = Some gs
      ∧ read_list (component_store s)
          (d_access_shafts (current_layout s)) = Some shafts
      ∧ layout = mkLayout (d_name (current_layout s)) ts gs shafts.
Proof. apply read_layout_Some. Qed.

Lemma current_setLayoutName (layout_name : string) (s : Session)
    (layout : Layout) :
  current s = Some layout →
  current (setLayoutName layout_name s)
  = Some (mkLayout layout_name (tendons layout) (grout_connections layout)
                   (access_shafts layout)).
Proof.
  rewrite !current_Some. intros (ts & gs & shafts & ? & ? & ? & ->).
  by exists ts, gs, shafts.
Qed.

Lemma read_generateCircularPattern (num_tendons : nat)
    (radius tendon_diameter : R) (s : Session) :
  let s' := generateCircularPattern num_tendons radius tendon_diameter s in
  read_list (tendon_store s') (d_tendons (current_layout s'))
  = Some (pattern_dicts num_tendons radius tendon_diameter).
Proof.
  rewrite generateCircularPattern_loop. session_simpl.
  apply (read_fold_append_new _ _ _ []). apply read_new_list_nil.
Qed.

Lemma current_generateCircularPattern (num_tendons : nat)
    (radius tendon_diameter : R) (s : Session) (layout : Layout) :
  current s = Some layout →
  current (generateCircularPattern num_tendons radius tendon_diameter s)
  = Some (mkLayout (name layout)
            (pattern_dicts num_tendons radius tendon_diameter)
            (grout_connections layout) (access_shafts layout)).
Proof.
  intros Hc. apply current_Some.
  pose proof (read_generateCircularPattern num_tendons radius
                tendon_diameter s) as Hr. cbv zeta in Hr.
  apply current_Some in Hc as (ts & gs & shafts & ? & ? & ? & ->).
  eexists _, gs, shafts. split; [exact Hr|].
  rewrite generateCircularPattern_loop. by session_simpl.
Qed.

Lemma current_addTendon (x y d : R) (s : Session) (layout : Layout) :
  current s = Some layout →
  current (addTendon x y d s)
  = Some (mkLayout (name layout)
            (tendons layout
             ++ [mkTendon (length (tendons layout)) x y d "vertical"])
            (grout_connections layout) (access_shafts layout)).
Proof.
  rewrite !current_Some. intros (ts & gs & shafts & Hts & ? & ? & ->).
  unfold addTendon. session_simpl.
  eexists _, gs, shafts. split_and!; [|done|done|done].
  rewrite (length_list_items _ _ _ Hts). by apply read_append_new.
Qed.

Lemma current_addGroutConnection (x y d : R) (s : Session) (layout : Layout) :
  d_grout_connections (current_layout s) ≠ d_access_shafts (current_layout s) →
  current s = Some layout →
  current (addGroutConnection x y d s)
  = Some (mkLayout (name layout) (tendons layout)
            (grout_connections layout
             ++ [mkComponent (length (grout_connections layout)) x y d])
            (access_shafts layout)).
Proof.
  intros Hne. rewrite !current_Some.
  intros (ts & gs & shafts & ? & Hgs & ? & ->).
  unfold addGroutConnection. session_simpl.
  eexists ts, _, shafts. split_and!; [done| | |done].
  - rewrite (length_list_items _ _ _ Hgs). by apply read_append_new.
  - by apply read_append_new_other.
Qed.

Lemma current_addAccessShaft (x y d : R) (s : Session) (layout : Layout) :
  d_grout_connections (current_layout s) ≠ d_access_shafts (current_layout s) →
  current s = Some layout →
  current (addAccessShaft x y d s)
  = Some (mkLayout (name layout) (tendons layout) (grout_connections layout)
            (access_shafts layout
             ++ [mkComponent (length (access_shafts layout)) x y d])).
Proof.
  intros Hne. rewrite !current_Some.
  intros (ts & gs & shafts & ? & ? & Hshafts & ->).
  unfold addAccessShaft. session_simpl.
  eexists ts, gs, _. split_and!; [done| | |done].
  - by apply read_append_new_other.
  - rewrite (length_list_items _ _ _ Hshafts). by apply read_append_new.
Qed.

(** After "Clear All Components" all three collections are empty. *)
Lemma current_clearAll (s : Session) :
  current (clearAll s)
  = Some (mkLayout (d_name (current_layout s)) [] [] []).
Proof.
  apply current_Some. rewrite clearAll_eq. session_simpl.
  exists [], [], []. split_and!; [| | |done].
  - apply read_new_list_nil.
  - apply read_new_list_other, read_new_list_nil.
  - apply read_new_list_nil.
Qed.

Lemma current_saveSnapshot (timestamp : string) (s : Session)
    (layout : Layout) :
  current s = Some layout → current (saveSnapshot timestamp s) = Some layout.
Proof.
  rewrite !current_Some. intros (ts & gs & shafts & ? & ? & ? & ->).
  rewrite saveSnapshot_eq. session_simpl.
  exists ts, gs, shafts. split_and!; [| | |done].
  - by apply list_copy_other.
  - by apply list_copy_other, list_copy_other.
  - by apply list_copy_other, list_copy_other.
Qed.

(** The layout appended by "Save Layout" reads as the current layout with
    the timestamp and the foundation parameters of the moment; its lists
    are new objects. *)
Lemma read_saved_new (timestamp : string) (s : Session) (layout : Layout) :
  current s = Some layout →
  ∃ sv, layouts (saveSnapshot timestamp s) = layouts s ++ [sv]
    ∧ read_saved (saveSnapshot timestamp s) sv
      = Some (mkSnapshot layout timestamp (foundation_diameter s)
                         (wall_thickness s))
    ∧ separated (current_layout s) sv.
Proof.
  intros Hc. pose proof (read_layout_allocated _ _ _ Hc) as (? & ? & ?).
  apply current_Some in Hc as (ts & gs & shafts & Hts & Hgs & Hshafts & ->).
  rewrite saveSnapshot_eq. session_simpl.
  eexists. split; [done|]. split.
  - unfold read_saved.
    erewrite (proj2 (read_layout_Some _ _ _)); [done|].
    session_simpl. exists ts, gs, shafts. split_and!; [| | |done].
    + by apply read_list_copy.
    + by apply list_copy_other, read_list_copy.
    + by apply read_list_copy, list_copy_other.
  - unfold separated. session_simpl. split_and!; apply not_eq_sym.
    + by apply list_copy_ne.
    + by apply list_copy_ne.
    + by apply list_copy_ne.
    + by apply list_copy_ne, new_list_allocated.
    + by apply list_copy_ne, new_list_allocated.
Qed.

Lemma read_saved_Some (s : Session) (sv : SavedDict) (snap : Snapshot) :
  read_saved s sv = Some snap
  ↔ ∃ ts gs shafts,
      read_list (tendon_store s) (s_tendons sv) = Some ts
      ∧ read_list (component_store s) (s_grout_connections sv) = Some gs
      ∧ read_list (component_store s) (s_access_shafts sv) = Some shafts
      ∧ snap = mkSnapshot (mkLayout (s_name sv) ts gs shafts)
                 (s_timestamp sv) (s_foundation_diameter sv)
                 (s_wall_thickness sv).
Proof.
  unfold read_saved. split.
  - intros Hr. destruct (read_layout s _) as [layout|] eqn:Hl; [|done].
    apply read_layout_Some in Hl as (ts & gs & shafts & ? & ? & ? & ->).
    simpl in *. exists ts, gs, shafts. by simplify_eq.
  - intros (ts & gs & shafts & ? & ? & ? & ->).
    erewrite (proj2 (read_layout_Some _ _ _)); [done|].
    by exists ts, gs, shafts.
Qed.

Lemma current_loadSnapshot (i : nat) (s : Session) (sv : SavedDict)
    (snap : Snapshot) :
  layouts s !! i = Some sv → read_saved s sv = Some snap →
  ∃ s', loadSnapshot i s = Ok s'
    ∧ current s'
      = Some (mkLayout (name (snap_layout snap) +:+ " (copy)")
                (tendons (snap_layout snap))
                (grout_connections (snap_layout snap))
                (access_shafts (snap_layout snap)))
    ∧ layouts s' = layouts s
    ∧ foundation_diameter s' = foundation_diameter s
    ∧ wall_thickness s' = wall_thickness s.
Proof.
  intros Hi Hr. rewrite (loadSnapshot_eq _ _ _ Hi).
  eexists. split; [done|]. session_simpl. split_and!; try done.
  apply read_saved_Some in Hr as (ts & gs & shafts & ? & ? & ? & ->).
  apply current_Some. session_simpl. cbn [snap_layout name tendons
    grout_connections access_shafts].
  exists ts, gs, shafts. split_and!; [| | |done].
  - by apply read_list_copy.
  - by apply list_copy_other, read_list_copy.
  - by apply read_list_copy, list_copy_other.
Qed.

(** ** Ids *)

Lemma ids_sequential_snoc (ids : list nat) :
  ids_sequential ids → ids_sequential (ids ++ [length ids]).
Proof.
  unfold ids_sequential. intros Hids.
  rewrite length_app. simpl. rewrite seq_app. simpl. by rewrite <- Hids.
Qed.

Lemma ids_sequential_lookup (ids : list nat) (k id : nat) :
  ids_sequential ids → ids !! k = Some id → id = k.
Proof.
  unfold ids_sequential. intros Hids Hk. rewrite Hids in Hk.
  apply lookup_seq in Hk. lia.
Qed.

Lemma fst_enumerate {A : Type} (l : list A) (start : nat) :
  (enumerate l start).*1 = seq start (length l).
Proof.
  revert start. induction l as [|x l IH]; intros start; simpl; [done|].
  by rewrite IH.
Qed.

Lemma snd_enumerate {A : Type} (l : list A) (start : nat) :
  (enumerate l start).*2 = l.
Proof.
  revert start. induction l as [|x l IH]; intros start; simpl; [done|].
  by rewrite IH.
Qed.

Lemma length_enumerate {A : Type} (l : list A) (start : nat) :
  length (enumerate l start) = length l.
Proof. by rewrite <- (length_fmap snd), snd_enumerate. Qed.

Lemma length_linspace (start stop : R) (num : nat) :
  length (linspace start stop num) = num.
Proof.
  unfold linspace. rewrite length_fmap.
  repeat case_decide; rewrite !length_fmap; apply length_seq.
Qed.

Lemma length_pattern_dicts (n : nat) (radius d : R) :
  length (pattern_dicts n radius d) = n.
Proof.
  unfold pattern_dicts. by rewrite length_fmap, length_enumerate, length_linspace.
Qed.

Lemma ids_pattern_dicts (n : nat) (radius d : R) :
  t_id <$> pattern_dicts n radius d = seq 0 n.
Proof.
  unfold pattern_dicts. rewrite <- list_fmap_compose.
  rewrite <- (length_linspace 0 (2 * PI) n) at 2.
  rewrite <- fst_enumerate. apply list_fmap_ext. by intros _ [i angle] _.
Qed.

Lemma ids_sequential_pattern_dicts (n : nat) (radius d : R) :
  ids_sequential (t_id <$> pattern_dicts n radius d).
Proof.
  unfold ids_sequential.
  by rewrite length_fmap, length_pattern_dicts, ids_pattern_dicts.
Qed.

Lemma ids_sequential_add_tendon (ts : list Tendon) (x y d : R) (k : string) :
  ids_sequential (t_id <$> ts) →
  ids_sequential (t_id <$> ts ++ [mkTendon (length ts) x y d k]).
Proof.
  intros H. rewrite fmap_app. simpl.
  rewrite <- (length_fmap t_id). by apply ids_sequential_snoc.
Qed.

Lemma ids_sequential_add_component (cs : list Component) (x y d : R) :
  ids_sequential (c_id <$> cs) →
  ids_sequential (c_id <$> cs ++ [mkComponent (length cs) x y d]).
Proof.
  intros H. rewrite fmap_app. simpl.
  rewrite <- (length_fmap c_id). by apply ids_sequential_snoc.
Qed.

(** ** The invariant holds in every reachable session *)

Lemma inv_current_allocated (s : Session) :
  session_inv s →
  is_Some (lists (tendon_store s) !! d_tendons (current_layout s))
  ∧ is_Some (lists (component_store s)
               !! d_grout_connections (current_layout s))
  ∧ is_Some (lists (component_store s) !! d_access_shafts (current_layout s)).
Proof.
  intros [(layout & Hc & _) _ _ _]. by apply read_layout_allocated in Hc.
Qed.

Lemma inv_saved_allocated (s : Session) (sv : SavedDict) :
  session_inv s → sv ∈ layouts s →
  is_Some (lists (tendon_store s) !! s_tendons sv)
  ∧ is_Some (lists (component_store s) !! s_grout_connections sv)
  ∧ is_Some (lists (component_store s) !! s_access_shafts sv).
Proof.
  intros [_ Hsaved _ _] Hin. destruct (Hsaved sv Hin) as (snap & Hr & _).
  by apply read_saved_allocated in Hr.
Qed.

(** A step does not change what an already saved layout reads as. *)
Lemma step_read_saved (a : Action) (s s' : Session) (sv : SavedDict)
    (snap : Snapshot) :
  session_inv s → step a s = Ok s' → sv ∈ layouts s →
  read_saved s sv = Some snap → read_saved s' sv = Some snap.
Proof.
  intros Hinv Hstep Hin. apply frame_read_saved.
  - by eapply step_frame.
  - by apply (inv_separated s Hinv).
Qed.

Lemma init_session_inv : session_inv init_session.
Proof.
  assert (current init_session = Some (mkLayout "Layout 1" [] [] [])) as Hc.
  { apply current_Some. exists [], [], []. split_and!; [| | |done].
    - apply (read_new_list_nil (empty_store (A:=Tendon))).
    - apply (read_new_list_other [] (new_list [] empty_store).2).
      apply (read_new_list_nil (empty_store (A:=Component))).
    - apply (read_new_list_nil (new_list [] (empty_store (A:=Component))).2). }
  split.
  - eexists. split; [exact Hc|]. by split_and!.
  - intros sv Hin. by apply not_elem_of_nil in Hin.
  - intros sv Hin. by apply not_elem_of_nil in Hin.
  - apply (new_list_ne [] (new_list [] (empty_store (A:=Component))).2).
    apply new_list_is_allocated.
Qed.

Lemma current_init_session :
  current init_session = Some (mkLayout "Layout 1" [] [] []).
Proof.
  apply current_Some. exists [], [], []. split_and!; [| | |done].
  - apply (read_new_list_nil (empty_store (A:=Tendon))).
  - apply (read_new_list_other [] (new_list [] empty_store).2).
    apply (read_new_list_nil (empty_store (A:=Component))).
  - apply (read_new_list_nil (new_list [] (empty_store (A:=Component))).2).
Qed.

Lemma step_inv (a : Action) (s s' : Session) :
  session_inv s → step a s = Ok s' → session_inv s'.
Proof.
  intros Hinv Hstep.
  pose proof (inv_current_allocated s Hinv) as (Hat & Hag & Haa).
  pose proof (λ sv, inv_saved_allocated s sv Hinv) as Hsa.
  assert (Hold : ∀ sv, sv ∈ layouts s →
            ∃ snap, read_saved s' sv = Some snap
                    ∧ layout_ids_ok (snap_layout snap)).
  { intros sv Hin. destruct (inv_saved s Hinv sv Hin) as (snap & Hr & Hids).
    exists snap. split; [|done]. by eapply step_read_saved. }
  destruct Hinv as [(layout & Hc & Hids_t & Hids_g & Hids_a) Hsaved Hsep Hdist].
  destruct a; cbn [step] in Hstep.
  - apply Ok_inj in Hstep as <-. split; try done.
    exists layout. by split.
  - apply Ok_inj in Hstep as <-. split.
    + eexists. split; [by apply current_generateCircularPattern|].
      split_and!; try done. apply ids_sequential_pattern_dicts.
    + rewrite generateCircularPattern_loop in *. apply Hold.
    + rewrite generateCircularPattern_loop. session_simpl.
      intros sv Hin. destruct (Hsep sv Hin) as (? & ? & ? & ? & ?).
      destruct (Hsa sv Hin) as (? & ? & ?).
      split_and!; try done. session_simpl. by apply new_list_ne.
    + rewrite generateCircularPattern_loop. by session_simpl.
  - apply Ok_inj in Hstep as <-. split; try done.
    eexists. split; [by apply current_addTendon|].
    split_and!; try done. by apply ids_sequential_add_tendon.
  - apply Ok_inj in Hstep as <-. split; try done.
    eexists. split; [by apply current_addGroutConnection|].
    split_and!; try done. by apply ids_sequential_add_component.
  - apply Ok_inj in Hstep as <-. split; try done.
    eexists. split; [by apply current_addAccessShaft|].
    split_and!; try done. by apply ids_sequential_add_component.
  - apply Ok_inj in Hstep as <-. split.
    + eexists. split; [apply current_clearAll|]. by split_and!.
    + rewrite clearAll_eq in *. apply Hold.
    + rewrite clearAll_eq. session_simpl. intros sv Hin.
      destruct (Hsa sv Hin) as (? & ? & ?).
      unfold separated. session_simpl. split_and!.
      * by apply new_list_ne.
      * by apply new_list_ne.
      * by apply new_list_ne, new_list_allocated.
      * by apply new_list_ne.
      * by apply new_list_ne, new_list_allocated.
    + rewrite clearAll_eq. session_simpl.
      apply new_list_ne, new_list_is_allocated.
  - apply Ok_inj in Hstep as <-. split; try done.
    eexists. split; [by apply current_setLayoutName|]. by split_and!.
  - apply Ok_inj in Hstep as <-.
    destruct (read_saved_new timestamp s layout Hc)
      as (new & Hl & Hnew & Hsepnew).
    split.
    + exists layout. split; [by apply current_saveSnapshot|by split_and!].
    + rewrite Hl. intros sv [Hin | Hin%list_elem_of_singleton]%elem_of_app.
      * by apply Hold.
      * subst sv. eexists. split; [exact Hnew|]. by split_and!.
    + rewrite Hl. intros sv [Hin | Hin%list_elem_of_singleton]%elem_of_app.
      * rewrite saveSnapshot_eq. session_simpl. by apply Hsep.
      * subst sv. rewrite saveSnapshot_eq. by session_simpl.
    + rewrite saveSnapshot_eq. by session_simpl.
  - destruct (loadSnapshot_Ok _ _ _ Hstep) as [sv0 Hi].
    assert (sv0 ∈ layouts s) as Hin0 by by eapply list_elem_of_lookup_2.
    destruct (Hsaved sv0 Hin0) as (snap & Hr & Hids0 & Hids1 & Hids2).
    destruct (current_loadSnapshot _ _ _ _ Hi Hr)
      as (s'' & Hload & Hcur & Hlay & _).
    rewrite Hload in Hstep. apply Ok_inj in Hstep as ->.
    split.
    + eexists. split; [exact Hcur|]. by split_and!.
    + rewrite Hlay. apply Hold.
    + rewrite Hlay. intros sv Hin.
      destruct (Hsa sv Hin) as (? & ? & ?).
      rewrite (loadSnapshot_eq _ _ _ Hi) in Hload.
      apply Ok_inj in Hload as <-. unfold separated. session_simpl.
      split_and!.
      * by apply list_copy_ne.
      * by apply list_copy_ne.
      * by apply list_copy_ne, new_list_allocated.
      * by apply list_copy_ne.
      * by apply list_copy_ne, new_list_allocated.
    + rewrite (loadSnapshot_eq _ _ _ Hi) in Hload.
      apply Ok_inj in Hload as <-. session_simpl.
      apply list_copy_ne, new_list_is_allocated.
Qed.

Lemma reachable_inv (s : Session) : reachable s → session_inv s.
Proof.
  induction 1 as [|a s s' _ IH Hstep]; [apply init_session_inv|].
  by eapply step_inv.
Qed.

(** ** Estimates *)

Lemma py_min_Rmin (a b : R) : py_min a b = Rmin a b.
Proof.
  unfold py_min, Rmin. case_decide; destruct (Rle_dec a b); try done; lra.
Qed.

(** C5. [estimate] returns totalSteelKg = tendonCount * 150, steelCostUsd
    = totalSteelKg * 3.50 and complexityScore = min(10, 2 + tendonCount *
    0.3 + groutCount * 0.5), which lies in [2, 10]; 8 tendons (and no
    grout connection) give 1200, 4200 and 4.4; an empty layout gives 0, 0
    and 2, and "Clear All Components" leaves such a layout, all three
    collections empty. *)
Theorem estimate_metrics (layout : Layout) :
  let m := estimate layout in
  let tendon_count := length (tendons layout) in
  let grout_count := length (grout_connections layout) in
  totalSteelKg m = tendon_count * 150
  ∧ steelCostUsd m = (INR (totalSteelKg m) * 3.50)%R
  ∧ complexityScore m
    = Rmin 10 (2 + INR tendon_count * 0.3 + INR grout_count * 0.5)
  ∧ (2 <= complexityScore m <= 10)%R
  ∧ (tendon_count = 8 → grout_count = 0 →
     totalSteelKg m = 1200 ∧ steelCostUsd m = 4200%R
     ∧ complexityScore m = 4.4%R)
  ∧ (tendon_count = 0 → grout_count = 0 →
     totalSteelKg m = 0 ∧ steelCostUsd m = 0%R ∧ complexityScore m = 2%R)
  ∧ (∀ s, ∃ cleared,
       current (clearAll s) = Some cleared
       ∧ tendons cleared = [] ∧ grout_connections cleared = []
       ∧ access_shafts cleared = []
       ∧ totalSteelKg (estimate cleared) = 0
       ∧ steelCostUsd (estimate cleared) = 0%R
       ∧ complexityScore (estimate cleared) = 2%R).
Proof.
  assert (Hempty : ∀ l, length (tendons l) = 0 →
            length (grout_connections l) = 0 →
            totalSteelKg (estimate l) = 0 ∧ steelCostUsd (estimate l) = 0%R
            ∧ complexityScore (estimate l) = 2%R).
  { intros l Ht Hg. unfold estimate. simpl. rewrite Ht, Hg. simpl.
    split_and!; [done | lra |]. rewrite py_min_Rmin.
    unfold Rmin. destruct (Rle_dec _ _); lra. }
  intros m tendon_count grout_count.
  pose proof (pos_INR tendon_count). pose proof (pos_INR grout_count).
  split_and!.
  - done.
  - done.
  - apply py_min_Rmin.
  - subst m. unfold estimate, py_min. simpl. fold tendon_count grout_count.
    case_decide; lra.
  - subst m. unfold estimate, py_min. simpl. fold tendon_count grout_count.
    case_decide; lra.
  - intros Ht Hg. subst m. unfold estimate. simpl.
    fold tendon_count grout_count. rewrite Ht, Hg.
    unfold steel_per_tendon, steel_cost_per_kg.
    change (8 * 150) with 1200. rewrite !INR_IZR_INZ.
    change (Z.of_nat 1200) with 1200%Z. change (Z.of_nat 8) with 8%Z.
    change (Z.of_nat 0) with 0%Z.
    split_and!; [done | lra |]. unfold py_min. case_decide; lra.
  - intros Ht Hg. by apply Hempty.
  - intros s. eexists. split; [apply current_clearAll|].
    split_and!; try done; by apply Hempty.
Qed.

(** Eight generated tendons and nothing else. *)
Lemma estimate_metrics_witness :
  let m := estimate (mkLayout "Layout 1" (pattern_dicts 8 4 150) [] []) in
  totalSteelKg m = 1200 ∧ steelCostUsd m = 4200%R ∧ complexityScore m = 4.4%R.
Proof.
  intros m.
  destruct (estimate_metrics (mkLayout "Layout 1" (pattern_dicts 8 4 150) [] []))
    as (_ & _ & _ & _ & H8 & _).
  apply H8; [apply length_pattern_dicts | done].
Defined.

(** ** Ids in reachable sessions *)

(** C10. In every session reachable from the initial one, the current
    layout can be read and the ids of each of its three collections are
    0, 1, ..., count-1 in list order, so that the element at position k has
    id k; the same holds for every saved layout.  The handlers keep it so:
    a generated pattern has ids 0..count-1, a manual addition takes the
    length of its collection as id, "Clear All" leaves empty collections,
    and a load copies the collections of a saved layout. *)
Theorem ids_are_positions (s : Session) :
  reachable s →
  (∃ layout,
     current s = Some layout
     ∧ t_id <$> tendons layout = seq 0 (length (tendons layout))
     ∧ c_id <$> grout_connections layout
       = seq 0 (length (grout_connections layout))
     ∧ c_id <$> access_shafts layout = seq 0 (length (access_shafts layout))
     ∧ (∀ k t, tendons layout !! k = Some t → t_id t = k)
     ∧ (∀ k g, grout_connections layout !! k = Some g → c_id g = k)
     ∧ (∀ k a, access_shafts layout !! k = Some a → c_id a = k)
     ∧ (∀ n radius d,
          current (generateCircularPattern n radius d s)
          = Some (mkLayout (name layout) (pattern_dicts n radius d)
                    (grout_connections layout) (access_shafts layout))
          ∧ t_id <$> pattern_dicts n radius d = seq 0 n)
     ∧ (∀ x y d,
          current (addTendon x y d s)
          = Some (mkLayout (name layout)
                    (tendons layout
                     ++ [mkTendon (length (tendons layout)) x y d "vertical"])
                    (grout_connections layout) (access_shafts layout)))
     ∧ (∀ x y d,
          current (addGroutConnection x y d s)
          = Some (mkLayout (name layout) (tendons layout)
                    (grout_connections layout
                     ++ [mkComponent (length (grout_connections layout)) x y d])
                    (access_shafts layout)))
     ∧ (∀ x y d,
          current (addAccessShaft x y d s)
          = Some (mkLayout (name layout) (tendons layout)
                    (grout_connections layout)
                    (access_shafts layout
                     ++ [mkComponent (length (access_shafts layout)) x y d])))
     ∧ current (clearAll s) = Some (mkLayout (name layout) [] [] []))
  ∧ (∀ i sv, layouts s !! i = Some sv →
       ∃ snap, read_saved s sv = Some snap
               ∧ layout_ids_ok (snap_layout snap)).
Proof.
  intros Hreach. pose proof (reachable_inv s Hreach) as Hinv.
  destruct (inv_current s Hinv) as (layout & Hc & Ht & Hg & Ha).
  pose proof (inv_distinct s Hinv) as Hdist.
  split.
  - exists layout. unfold ids_sequential in Ht, Hg, Ha.
    rewrite length_fmap in Ht. rewrite length_fmap in Hg.
    rewrite length_fmap in Ha. split_and!; try done.
    + intros k t Hk. apply (ids_sequential_lookup (t_id <$> tendons layout)).
      * unfold ids_sequential. by rewrite length_fmap.
      * by rewrite list_lookup_fmap, Hk.
    + intros k g Hk.
      apply (ids_sequential_lookup (c_id <$> grout_connections layout)).
      * unfold ids_sequential. by rewrite length_fmap.
      * by rewrite list_lookup_fmap, Hk.
    + intros k a Hk.
      apply (ids_sequential_lookup (c_id <$> access_shafts layout)).
      * unfold ids_sequential. by rewrite length_fmap.
      * by rewrite list_lookup_fmap, Hk.
    + intros n radius d. split.
      * by apply current_generateCircularPattern.
      * apply ids_pattern_dicts.
    + intros x y d. by apply current_addTendon.
    + intros x y d. by apply current_addGroutConnection.
    + intros x y d. by apply current_addAccessShaft.
    + rewrite current_clearAll.
      apply current_Some in Hc as (? & ? & ? & _ & _ & _ & ->). done.
  - intros i sv Hi. apply (inv_saved s Hinv).
    by eapply list_elem_of_lookup_2.
Qed.

(** A generated pattern of eight tendons, then a tendon and a grout
    connection added by hand: nine tendons with ids 0 to 8 and one grout
    connection with id 0. *)
Lemma ids_are_positions_witness :
  let s := addGroutConnection 0 2 400
             (addTendon 0 0 150
                (generateCircularPattern 8 4 150 init_session)) in
  ∃ layout,
    current s = Some layout
    ∧ length (tendons layout) = 9
    ∧ t_id <$> tendons layout = seq 0 9
    ∧ (∀ k t, tendons layout !! k = Some t → t_id t = k)
    ∧ c_id <$> grout_connections layout = [0].
Proof.
  intros s.
  set (s1 := generateCircularPattern 8 4 150 init_session).
  set (s2 := addTendon 0 0 150 s1).
  assert (reachable s2) as Hr2.
  { apply (reachable_step (AddTendon 0 0 150) s1); [|done].
    by apply (reachable_step (GenerateCircularPattern 8 4 150) init_session);
      [apply reachable_init|]. }
  assert (reachable s) as Hr
    by (by apply (reachable_step (AddGroutConnection 0 2 400) s2)).
  pose proof (current_generateCircularPattern 8 4 150 init_session _
                current_init_session) as Hc1.
  pose proof (current_addTendon 0 0 150 _ _ Hc1) as Hc2.
  cbn [name tendons grout_connections access_shafts] in Hc2.
  rewrite length_pattern_dicts in Hc2.
  pose proof (current_addGroutConnection 0 2 400 s2 _
                (inv_distinct s2 (reachable_inv s2 Hr2)) Hc2) as Hc3.
  cbn [name tendons grout_connections access_shafts app length] in Hc3.
  destruct (ids_are_positions s Hr)
    as [(layout & Hc & Ht & Hg & _ & Hpos & _) _].
  pose proof (eq_trans (eq_sym Hc) Hc3) as Heq. injection Heq as ->.
  cbn [tendons grout_connections] in Ht, Hg, Hpos.
  assert (length (pattern_dicts 8 4 150
                  ++ [mkTendon 8 0 0 150 "vertical"]) = 9) as Hlen
    by (by rewrite length_app, length_pattern_dicts).
  rewrite Hlen in Ht.
  eexists. split; [exact Hc3|]. cbn [tendons grout_connections].
  split; [exact Hlen|]. split; [exact Ht|]. split; [exact Hpos|]. exact Hg.
Defined.

(** ** Saved layouts *)

Lemma step_layouts_lookup (a : Action) (s s' : Session) (i : nat)
    (sv : SavedDict) :
  step a s = Ok s' → layouts s !! i = Some sv → layouts s' !! i = Some sv.
Proof.
  intros Hstep Hi. destruct a; cbn [step] in Hstep.
  1-7: by apply Ok_inj in Hstep as <-.
  - apply Ok_inj in Hstep as <-. rewrite saveSnapshot_eq. session_simpl.
    by apply lookup_app_l_Some.
  - destruct (loadSnapshot_Ok _ _ _ Hstep) as [sv0 Hi0].
    rewrite (loadSnapshot_eq _ _ _ Hi0) in Hstep.
    by apply Ok_inj in Hstep as <-.
Qed.

Lemma step_snapshot (a : Action) (s s' : Session) (i : nat) (snap : Snapshot) :
  session_inv s → step a s = Ok s' →
  snapshot s i = Some snap → snapshot s' i = Some snap.
Proof.
  intros Hinv Hstep. unfold snapshot.
  destruct (layouts s !! i) as [sv|] eqn:Hi; [|done]. simpl. intros Hr.
  rewrite (step_layouts_lookup _ _ _ _ _ Hstep Hi). simpl.
  eapply step_read_saved; [done | done | | done].
  by eapply list_elem_of_lookup_2.
Qed.

(** "Save Layout" copies the three list objects, not the dictionaries
    they refer to. *)
Lemma saveSnapshot_shares (timestamp : string) (s : Session)
    (items : list nat) :
  lists (tendon_store s) !! d_tendons (current_layout s) = Some items →
  let s' := saveSnapshot timestamp s in
  ∃ sv, layouts s' = layouts s ++ [sv]
    ∧ s_tendons sv ≠ d_tendons (current_layout s')
    ∧ lists (tendon_store s') !! s_tendons sv = Some items
    ∧ lists (tendon_store s') !! d_tendons (current_layout s') = Some items
    ∧ objs (tendon_store s') = objs (tendon_store s)
    ∧ objs (component_store s') = objs (component_store s).
Proof.
  intros Hl s'. subst s'. rewrite saveSnapshot_eq. session_simpl.
  destruct (list_copy_shares _ _ _ Hl) as (? & ? & ? & ?).
  eexists. split; [done|]. session_simpl. by split_and!.
Qed.

(** C8 (amended). "Save Layout" appends a snapshot that reads as the
    current layout, with the timestamp and the foundation parameters of the
    moment; it copies the three list objects and allocates no dictionary
    (the component dictionaries stay shared with the current layout, and no
    handler ever modifies one).  From then on, whatever sequence of actions
    is run (pattern generation, manual additions, clear, renames, further
    saves, loads), every saved snapshot keeps its name, timestamp,
    collections and recorded foundation parameters. *)
Theorem saved_snapshots_unchanged (s : Session) :
  reachable s →
  (∀ timestamp, ∃ layout,
     current s = Some layout
     ∧ snapshot (saveSnapshot timestamp s) (length (layouts s))
       = Some (mkSnapshot layout timestamp (foundation_diameter s)
                          (wall_thickness s))
     ∧ objs (tendon_store (saveSnapshot timestamp s)) = objs (tendon_store s)
     ∧ objs (component_store (saveSnapshot timestamp s))
       = objs (component_store s))
  ∧ (∀ actions s' i snap,
       snapshot s i = Some snap → run actions s = Ok s' →
       snapshot s' i = Some snap).
Proof.
  intros Hreach. split.
  - intros timestamp.
    destruct (inv_current s (reachable_inv s Hreach)) as (layout & Hc & _).
    exists layout. split; [done|].
    destruct (read_saved_new timestamp s layout Hc) as (sv & Hl & Hr & _).
    split_and!; [|done|done].
    unfold snapshot. rewrite Hl.
    rewrite list_lookup_middle by done. done.
  - intros actions. revert s Hreach.
    induction actions as [|a actions IH]; intros s Hreach s' i snap Hsnap Hrun.
    + simpl in Hrun. by apply Ok_inj in Hrun as <-.
    + simpl in Hrun. destruct (step a s) as [s1|] eqn:Hstep; [|done].
      rewrite Result_bind_ok in Hrun.
      apply (IH s1); [by eapply reachable_step | | done].
      eapply step_snapshot; [by apply reachable_inv | done | done].
Qed.

(** A snapshot of the initial session, then a tendon is added and
    everything is cleared. *)
Lemma saved_snapshots_unchanged_witness :
  let s := saveSnapshot "2026-01-01 00:00" init_session in
  ∃ snap, snapshot s 0 = Some snap
    ∧ snapshot (clearAll (addTendon 1 2 150 s)) 0 = Some snap.
Proof.
  intros s.
  destruct (saved_snapshots_unchanged init_session reachable_init)
    as [Hsave _].
  destruct (Hsave "2026-01-01 00:00") as (layout & _ & Hsnap & _).
  eexists. split; [exact Hsnap|].
  assert (reachable s) as Hreach.
  { by apply (reachable_step (SaveSnapshot "2026-01-01 00:00") init_session);
      [apply reachable_init|]. }
  destruct (saved_snapshots_unchanged s Hreach) as [_ Hkeep].
  by apply (Hkeep [AddTendon 1 2 150; ClearAll] _ 0 _ Hsnap).
Defined.

(** The copy made by "Save Layout" is not deep: after one tendon is added
    and the layout is saved, the saved list and the current list are two
    list objects holding the same dictionary. *)
Lemma saveSnapshot_is_shallow :
  let s' := saveSnapshot "2026-01-01 00:00" (addTendon 0 0 150 init_session) in
  ∃ sv x, layouts s' = [sv]
    ∧ s_tendons sv ≠ d_tendons (current_layout s')
    ∧ lists (tendon_store s') !! s_tendons sv = Some [x]
    ∧ lists (tendon_store s') !! d_tendons (current_layout s') = Some [x].
Proof.
  intros s'.
  assert (∃ x, lists (tendon_store (addTendon 0 0 150 init_session))
               !! d_tendons (current_layout (addTendon 0 0 150 init_session))
               = Some [x]) as [x Hx].
  { eexists. unfold addTendon. session_simpl. unfold append_new, list_append.
    cbn [new_obj lists]. rewrite lookup_alter_eq.
    change (d_tendons (current_layout init_session))
      with (new_list [] (empty_store (A:=Tendon))).1.
    change (lists (tendon_store init_session))
      with (lists (new_list [] (empty_store (A:=Tendon))).2).
    rewrite new_list_lookup. done. }
  destruct (saveSnapshot_shares "2026-01-01 00:00" _ _ Hx)
    as (sv & Hl & Hne & Hs & Hc & _).
  exists sv, x. by split_and!.
Qed.

(** ** Circular pattern *)

Lemma enumerate_fmap_seq {A : Type} (f : nat → A) (start n : nat) :
  enumerate (f <$> seq start n) start = (λ k, (k, f k)) <$> seq start n.
Proof.
  revert start. induction n as [|n IH]; intros start; simpl; [done|].
  by rewrite IH.
Qed.

Lemma linspace_turn (n : nat) :
  0 < n →
  linspace 0 (2 * PI) n = (λ k, 2 * PI * INR k / INR n)%R <$> seq 0 n.
Proof.
  intros Hn. unfold linspace.
  assert (0 < INR n)%R as Hpos by (apply lt_0_INR; lia).
  pose proof PI_RGT_0 as Hpi.
  rewrite decide_True by done.
  rewrite decide_False.
  - rewrite <- !list_fmap_compose. apply list_fmap_ext.
    intros _ k _. simpl. field. lra.
  - intros Hz. apply (Rmult_eq_compat_r (INR n)) in Hz.
    field_simplify in Hz; lra.
Qed.

Lemma pattern_dicts_turn (n : nat) (radius d : R) :
  0 < n →
  pattern_dicts n radius d
  = (λ k, mkTendon k (radius * cos (2 * PI * INR k / INR n))
                     (radius * sin (2 * PI * INR k / INR n)) d "vertical")
      <$> seq 0 n.
Proof.
  intros Hn. unfold pattern_dicts.
  rewrite linspace_turn, enumerate_fmap_seq by done.
  by rewrite <- list_fmap_compose.
Qed.

Lemma radialOffset_on_circle (radius angle : R) :
  radialOffset (radius * cos angle) (radius * sin angle) = Rabs radius.
Proof.
  unfold radialOffset.
  replace ((radius * cos angle) ^ 2 + (radius * sin angle) ^ 2)%R
    with (Rsqr radius * (Rsqr (sin angle) + Rsqr (cos angle)))%R
    by (unfold Rsqr; ring).
  rewrite sin2_cos2, Rmult_1_r. apply sqrt_Rsqr_abs.
Qed.

(** ** CSV export *)

Section ExportProperties.
Variable str_num : R → string.

Lemma add_keys_tendon_first (t : Tendon) :
  add_keys [] (tendon_items str_num t) = ["id"; "x"; "y"; "diameter"; "type"].
Proof. reflexivity. Qed.

Lemma add_keys_tendon_again (t : Tendon) :
  add_keys ["id"; "x"; "y"; "diameter"; "type"] (tendon_items str_num t)
  = ["id"; "x"; "y"; "diameter"; "type"].
Proof. reflexivity. Qed.

Lemma DataFrame_columns_tendons (ts : list Tendon) :
  ts ≠ [] →
  DataFrame_columns (tendon_items str_num <$> ts)
  = ["id"; "x"; "y"; "diameter"; "type"].
Proof.
  destruct ts as [|t ts]; [done|]. intros _.
  unfold DataFrame_columns. rewrite fmap_cons. cbn [fold_left].
  rewrite add_keys_tendon_first.
  induction ts as [|t' ts IH]; [done|].
  rewrite fmap_cons. cbn [fold_left]. by rewrite add_keys_tendon_again.
Qed.

Lemma needs_quoting_pretty_go (x : N) (s : string) :
  needs_quoting s = false → needs_quoting (pretty_N_go x s) = false.
Proof using Type.
  revert s. induction (N.lt_wf_0 x) as [x _ IH]. intros s Hs.
  destruct (decide (0 < x)%N) as [Hpos | Hzero].
  - rewrite pretty_N_go_step by done. apply IH.
    + apply N.div_lt; lia.
    + cbn [needs_quoting]. rewrite Hs, orb_false_r.
      assert (x `mod` 10 < 10)%N as Hlt by (apply N.mod_lt; lia).
      destruct (x `mod` 10)%N as [|p]; [done|].
      do 10 (destruct p as [p|p|]; try done; try lia).
  - replace x with 0%N by lia. by rewrite pretty_N_go_0.
Qed.

Lemma needs_quoting_pretty (n : nat) : needs_quoting (pretty n) = false.
Proof using Type.
  unfold pretty, pretty_nat, pretty, pretty_N.
  case_decide; [done|]. by apply needs_quoting_pretty_go.
Qed.

Lemma csv_field_plain (field : string) :
  needs_quoting field = false → csv_field field = field.
Proof using Type. intros H. unfold csv_field. by rewrite H. Qed.

Lemma to_csv_line_tendon (t : Tendon) :
  (∀ v, needs_quoting (str_num v) = false) →
  needs_quoting (t_type t) = false →
  String.concat ","
    ((λ k, csv_field (dict_get k (tendon_items str_num t)))
       <$> ["id"; "x"; "y"; "diameter"; "type"])
  = tendon_csv_row str_num t.
Proof.
  intros Hnum Htype. cbn [fmap list_fmap].
  change (dict_get "id" (tendon_items str_num t)) with (pretty (t_id t)).
  change (dict_get "x" (tendon_items str_num t)) with (str_num (t_x t)).
  change (dict_get "y" (tendon_items str_num t)) with (str_num (t_y t)).
  change (dict_get "diameter" (tendon_items str_num t))
    with (str_num (t_diameter t)).
  change (dict_get "type" (tendon_items str_num t)) with (t_type t).
  rewrite !csv_field_plain
    by first [apply needs_quoting_pretty | apply Hnum | exact Htype].
  reflexivity.
Qed.

Lemma string_app_empty_r (s : string) : s +:+ "" = s.
Proof using Type.
  induction s as [|a s IH]; [done|].
  change (String a (s +:+ "") = String a s). by f_equal.
Qed.

Lemma concat_empty_cons (line : string) (lines : list string) :
  String.concat "" (line :: lines) = line +:+ String.concat "" lines.
Proof using Type.
  destruct lines as [|line' lines]; cbn [String.concat];
    [by rewrite string_app_empty_r | done].
Qed.

Lemma length_to_csv_text (lines : list string) (terminator : string) :
  String.length (String.concat "" ((λ line, line +:+ terminator) <$> lines))
  = sum_list_with (λ line, String.length line + String.length terminator)
      lines.
Proof using Type.
  induction lines as [|line lines IH]; [done|].
  rewrite fmap_cons, concat_empty_cons, !string_length_app, IH. done.
Qed.

(** C9. For a non-empty tendon list whose fields need no quoting (the
    type of every tendon the page creates is "vertical", and the text of
    a number holds no comma, quote or line break) the export is offered,
    and its text is the header row [id,x,y,diameter,type] followed by
    exactly one row per tendon, in list order, holding the tendon's id, x,
    y, diameter and type in that order; every row is ended by one line
    feed. *)
Theorem export_tendons_csv (ts : list Tendon) :
  (∀ v, needs_quoting (str_num v) = false) →
  Forall (λ t, needs_quoting (t_type t) = false) ts →
  ts ≠ [] →
  let LF := String (Ascii.Ascii false true false true false false false false)
                   EmptyString in
  ∃ csv lines,
    exportTendonsCsv str_num ts = Some csv
    ∧ DataFrame_columns (tendon_items str_num <$> ts)
      = ["id"; "x"; "y"; "diameter"; "type"]
    ∧ to_csv_lines (tendon_items str_num <$> ts) = lines
    ∧ lines = "id,x,y,diameter,type" :: (tendon_csv_row str_num <$> ts)
    ∧ csv = String.concat "" ((λ line, line +:+ LF) <$> lines)
    ∧ String.length csv
      = sum_list_with (λ line, String.length line + 1) lines
    ∧ length lines = S (length ts)
    ∧ lines !! 0 = Some "id,x,y,diameter,type"
    ∧ (∀ k t, ts !! k = Some t →
         lines !! S k
         = Some (pretty (t_id t) +:+ "," +:+ str_num (t_x t) +:+ ","
                   +:+ str_num (t_y t) +:+ "," +:+ str_num (t_diameter t)
                   +:+ "," +:+ t_type t)).
Proof.
  intros Hnum Htypes Hne LF.
  assert (to_csv_lines (tendon_items str_num <$> ts)
          = "id,x,y,diameter,type" :: (tendon_csv_row str_num <$> ts))
    as Hlines.
  { unfold to_csv_lines. rewrite DataFrame_columns_tendons by done.
    f_equal. rewrite <- list_fmap_compose. apply list_fmap_ext.
    intros k t Hk. apply to_csv_line_tendon; [done|].
    by apply (Forall_lookup_1 _ _ _ _ Htypes Hk). }
  exists (to_csv (tendon_items str_num <$> ts)),
    ("id,x,y,diameter,type" :: (tendon_csv_row str_num <$> ts)).
  split.
  { unfold exportTendonsCsv. rewrite decide_True; [done|].
    destruct ts; [done | simpl; lia]. }
  split; [by apply DataFrame_columns_tendons|].
  split; [exact Hlines|]. split; [done|].
  assert (to_csv (tendon_items str_num <$> ts)
          = String.concat ""
              ((λ line, line +:+ LF)
                 <$> "id,x,y,diameter,type" :: (tendon_csv_row str_num <$> ts)))
    as Htext by (unfold to_csv; by rewrite Hlines).
  split; [exact Htext|]. split.
  { rewrite Htext. apply (length_to_csv_text _ LF). }
  split; [simpl; by rewrite length_fmap|]. split; [done|].
  intros k t Hk. simpl. by rewrite list_lookup_fmap, Hk.
Qed.

End ExportProperties.

Lemma str_num_example_values :
  str_num_example 0 = "0.0" ∧ str_num_example 4 = "4.0"
  ∧ str_num_example 150 = "150".
Proof.
  unfold str_num_example. split_and!.
  - by rewrite decide_True.
  - rewrite decide_False by lra. by rewrite decide_True.
  - rewrite decide_False by lra. rewrite decide_False by lra.
    by rewrite decide_True.
Qed.

Lemma str_num_example_plain (v : R) : needs_quoting (str_num_example v) = false.
Proof. unfold str_num_example. by repeat case_decide. Qed.

(** Two tendons: three rows, 67 characters. *)
Lemma export_tendons_csv_witness :
  let LF := String (Ascii.Ascii false true false true false false false false)
                   EmptyString in
  ∃ csv,
    exportTendonsCsv str_num_example
      [mkTendon 0 4 0 150 "vertical"; mkTendon 1 0 4 150 "vertical"]
    = Some csv
    ∧ csv = "id,x,y,diameter,type" +:+ LF
            +:+ "0,4.0,0.0,150,vertical" +:+ LF
            +:+ "1,0.0,4.0,150,vertical" +:+ LF
    ∧ String.length csv = 67.
Proof.
  intros LF.
  destruct (export_tendons_csv str_num_example
              [mkTendon 0 4 0 150 "vertical"; mkTendon 1 0 4 150 "vertical"]
              str_num_example_plain)
    as (csv & lines & Hcsv & _ & _ & Hlines & Htext & _);
    [by repeat constructor | done |].
  exists csv. split; [exact Hcsv|].
  assert (csv = "id,x,y,diameter,type" +:+ LF
                +:+ "0,4.0,0.0,150,vertical" +:+ LF
                +:+ "1,0.0,4.0,150,vertical" +:+ LF) as ->.
  { rewrite Htext, Hlines.
    destruct str_num_example_values as (H0 & H4 & H150).
    unfold tendon_csv_row. cbn [fmap list_fmap t_id t_x t_y t_diameter t_type].
    rewrite H0, H4, H150. reflexivity. }
  split; reflexivity.
Defined.

(** * The checks in double precision: properties *)

(** ** Comparison and symmetric operations of the doubles *)

Lemma b64_ltb_irrefl (x : float) : (x <? x)%float = false.
Proof.
  rewrite ltb_spec. unfold SFltb, SFcompare.
  destruct (Prim2SF x) as [[]|[]| |[] m e]; try done;
    by rewrite Z.compare_refl, Pos.compare_cont_refl.
Qed.

Lemma SF_binary_round_opp (s : bool) (m : positive) (e : Z) :
  binary_round prec emax (negb s) m e = SFopp (binary_round prec emax s m e).
Proof.
  unfold binary_round.
  destruct (shl_align _ _ _) as [mz ez].
  unfold binary_round_aux.
  destruct (shr_fexp _ _ (Z.pos mz) ez loc_Exact) as [mrs e1].
  destruct (shr_fexp _ _ _ e1 loc_Exact) as [mrs' e2].
  destruct (shr_m mrs'); [done | | done].
  by destruct (e2 <=? emax - prec)%Z.
Qed.

Lemma SF_binary_normalize_opp (z e : Z) :
  z ≠ 0%Z →
  binary_normalize prec emax (- z) e false
  = SFopp (binary_normalize prec emax z e false).
Proof.
  intros Hz. destruct z as [|p|p]; [done | |]; cbn [Z.opp binary_normalize].
  - apply (SF_binary_round_opp false).
  - apply (SF_binary_round_opp true).
Qed.

(** [b - a] is [-(a - b)], or both are [+0]. *)
Lemma SF64sub_swap (x y : spec_float) :
  SF64sub y x = SFopp (SF64sub x y) ∨ SF64sub y x = SF64sub x y.
Proof.
  unfold SF64sub, SFsub.
  destruct x as [sx|sx| |sx mx ex], y as [sy|sy| |sy my ey];
    try (by left); try (by right);
    try (by destruct sx, sy; (by left) || (by right)).
  rewrite (Z.min_comm ey ex).
  set (a := cond_Zopp sx (Z.pos (shl_align mx ex (Z.min ex ey)).1)).
  set (b := cond_Zopp sy (Z.pos (shl_align my ey (Z.min ex ey)).1)).
  destruct (decide (a - b = 0)%Z) as [Hz | Hz].
  - right. replace (b - a)%Z with 0%Z by lia. by rewrite Hz.
  - left. replace (b - a)%Z with (- (a - b))%Z by lia.
    by apply SF_binary_normalize_opp.
Qed.

Lemma b64_sub_swap (pow2 : float → float) (a b : float) :
  (∀ x, pow2 (- x)%float = pow2 x) → pow2 (b - a)%float = pow2 (a - b)%float.
Proof.
  intros Heven.
  destruct (SF64sub_swap (Prim2SF a) (Prim2SF b)) as [H | H].
  - rewrite <- !sub_spec, <- opp_spec in H. apply Prim2SF_inj in H.
    by rewrite H, Heven.
  - rewrite <- !sub_spec in H. apply Prim2SF_inj in H. by rewrite H.
Qed.

Lemma SF64add_comm (x y : spec_float) : SF64add x y = SF64add y x.
Proof.
  unfold SF64add, SFadd.
  destruct x as [sx|sx| |sx mx ex], y as [sy|sy| |sy my ey];
    try done; try (by destruct sx, sy).
  by rewrite (Z.min_comm ey ex), Z.add_comm.
Qed.

Lemma b64_add_comm (a b : float) : (a + b)%float = (b + a)%float.
Proof. apply Prim2SF_inj. rewrite !add_spec. apply SF64add_comm. Qed.

Lemma b64_pow2_example_even (x : float) :
  Binary64.pow2_example (- x) = Binary64.pow2_example x.
Proof.
  unfold Binary64.pow2_example. apply Prim2SF_inj.
  rewrite !mul_spec, opp_spec. unfold SF64mul, SFmul.
  destruct (Prim2SF x) as [s|s| |s m e]; try done; cbn [SFopp];
    by destruct s.
Qed.

(** ** What the three checks append *)

Lemma b64_truediv_1000 {B : Type} (a : float) (f : float → Result B) :
  Binary64.truediv a 1000 ≫= f = f (a / 1000)%float.
Proof. reflexivity. Qed.

Lemma b64_truediv_2 {B : Type} (a : float) (f : float → Result B) :
  Binary64.truediv a 2 ≫= f = f (a / 2)%float.
Proof. reflexivity. Qed.

Ltac b64_divide :=
  repeat first [rewrite b64_truediv_1000 | rewrite b64_truediv_2]; cbv beta.

Lemma for_each_filter_bool {A B : Type} (p : A → bool) (f : A → B)
    (body : A → list B → Result (list B)) :
  (∀ x v, body x v = Ok (if p x then v ++ [f x] else v)) →
  ∀ xs v, for_each body xs v = Ok (v ++ fmap f (filter (λ x, p x) xs)).
Proof.
  intros Hbody xs. induction xs as [|x xs IH]; intros v; simpl.
  - by rewrite app_nil_r.
  - rewrite Hbody. simpl. rewrite IH, filter_cons.
    destruct (p x); simpl; [by rewrite <- app_assoc | done].
Qed.

Lemma b64_elem_of_tendon_pairs (ts : list Binary64.Tendon) (i j : nat)
    (t1 t2 : Binary64.Tendon) :
  ((i, t1), (j, t2)) ∈ Binary64.tendon_pairs ts
  ↔ i < j ∧ ts !! i = Some t1 ∧ ts !! j = Some t2.
Proof.
  unfold Binary64.tendon_pairs. rewrite list_elem_of_bind. split.
  - intros ([i' t1'] & Hin & Hout). simpl in Hin.
    apply list_elem_of_fmap in Hin as ([j' t2'] & Heq & Hin). simplify_eq.
    apply elem_of_enumerate in Hout as (a & -> & Ha).
    apply elem_of_enumerate in Hin as (b & -> & Hb).
    rewrite lookup_drop in Hb. simpl. by split_and!; [lia | |].
  - intros (Hlt & H1 & H2). exists (i, t1). split.
    + simpl. apply list_elem_of_fmap. exists (j, t2). split; [done|].
      apply elem_of_enumerate. exists (j - (i + 1)). split; [lia|].
      rewrite lookup_drop. by replace (i + 1 + (j - (i + 1))) with j by lia.
    + apply elem_of_enumerate. by exists i.
Qed.

Lemma b64_NoDup_tendon_pairs (ts : list Binary64.Tendon) :
  NoDup ((λ p, (p.1.1, p.2.1)) <$> Binary64.tendon_pairs ts).
Proof.
  apply NoDup_fmap_2_strong.
  - intros [[i t1] [j t2]] [[i' t1'] [j' t2']] H1 H2 Heq. simplify_eq/=.
    apply b64_elem_of_tendon_pairs in H1 as (_ & ? & ?).
    apply b64_elem_of_tendon_pairs in H2 as (_ & ? & ?). by simplify_eq.
  - unfold Binary64.tendon_pairs. apply NoDup_bind.
    + intros x1 x2 [a b] _ _ H1 H2.
      apply list_elem_of_fmap in H1 as (? & ? & _).
      apply list_elem_of_fmap in H2 as (? & ? & _). by simplify_eq.
    + intros x _. apply NoDup_fmap_2; [|apply NoDup_enumerate].
      by intros ?? [=].
    + apply NoDup_enumerate.
Qed.

Lemma b64_elem_of_grout_tendon_pairs (gs : list Binary64.Component)
    (ts : list Binary64.Tendon) g t :
  (g, t) ∈ Binary64.grout_tendon_pairs gs ts ↔ g ∈ gs ∧ t ∈ ts.
Proof.
  unfold Binary64.grout_tendon_pairs. rewrite list_elem_of_bind. split.
  - intros (g' & Hin & Hg). apply list_elem_of_fmap in Hin as (t' & ? & ?).
    by simplify_eq.
  - intros [Hg Ht]. exists g. split; [|done].
    apply list_elem_of_fmap. eauto.
Qed.

Section Binary64Checks.
Variable pow2 : float → float.
Variable format_2f : float → string.
Variables diameter thickness : float.

Lemma b64_check1_spec (ts : list Binary64.Tendon) (v : list string) :
  Binary64.check1 pow2 diameter thickness ts v
  = Ok (v ++ (Binary64.containment_msg
                <$> filter (λ t, Binary64.outside_bore pow2 diameter thickness t)
                      ts)).
Proof.
  unfold Binary64.check1. apply for_each_filter_bool. intros t v'.
  b64_divide.
  unfold Binary64.outside_bore, Binary64.bore, Binary64.radialOffset.
  by destruct (_ <? _)%float.
Qed.

Lemma b64_check2_spec (ts : list Binary64.Tendon) (v : list string) :
  Binary64.check2 pow2 format_2f ts v
  = Ok (v ++ (Binary64.clearance_finding pow2 format_2f
                <$> filter (λ p, Binary64.too_close pow2 p.1.2 p.2.2)
                      (Binary64.tendon_pairs ts))).
Proof.
  unfold Binary64.check2.
  rewrite (for_each_append
    (λ it1, Binary64.clearance_finding pow2 format_2f
       <$> filter (λ p, Binary64.too_close pow2 p.1.2 p.2.2)
             ((λ jt2, (it1, jt2))
                <$> enumerate (drop (it1.1 + 1) ts) (it1.1 + 1)))).
  - f_equal. f_equal. unfold Binary64.tendon_pairs.
    generalize (enumerate ts 0). intros l.
    induction l as [|x l IH]; [done|].
    rewrite !bind_cons, filter_app, fmap_app. by rewrite IH.
  - intros [i t1] v'. cbn [fst snd].
    rewrite filter_fmap, <- list_fmap_compose.
    apply (for_each_filter_bool (λ jt2, Binary64.too_close pow2 t1 jt2.2)).
    intros [j t2] w. b64_divide. cbn [fst snd].
    unfold Binary64.too_close, Binary64.clearance_finding,
      Binary64.required_clearance, Binary64.distance. cbn [fst snd].
    by destruct (_ <? _)%float.
Qed.

Lemma b64_check3_spec (gs : list Binary64.Component)
    (ts : list Binary64.Tendon) (w : list string) :
  Binary64.check3 pow2 gs ts w
  = Ok (w ++ ((λ p, Binary64.proximity_msg p.1 p.2)
                <$> filter (λ p, Binary64.near pow2 p.1 p.2)
                      (Binary64.grout_tendon_pairs gs ts))).
Proof.
  unfold Binary64.check3.
  rewrite (for_each_append
    (λ g, (λ p, Binary64.proximity_msg p.1 p.2)
            <$> filter (λ p, Binary64.near pow2 p.1 p.2)
                  ((λ t, (g, t)) <$> ts))).
  - f_equal. f_equal. unfold Binary64.grout_tendon_pairs.
    induction gs as [|g gs IH]; [done|].
    rewrite !bind_cons, filter_app, fmap_app. by rewrite IH.
  - intros g v'. rewrite filter_fmap, <- list_fmap_compose.
    apply (for_each_filter_bool (λ t, Binary64.near pow2 g t)).
    intros t w'. b64_divide. cbn [fst snd].
    unfold Binary64.near, Binary64.distance.
    by destruct (_ <? _)%float.
Qed.

(** [validate] always returns, and its two lists are these. *)
Lemma b64_validate_spec (layout : Binary64.Layout) :
  Binary64.validate pow2 format_2f diameter thickness layout
  = Ok (mkValidation
          ((Binary64.containment_msg
              <$> filter (λ t, Binary64.outside_bore pow2 diameter thickness t)
                    (Binary64.tendons layout))
           ++ (Binary64.clearance_finding pow2 format_2f
                 <$> filter (λ p, Binary64.too_close pow2 p.1.2 p.2.2)
                       (Binary64.tendon_pairs (Binary64.tendons layout))))
          ((λ p, Binary64.proximity_msg p.1 p.2)
             <$> filter (λ p, Binary64.near pow2 p.1 p.2)
                   (Binary64.grout_tendon_pairs
                      (Binary64.grout_connections layout)
                      (Binary64.tendons layout)))).
Proof.
  unfold Binary64.validate. rewrite b64_check1_spec, Result_bind_ok.
  rewrite b64_check2_spec, Result_bind_ok. rewrite b64_check3_spec. done.
Qed.
End Binary64Checks.

Lemma b64_containment_msg_id (t t' : Binary64.Tendon) :
  Binary64.containment_msg t = Binary64.containment_msg t'
  ↔ Binary64.t_id t = Binary64.t_id t'.
Proof.
  unfold Binary64.containment_msg. split; [|by intros ->].
  intros H. apply (inj (String.app _)) in H.
  apply string_app_inj_r in H. by apply (inj pretty) in H.
Qed.

Lemma b64_too_close_sym (pow2 : float → float) (t1 t2 : Binary64.Tendon) :
  (∀ x, pow2 (- x)%float = pow2 x) →
  Binary64.too_close pow2 t1 t2 = Binary64.too_close pow2 t2 t1.
Proof.
  intros Heven.
  unfold Binary64.too_close, Binary64.distance, Binary64.required_clearance.
  rewrite (b64_sub_swap pow2 (Binary64.t_x t1) (Binary64.t_x t2) Heven).
  rewrite (b64_sub_swap pow2 (Binary64.t_y t1) (Binary64.t_y t2) Heven).
  by rewrite (b64_add_comm (Binary64.t_diameter t2)).
Qed.

(** Evaluates [value] on closed doubles. *)
Ltac exact_values :=
  unfold Binary64.value;
  repeat match goal with
  | |- context [Prim2SF ?f] =>
      let v := eval vm_compute in (Prim2SF f) in change (Prim2SF f) with v
  end;
  cbv beta iota; cbn [cond_Zopp Z.leb Z.compare Z.opp];
  repeat match goal with
  | |- context [(2 ^ ?e)%Z] =>
      let z := eval vm_compute in (2 ^ e)%Z in change (2 ^ e)%Z with z
  end.

(** ** Containment (check 1) *)

(** C1 (amended). For every layout [validate] returns, and the first
    block of its violations holds one message per tendon for which
    [d + r > outerRadius - wallThickness] holds of the doubles the code
    computes ([d = sqrt(x**2 + y**2)], [r = diameter/1000/2], the bore
    [foundation_diameter/2 - wall_thickness], every operation rounded), in
    list order and naming the tendon's id; the block is followed only by
    the findings of the clearance rule.  The comparison of the computed
    doubles is strict: a tendon whose computed [d + r] equals the computed
    bore is not reported, one whose computed [d + r] is larger is. *)
Theorem containment_rule (pow2 : float → float) (format_2f : float → string)
    (diameter thickness : float) (layout : Binary64.Layout) :
  let outside := Binary64.outside_bore pow2 diameter thickness in
  let reach := λ t,
    (PrimFloat.sqrt (pow2 (Binary64.t_x t) + pow2 (Binary64.t_y t))
     + Binary64.t_diameter t / 1000 / 2)%float in
  (∀ t, outside t = (diameter / 2 - thickness <? reach t)%float)
  ∧ (∃ vr,
       Binary64.validate pow2 format_2f diameter thickness layout = Ok vr
       ∧ violations vr
         = (Binary64.containment_msg
              <$> filter (λ t, outside t) (Binary64.tendons layout))
           ++ (Binary64.clearance_finding pow2 format_2f
                 <$> filter (λ p, Binary64.too_close pow2 p.1.2 p.2.2)
                       (Binary64.tendon_pairs (Binary64.tendons layout)))
       ∧ ∀ t, t ∈ Binary64.tendons layout → outside t →
              Binary64.containment_msg t ∈ violations vr)
  ∧ (∀ t, Binary64.containment_msg t
          ∈ Binary64.containment_msg
              <$> filter (λ t, outside t) (Binary64.tendons layout)
          ↔ ∃ t', t' ∈ Binary64.tendons layout
                  ∧ Binary64.t_id t' = Binary64.t_id t ∧ outside t')
  ∧ (∀ t, Binary64.containment_msg t
          = "Tendon T" +:+ pretty (Binary64.t_id t) +:+ " too close to wall")
  ∧ (∀ t t', Binary64.containment_msg t = Binary64.containment_msg t'
             ↔ Binary64.t_id t = Binary64.t_id t')
  ∧ (∀ t, reach t = (diameter / 2 - thickness)%float → outside t = false)
  ∧ (∀ t, Binary64.check1 pow2 diameter thickness [t] []
          = Ok (if outside t then [Binary64.containment_msg t] else [])).
Proof.
  intros outside reach. split_and!.
  - done.
  - eexists. split; [apply b64_validate_spec|]. split; [done|].
    intros t Ht Hout. simpl. apply elem_of_app. left.
    apply list_elem_of_fmap. exists t. split; [done|].
    by apply list_elem_of_filter.
  - intros t. rewrite list_elem_of_fmap. split.
    + intros (t' & Hmsg & Hin). apply list_elem_of_filter in Hin as [Hout Hin].
      exists t'. split_and!; [done | | done].
      symmetry. by apply b64_containment_msg_id.
    + intros (t' & Hin & Hid & Hout). exists t'. split.
      * by apply b64_containment_msg_id.
      * by apply list_elem_of_filter.
  - done.
  - apply b64_containment_msg_id.
  - intros t Heq. unfold reach in Heq.
    unfold outside, Binary64.outside_bore, Binary64.bore,
      Binary64.radialOffset.
    rewrite Heq. apply b64_ltb_irrefl.
  - intros t. rewrite b64_check1_spec. cbn [app]. rewrite filter_cons.
    fold (outside t). by destruct (outside t).
Qed.

(** The example of the spec: in a 10 m foundation with 0.8 m walls a
    150 mm tendon at 4.125 m passes, one millimetre farther out it is
    reported. *)
Lemma containment_rule_witness :
  Binary64.check1 Binary64.pow2_example 10 0.8
    [Binary64.mkTendon 0 4.125 0 150 "vertical"] [] = Ok []
  ∧ Binary64.check1 Binary64.pow2_example 10 0.8
      [Binary64.mkTendon 0 4.126 0 150 "vertical"] []
    = Ok ["Tendon T0 too close to wall"].
Proof.
  destruct (containment_rule Binary64.pow2_example
              Binary64.format_2f_example 10 0.8
              (Binary64.mkLayout "Layout 1" [] [] []))
    as (_ & _ & _ & _ & _ & _ & Hone).
  split.
  - by rewrite (Hone (Binary64.mkTendon 0 4.125 0 150 "vertical")).
  - by rewrite (Hone (Binary64.mkTendon 0 4.126 0 150 "vertical")).
Defined.

(** The rule of the claim, with exact numbers, is not what the page
    decides at the boundary.  Read on the decimal numbers of the sliders:
    in a 10 m foundation with 1.2 m walls a 200 mm tendon added at x = 3.7
    sits exactly at [outerRadius - wallThickness - r], and it is reported
    (the code computes 3.8000000000000003 > 3.8).  Read on the exact
    values of the doubles: in a 5 m foundation with 0.3 m walls a 200 mm
    tendon at x = 2.1 is strictly farther out than the boundary, and it is
    not reported (both sides round to the same double). *)
Lemma containment_at_the_boundary :
  (3.7 = 10 / 2 - 1.2 - 200 / 2000)%R
  ∧ Binary64.validate Binary64.pow2_example Binary64.format_2f_example 10 1.2
      (Binary64.mkLayout "Layout 1"
         [Binary64.mkTendon 0 3.7 0 200 "vertical"] [] [])
    = Ok (mkValidation ["Tendon T0 too close to wall"] [])
  ∧ outside_bore (Binary64.value 5) (Binary64.value 0.3)
      (mkTendon 0 (Binary64.value 2.1) (Binary64.value 0)
                (Binary64.value 200) "vertical")
  ∧ Binary64.validate Binary64.pow2_example Binary64.format_2f_example 5 0.3
      (Binary64.mkLayout "Layout 1"
         [Binary64.mkTendon 0 2.1 0 200 "vertical"] [] [])
    = Ok (mkValidation [] []).
Proof.
  split_and!.
  - lra.
  - by vm_compute.
  - unfold outside_bore. cbn [t_x t_y t_diameter].
    assert (Binary64.value 0 = 0%R) as -> by (by exact_values).
    rewrite radialOffset_on_axis; exact_values; lra.
  - by vm_compute.
Qed.

(** ** Clearance (check 2) *)

Lemma b64_too_close_300 (pow2 : float → float) (t1 t2 : Binary64.Tendon) :
  Binary64.t_diameter t1 = 300%float → Binary64.t_diameter t2 = 300%float →
  Binary64.distance pow2 (Binary64.t_x t1) (Binary64.t_y t1)
    (Binary64.t_x t2) (Binary64.t_y t2) = 0.3%float →
  Binary64.too_close pow2 t1 t2 = true
  ∧ Binary64.required_clearance t1 t2 = 0.6%float.
Proof.
  intros H1 H2 Hd. unfold Binary64.too_close, Binary64.required_clearance.
  by rewrite Hd, H1, H2.
Qed.

(** C2 (amended). The clearance rule visits every pair of positions
    [i < j] of the tendon list exactly once, never a pair in both orders,
    and reports the pair exactly when the distance between the two
    centres is strictly below [(diameter_i + diameter_j)/2 + 0.3] m
    (diameters converted from mm) on the doubles the code computes, every
    operation rounded; the computed condition is the same for a pair in
    either order.  The findings follow the containment findings in the
    violations, one message per violating pair, in the order visited; a
    message names the two list positions of the pair, which are the two
    tendon ids in every layout whose ids are the list positions (as in
    every layout the page can hold), with the computed distance and
    required minimum.  Two tendons of 300 mm centred 0.3 m apart are too
    close (required minimum 0.6 m), and in the default foundation they
    are reported for clearance only, not for containment. *)
Theorem clearance_rule (pow2 : float → float) (format_2f : float → string)
    (diameter thickness : float) (layout : Binary64.Layout) :
  let tendons := Binary64.tendons layout in
  (∀ t1 t2,
     Binary64.too_close pow2 t1 t2
     = (PrimFloat.sqrt (pow2 (Binary64.t_x t1 - Binary64.t_x t2)
                        + pow2 (Binary64.t_y t1 - Binary64.t_y t2))
        <? (Binary64.t_diameter t1 + Binary64.t_diameter t2) / 1000 / 2
           + 0.3)%float)
  ∧ ((∀ x, pow2 (- x)%float = pow2 x) →
     ∀ t1 t2, Binary64.too_close pow2 t1 t2 = Binary64.too_close pow2 t2 t1)
  ∧ (∀ i j t1 t2,
       ((i, t1), (j, t2)) ∈ Binary64.tendon_pairs tendons
       ↔ i < j ∧ tendons !! i = Some t1 ∧ tendons !! j = Some t2)
  ∧ NoDup ((λ p, (p.1.1, p.2.1)) <$> Binary64.tendon_pairs tendons)
  ∧ (∃ vr,
       Binary64.validate pow2 format_2f diameter thickness layout = Ok vr
       ∧ violations vr
         = (Binary64.containment_msg
              <$> filter (λ t, Binary64.outside_bore pow2 diameter thickness t)
                    tendons)
           ++ (Binary64.clearance_finding pow2 format_2f
                 <$> filter (λ p, Binary64.too_close pow2 p.1.2 p.2.2)
                       (Binary64.tendon_pairs tendons)))
  ∧ (∀ p,
       Binary64.clearance_finding pow2 format_2f p
       = "Tendons T" +:+ pretty p.1.1 +:+ " and T" +:+ pretty p.2.1
           +:+ " too close ("
           +:+ format_2f
                 (Binary64.distance pow2 (Binary64.t_x p.1.2)
                    (Binary64.t_y p.1.2) (Binary64.t_x p.2.2)
                    (Binary64.t_y p.2.2))
           +:+ "m < "
           +:+ format_2f
                 ((Binary64.t_diameter p.1.2 + Binary64.t_diameter p.2.2)
                  / 1000 / 2 + 0.3)%float
           +:+ "m)")
  ∧ (ids_sequential (Binary64.t_id <$> tendons) →
     ∀ p, p ∈ Binary64.tendon_pairs tendons →
          p.1.1 = Binary64.t_id p.1.2 ∧ p.2.1 = Binary64.t_id p.2.2)
  ∧ (∀ t1 t2,
       Binary64.t_diameter t1 = 300%float →
       Binary64.t_diameter t2 = 300%float →
       Binary64.distance pow2 (Binary64.t_x t1) (Binary64.t_y t1)
         (Binary64.t_x t2) (Binary64.t_y t2) = 0.3%float →
       Binary64.too_close pow2 t1 t2 = true
       ∧ Binary64.required_clearance t1 t2 = 0.6%float)
  ∧ Binary64.validate Binary64.pow2_example Binary64.format_2f_example 10 0.8
      (Binary64.mkLayout "Layout 1"
         [Binary64.mkTendon 0 0 0 300 "vertical";
          Binary64.mkTendon 1 0.3 0 300 "vertical"] [] [])
    = Ok (mkValidation ["Tendons T0 and T1 too close (0.30m < 0.60m)"] []).
Proof.
  intros tendons. split_and!.
  - done.
  - intros Heven t1 t2. by apply b64_too_close_sym.
  - apply b64_elem_of_tendon_pairs.
  - apply b64_NoDup_tendon_pairs.
  - eexists. split; [apply b64_validate_spec|done].
  - done.
  - intros Hids [[i t1] [j t2]] Hin.
    apply b64_elem_of_tendon_pairs in Hin as (_ & H1 & H2). simpl. split.
    + symmetry. apply (ids_sequential_lookup _ _ _ Hids).
      by rewrite list_lookup_fmap, H1.
    + symmetry. apply (ids_sequential_lookup _ _ _ Hids).
      by rewrite list_lookup_fmap, H2.
  - apply b64_too_close_300.
  - by vm_compute.
Qed.

(** Three tendons added by hand, 300 mm each, at x = 0, 0.3 and 3: the
    first pair is reported, under the two ids, and the condition is the
    same in either order. *)
Lemma clearance_rule_witness :
  let t0 := Binary64.mkTendon 0 0 0 300 "vertical" in
  let t1 := Binary64.mkTendon 1 0.3 0 300 "vertical" in
  let t2 := Binary64.mkTendon 2 3 0 300 "vertical" in
  ((0, t0), (1, t1)) ∈ Binary64.tendon_pairs [t0; t1; t2]
  ∧ 0 = Binary64.t_id t0 ∧ 1 = Binary64.t_id t1
  ∧ Binary64.too_close Binary64.pow2_example t0 t1 = true
  ∧ Binary64.too_close Binary64.pow2_example t1 t0 = true.
Proof.
  intros t0 t1 t2.
  destruct (clearance_rule Binary64.pow2_example Binary64.format_2f_example
              10 0.8 (Binary64.mkLayout "Layout 1" [t0; t1; t2] [] []))
    as (_ & Hsym & Hpairs & _ & _ & _ & Hids & _).
  assert (((0, t0), (1, t1)) ∈ Binary64.tendon_pairs [t0; t1; t2]) as Hin.
  { apply Hpairs. by split_and!; [lia | |]. }
  split; [exact Hin|].
  destruct (Hids eq_refl _ Hin) as [Hid0 Hid1].
  split; [exact Hid0|]. split; [exact Hid1|].
  assert (Binary64.too_close Binary64.pow2_example t0 t1 = true) as Hclose
    by (by vm_compute).
  split; [exact Hclose|].
  by rewrite <- (Hsym b64_pow2_example_even t0 t1).
Defined.

(** The rule of the claim, with exact numbers, is not what the page
    decides at the boundary.  Read on the decimal numbers of the sliders:
    two 100 mm tendons added at x = 0.8 and x = 1.2 are 0.4 m apart, which
    is the required minimum and not below it, and the pair is reported
    (the code computes a distance of 0.3999999999999999).  Read on the
    exact values of the doubles: two 300 mm tendons at x = 0 and x = 0.6
    are closer than 0.6 m, and the pair is not reported (distance and
    minimum are the same double). *)
Lemma clearance_at_the_boundary :
  (1.2 - 0.8 = (100 + 100) / 1000 / 2 + 0.3)%R
  ∧ Binary64.validate Binary64.pow2_example Binary64.format_2f_example 10 0.8
      (Binary64.mkLayout "Layout 1"
         [Binary64.mkTendon 0 0.8 0 100 "vertical";
          Binary64.mkTendon 1 1.2 0 100 "vertical"] [] [])
    = Ok (mkValidation ["Tendons T0 and T1 too close (0.40m < 0.40m)"] [])
  ∧ too_close
      (mkTendon 0 (Binary64.value 0) (Binary64.value 0)
                (Binary64.value 300) "vertical")
      (mkTendon 1 (Binary64.value 0.6) (Binary64.value 0)
                (Binary64.value 300) "vertical")
  ∧ Binary64.validate Binary64.pow2_example Binary64.format_2f_example 10 0.8
      (Binary64.mkLayout "Layout 1"
         [Binary64.mkTendon 0 0 0 300 "vertical";
          Binary64.mkTendon 1 0.6 0 300 "vertical"] [] [])
    = Ok (mkValidation [] []).
Proof.
  split_and!.
  - lra.
  - by vm_compute.
  - unfold too_close. cbn [t_x t_y t_diameter].
    assert (Binary64.value 0 = 0%R) as -> by (by exact_values).
    rewrite distance_on_axis; exact_values; lra.
  - by vm_compute.
Qed.

(** ** Violations and warnings *)

(** C3 (amended). [validate] returns for every layout; its violations
    are non-empty iff some tendon fails containment or some pair of
    tendons at positions [i < j] fails clearance; its warnings are
    non-empty iff for some (grout, tendon) pair the distance of the
    centres is strictly below [groutRadius + tendonRadius + 0.2] m
    (diameters converted from mm), each condition as the code computes it
    on doubles, every operation rounded.  The violations do not depend on
    the grout connections, so a proximity finding is never a violation,
    and each of the four combinations of empty and non-empty lists
    occurs. *)
Theorem violations_and_warnings (pow2 : float → float)
    (format_2f : float → string) :
  (∀ g t,
     Binary64.near pow2 g t
     = (PrimFloat.sqrt (pow2 (Binary64.c_x g - Binary64.t_x t)
                        + pow2 (Binary64.c_y g - Binary64.t_y t))
        <? Binary64.c_diameter g / 1000 / 2 + Binary64.t_diameter t / 1000 / 2
           + 0.2)%float)
  ∧ (∀ diameter thickness layout, ∃ vr,
       Binary64.validate pow2 format_2f diameter thickness layout = Ok vr
       ∧ (violations vr ≠ []
          ↔ (∃ t, t ∈ Binary64.tendons layout
                  ∧ Binary64.outside_bore pow2 diameter thickness t)
            ∨ (∃ i j t1 t2, i < j ∧ Binary64.tendons layout !! i = Some t1
                 ∧ Binary64.tendons layout !! j = Some t2
                 ∧ Binary64.too_close pow2 t1 t2))
       ∧ (warnings vr ≠ []
          ↔ ∃ g t, g ∈ Binary64.grout_connections layout
                   ∧ t ∈ Binary64.tendons layout ∧ Binary64.near pow2 g t)
       ∧ (∀ gs, ∃ vr',
            Binary64.validate pow2 format_2f diameter thickness
              (Binary64.mkLayout (Binary64.name layout)
                 (Binary64.tendons layout) gs (Binary64.access_shafts layout))
            = Ok vr'
            ∧ violations vr' = violations vr))
  ∧ (let t := Binary64.mkTendon 0 0 0 150 "vertical" in
     let far := Binary64.mkTendon 0 5 0 150 "vertical" in
     let g := Binary64.mkComponent 0 0.1 0 400 in
     let g' := Binary64.mkComponent 0 5.1 0 400 in
     let page := Binary64.validate Binary64.pow2_example
                   Binary64.format_2f_example 10 0.8 in
     page (Binary64.mkLayout "Layout 1" [t] [] []) = Ok (mkValidation [] [])
     ∧ page (Binary64.mkLayout "Layout 1" [far] [] [])
       = Ok (mkValidation ["Tendon T0 too close to wall"] [])
     ∧ page (Binary64.mkLayout "Layout 1" [t] [g] [])
       = Ok (mkValidation [] ["Grout G0 near Tendon T0"])
     ∧ page (Binary64.mkLayout "Layout 1" [far] [g'] [])
       = Ok (mkValidation ["Tendon T0 too close to wall"]
                          ["Grout G0 near Tendon T0"])).
Proof.
  split_and!.
  - done.
  - intros diameter thickness layout.
    eexists. split; [apply b64_validate_spec|]. cbn [violations warnings].
    split_and!.
    + rewrite app_nonempty, !fmap_filter_nonempty. apply or_iff_compat_l.
      split.
      * intros ([[i t1] [j t2]] & Hin & Hclose).
        apply b64_elem_of_tendon_pairs in Hin as (? & ? & ?).
        by exists i, j, t1, t2.
      * intros (i & j & t1 & t2 & Hlt & H1 & H2 & Hclose).
        exists ((i, t1), (j, t2)). split; [|done].
        by apply b64_elem_of_tendon_pairs.
    + rewrite fmap_filter_nonempty. split.
      * intros ([g t] & Hin & Hnear).
        apply b64_elem_of_grout_tendon_pairs in Hin as [? ?]. by exists g, t.
      * intros (g & t & Hg & Ht & Hnear). exists (g, t).
        split; [|done]. by apply b64_elem_of_grout_tendon_pairs.
    + intros gs. eexists. split; [apply b64_validate_spec|done].
  - by vm_compute.
Qed.

(** The rule of the claim, with exact numbers, is not what the page
    decides at the boundary.  Read on the decimal numbers of the sliders:
    a 600 mm grout connection at x = 0.6 and a 200 mm tendon at the centre
    are 0.6 m apart, which is [groutRadius + tendonRadius + 0.2] and not
    below it, and the page warns (the code computes a minimum of
    0.6000000000000001).  Read on the exact values of the doubles: a
    200 mm grout connection at x = 0.5 and a 200 mm tendon at x = 0.1 are
    closer than 0.4 m, and the page does not warn (distance and minimum
    are the same double). *)
Lemma proximity_at_the_boundary :
  (0.6 - 0 = 600 / 1000 / 2 + 200 / 1000 / 2 + 0.2)%R
  ∧ Binary64.validate Binary64.pow2_example Binary64.format_2f_example 10 0.8
      (Binary64.mkLayout "Layout 1"
         [Binary64.mkTendon 0 0 0 200 "vertical"]
         [Binary64.mkComponent 0 0.6 0 600] [])
    = Ok (mkValidation [] ["Grout G0 near Tendon T0"])
  ∧ near
      (mkComponent 0 (Binary64.value 0.5) (Binary64.value 0)
                   (Binary64.value 200))
      (mkTendon 0 (Binary64.value 0.1) (Binary64.value 0)
                (Binary64.value 200) "vertical")
  ∧ Binary64.validate Binary64.pow2_example Binary64.format_2f_example 10 0.8
      (Binary64.mkLayout "Layout 1"
         [Binary64.mkTendon 0 0.1 0 200 "vertical"]
         [Binary64.mkComponent 0 0.5 0 200] [])
    = Ok (mkValidation [] []).
Proof.
  split_and!.
  - lra.
  - by vm_compute.
  - unfold near. cbn [c_x c_y c_diameter t_x t_y t_diameter].
    rewrite distance_sym, distance_on_axis; exact_values; lra.
  - by vm_compute.
Qed.

(** * The pattern handler in rounded arithmetic: properties *)

Lemma Rabs_le_iff (x b : R) : (Rabs x <= b)%R ↔ (- b <= x <= b)%R.
Proof.
  split; [|apply Rabs_le].
  unfold Rabs. destruct (Rcase_abs x); lra.
Qed.

Lemma sin_abs_le (h : R) : (Rabs (sin h) <= Rabs h)%R.
Proof.
  assert (∀ x, 0 < x → - x <= sin x <= x)%R as Hpos.
  { intros x Hx. split; [|left; by apply sin_lt_x].
    pose proof PI2_3_2. pose proof (SIN_bound x).
    destruct (Rle_dec x PI) as [Hle | Hgt]; [|lra].
    pose proof (sin_ge_0 x ltac:(lra) Hle). lra. }
  destruct (Rtotal_order h 0) as [Hneg | [-> | Hpos']].
  - pose proof (Hpos (- h)%R ltac:(lra)) as H. rewrite sin_neg in H.
    rewrite (Rabs_left h) by done. apply Rabs_le_iff. lra.
  - rewrite sin_0, Rabs_R0. lra.
  - pose proof (Hpos h Hpos') as H.
    rewrite (Rabs_pos_eq h) by lra. apply Rabs_le_iff. lra.
Qed.

Lemma cos_lipschitz (a b : R) : (Rabs (cos a - cos b) <= Rabs (a - b))%R.
Proof.
  rewrite form2, !Rabs_mult.
  replace (Rabs (-2)) with 2%R by (rewrite Rabs_left; lra).
  pose proof (sin_abs_le ((a - b) / 2)) as H1.
  replace (Rabs ((a - b) / 2)) with (Rabs (a - b) / 2)%R in H1.
  2:{ unfold Rdiv. rewrite Rabs_mult, (Rabs_pos_eq (/ 2)); lra. }
  pose proof (SIN_bound ((a + b) / 2)) as H2. apply Rabs_le in H2.
  pose proof (Rabs_pos (sin ((a - b) / 2))).
  pose proof (Rabs_pos (sin ((a + b) / 2))). nra.
Qed.

Lemma sin_lipschitz (a b : R) : (Rabs (sin a - sin b) <= Rabs (a - b))%R.
Proof.
  rewrite form4, !Rabs_mult.
  rewrite (Rabs_pos_eq 2) by lra.
  pose proof (sin_abs_le ((a - b) / 2)) as H1.
  replace (Rabs ((a - b) / 2)) with (Rabs (a - b) / 2)%R in H1.
  2:{ unfold Rdiv. rewrite Rabs_mult, (Rabs_pos_eq (/ 2)); lra. }
  pose proof (COS_bound ((a + b) / 2)) as H2. apply Rabs_le in H2.
  pose proof (Rabs_pos (sin ((a - b) / 2))).
  pose proof (Rabs_pos (cos ((a + b) / 2))). nra.
Qed.

Lemma radialOffset_le_sum (x y : R) :
  (radialOffset x y <= Rabs x + Rabs y)%R.
Proof.
  unfold radialOffset.
  pose proof (Rabs_pos x). pose proof (Rabs_pos y).
  rewrite <- (sqrt_pow2 (Rabs x + Rabs y)) by lra.
  apply sqrt_le_1_alt.
  assert (Rabs x * Rabs x = x * x)%R as Hx
    by (rewrite <- Rabs_mult; apply Rabs_pos_eq; nra).
  assert (Rabs y * Rabs y = y * y)%R as Hy
    by (rewrite <- Rabs_mult; apply Rabs_pos_eq; nra).
  nra.
Qed.

(** The distance from the origin moves by at most the displacement. *)
Lemma radialOffset_near (x y x' y' : R) :
  (Rabs (radialOffset x y - radialOffset x' y')
   <= Rabs (x - x') + Rabs (y - y'))%R.
Proof.
  pose proof (distance_triangle x y x' y' 0 0) as H1.
  pose proof (distance_triangle x' y' x y 0 0) as H2.
  rewrite !distance_origin in H1, H2.
  rewrite (distance_sym x' y' x y) in H2.
  assert (distance x y x' y' <= Rabs (x - x') + Rabs (y - y'))%R as H3.
  { unfold distance. apply (radialOffset_le_sum (x - x') (y - y')). }
  apply Rabs_le_iff. lra.
Qed.

Section RoundedPattern.
Variable rnd : R → R.
Variables cos_lib sin_lib : R → R.
Variables pi_lib eps : R.
Hypothesis eps_small : (0 <= eps <= / 1000)%R.
Hypothesis rnd_error :
  ∀ v, (Rabs v <= 64)%R → (Rabs (rnd v - v) <= eps)%R.
Hypothesis cos_error :
  ∀ a, (-1 <= a <= 8)%R → (Rabs (cos_lib a - cos a) <= eps)%R.
Hypothesis sin_error :
  ∀ a, (-1 <= a <= 8)%R → (Rabs (sin_lib a - sin a) <= eps)%R.
Hypothesis pi_error : (Rabs (pi_lib - PI) <= eps)%R.

Lemma rnd_near (v : R) :
  (-64 <= v <= 64)%R → (v - eps <= rnd v <= v + eps)%R.
Proof using rnd_error.
  intros Hv. pose proof (rnd_error v) as H.
  rewrite !Rabs_le_iff in H. specialize (H ltac:(lra)). lra.
Qed.

Lemma count_bounds (n k : nat) :
  4 ≤ n ≤ 24 → k < n →
  (4 <= INR n <= 24)%R ∧ (0 <= INR k <= INR n - 1)%R
  ∧ (/ 24 <= / INR n <= / 4)%R ∧ (INR n * / INR n = 1)%R.
Proof.
  intros [Hlo Hhi] Hk.
  assert (4 <= INR n)%R as H4.
  { pose proof (le_INR 4 n Hlo) as H. simpl in H. lra. }
  assert (INR n <= 24)%R as H24.
  { pose proof (le_INR n 24 Hhi) as H. simpl in H. lra. }
  assert (0 <= INR k)%R by apply pos_INR.
  assert (INR k <= INR n - 1)%R.
  { replace (INR n - 1)%R with (INR (n - 1)).
    - apply le_INR. lia.
    - rewrite minus_INR by lia. done. }
  assert (/ 24 <= / INR n)%R by (apply Rinv_le_contravar; lra).
  assert (/ INR n <= / 4)%R by (apply Rinv_le_contravar; lra).
  split_and!; try lra. apply Rinv_r. lra.
Qed.

Lemma step_near (n : nat) :
  4 ≤ n ≤ 24 →
  (2 * PI * / INR n - 2 * eps <= Rounded.step rnd pi_lib n
   <= 2 * PI * / INR n + 2 * eps)%R.
Proof using eps_small rnd_error pi_error.
  intros Hn. destruct (count_bounds n 0 Hn ltac:(lia)) as (HN & _ & Hi & _).
  pose proof PI_4. pose proof PI2_3_2.
  apply Rabs_le_iff in pi_error.
  unfold Rounded.step.
  pose proof (rnd_near (2 * pi_lib) ltac:(lra)) as H1.
  pose proof (rnd_near (rnd (2 * pi_lib) - 0) ltac:(lra)) as H2.
  set (delta := rnd (rnd (2 * pi_lib) - 0)) in *.
  assert (- eps <= delta / INR n - 2 * PI * / INR n <= eps)%R as H3.
  { unfold Rdiv. replace (delta * / INR n - 2 * PI * / INR n)%R
      with ((delta - 2 * PI) * / INR n)%R by ring.
    split; nra. }
  pose proof (rnd_near (delta / INR n)) as H4.
  assert (-64 <= delta / INR n <= 64)%R as Hr.
  { assert (0 <= 2 * PI * / INR n <= 2)%R by (split; nra). lra. }
  specialize (H4 Hr). lra.
Qed.

Lemma angle_near (n k : nat) :
  4 ≤ n ≤ 24 → k < n →
  let theta := (2 * PI * INR k / INR n)%R in
  (theta - 48 * eps <= Rounded.angle rnd pi_lib n k <= theta + 48 * eps)%R
  ∧ (0 <= theta <= 23 / 3)%R.
Proof using eps_small rnd_error pi_error.
  intros Hn Hk theta.
  destruct (count_bounds n k Hn Hk) as (HN & HK & Hi & Hinv).
  pose proof PI_4. pose proof PI2_3_2.
  pose proof (step_near n Hn) as Hs.
  set (st := Rounded.step rnd pi_lib n) in *.
  set (K := INR k) in *. set (iN := (/ INR n)%R) in *.
  assert (0 <= K * iN <= 23 / 24)%R as Ht.
  { assert (K * iN <= (INR n - 1) * iN)%R by nra.
    replace ((INR n - 1) * iN)%R with (1 - iN)%R in * by lra.
    split; [nra | lra]. }
  assert (theta = 2 * PI * (K * iN))%R as Htheta
    by (unfold theta, Rdiv, K, iN; ring).
  assert (0 <= theta <= 23 / 3)%R as Hrange by (rewrite Htheta; split; nra).
  split; [|done].
  assert (- (46 * eps) <= K * st - theta <= 46 * eps)%R as H1.
  { replace (K * st - theta)%R with (K * (st - 2 * PI * iN))%R
      by (rewrite Htheta; ring).
    assert (K <= 23)%R by lra. split; nra. }
  unfold Rounded.angle. fold st K.
  pose proof (rnd_near (K * st) ltac:(lra)) as H2.
  pose proof (rnd_near (rnd (K * st) + 0) ltac:(lra)) as H3.
  lra.
Qed.

Lemma coordinate_near (lib f : R → R) (radius theta a : R) :
  (∀ a, (-1 <= a <= 8)%R → (Rabs (lib a - f a) <= eps)%R) →
  (∀ a b, (Rabs (f a - f b) <= Rabs (a - b))%R) →
  (∀ a, (-1 <= f a <= 1)%R) →
  (0 <= radius <= 6.5)%R → (0 <= theta <= 23 / 3)%R →
  (theta - 48 * eps <= a <= theta + 48 * eps)%R →
  (Rabs (rnd (radius * lib a) - radius * f theta) <= 320 * eps)%R.
Proof using eps_small rnd_error.
  intros Hlib Hlip Hbound Hr Ht Ha.
  pose proof (Hlib a ltac:(lra)) as H1. apply Rabs_le_iff in H1.
  pose proof (Hlip a theta) as H2.
  assert (Rabs (a - theta) <= 48 * eps)%R as H3 by (apply Rabs_le_iff; lra).
  apply Rabs_le_iff in H2. pose proof (Hbound theta) as H4.
  assert (- (49 * eps) <= lib a - f theta <= 49 * eps)%R as H5 by lra.
  assert (- (319 * eps) <= radius * lib a - radius * f theta <= 319 * eps)%R
    as H6.
  { replace (radius * lib a - radius * f theta)%R
      with (radius * (lib a - f theta))%R by ring.
    split; nra. }
  assert (-64 <= radius * lib a <= 64)%R as Hrange.
  { assert (-7 <= radius * f theta <= 7)%R by (split; nra). lra. }
  pose proof (rnd_near _ Hrange) as H7.
  apply Rabs_le_iff. lra.
Qed.

Lemma linspace_angles (n : nat) :
  4 ≤ n ≤ 24 →
  Rounded.linspace rnd 0 (rnd (2 * pi_lib)) n
  = Rounded.angle rnd pi_lib n <$> seq 0 n.
Proof using eps_small rnd_error pi_error.
  intros Hn. unfold Rounded.linspace.
  rewrite decide_True by lia. fold (Rounded.step rnd pi_lib n).
  rewrite decide_False.
  - rewrite <- !list_fmap_compose. done.
  - pose proof (step_near n Hn) as Hs.
    destruct (count_bounds n 0 Hn ltac:(lia)) as (_ & _ & Hi & _).
    pose proof PI2_3_2. intros Hz. rewrite Hz in Hs. nra.
Qed.

Lemma pattern_dicts_angles (n : nat) (radius d : R) :
  4 ≤ n ≤ 24 →
  Rounded.pattern_dicts rnd cos_lib sin_lib pi_lib n radius d
  = (λ k, let a := Rounded.angle rnd pi_lib n k in
          mkTendon k (rnd (radius * cos_lib a)) (rnd (radius * sin_lib a))
                   d "vertical") <$> seq 0 n.
Proof using eps_small rnd_error pi_error.
  intros Hn. unfold Rounded.pattern_dicts.
  rewrite (linspace_angles n Hn), enumerate_fmap_seq.
  rewrite <- list_fmap_compose. done.
Qed.

Lemma generated_tendon_near (n k : nat) (radius d : R) :
  4 ≤ n ≤ 24 → k < n → (0 <= radius <= 6.5)%R →
  let a := Rounded.angle rnd pi_lib n k in
  let theta := (2 * PI * INR k / INR n)%R in
  let x := rnd (radius * cos_lib a) in
  let y := rnd (radius * sin_lib a) in
  (Rabs (a - theta) <= 48 * eps)%R
  ∧ (0 <= theta < 2 * PI)%R ∧ (a < 2 * PI)%R
  ∧ (Rabs (x - radius * cos theta) <= 320 * eps)%R
  ∧ (Rabs (y - radius * sin theta) <= 320 * eps)%R
  ∧ (Rabs (radialOffset x y - radius) <= 640 * eps)%R.
Proof using All.
  intros Hn Hk Hr a theta x y.
  destruct (angle_near n k Hn Hk) as [Ha Ht]. fold a theta in Ha, Ht.
  pose proof (coordinate_near cos_lib cos radius theta a cos_error
                cos_lipschitz COS_bound Hr Ht Ha) as Hx.
  pose proof (coordinate_near sin_lib sin radius theta a sin_error
                sin_lipschitz SIN_bound Hr Ht Ha) as Hy.
  fold x in Hx. fold y in Hy.
  assert (0 <= theta < 2 * PI)%R as Hturn.
  { destruct (count_bounds n k Hn Hk) as (HN & HK & Hi & Hinv).
    pose proof PI2_3_2. split; [lra|].
    unfold theta, Rdiv.
    replace (2 * PI * INR k * / INR n)%R
      with (2 * PI * (INR k * / INR n))%R by ring.
    assert (INR k * / INR n <= (INR n - 1) * / INR n)%R by nra.
    replace ((INR n - 1) * / INR n)%R with (1 - / INR n)%R in * by lra.
    nra. }
  assert (a < 2 * PI)%R as Hbelow.
  { destruct (count_bounds n k Hn Hk) as (HN & HK & Hi & Hinv).
    pose proof PI2_3_2.
    assert (theta <= 2 * PI - 2 * PI * / INR n)%R.
    { unfold theta, Rdiv.
      replace (2 * PI * INR k * / INR n)%R
        with (2 * PI * (INR k * / INR n))%R by ring.
      assert (INR k * / INR n <= (INR n - 1) * / INR n)%R by nra.
      replace ((INR n - 1) * / INR n)%R with (1 - / INR n)%R in * by lra.
      nra. }
    nra. }
  split; [apply Rabs_le_iff; lra|].
  split; [exact Hturn|]. split; [exact Hbelow|].
  split; [exact Hx|]. split; [exact Hy|].
  pose proof (radialOffset_near x y (radius * cos theta)
                (radius * sin theta)) as Hoff.
  rewrite radialOffset_on_circle, (Rabs_pos_eq radius) in Hoff by lra.
  lra.
Qed.
End RoundedPattern.

(** ** The handler in the session *)

Lemma rounded_generateCircularPattern_loop (rnd cos_lib sin_lib : R → R)
    (pi_lib : R) (num_tendons : nat) (radius tendon_diameter : R)
    (s : Session) :
  Rounded.generateCircularPattern rnd cos_lib sin_lib pi_lib num_tendons
    radius tendon_diameter s
  = let cur := current_layout s in
    let l := (new_list [] (tendon_store s)).1 in
    mkSession
      (fold_left (λ st t, append_new l t st)
                 (Rounded.pattern_dicts rnd cos_lib sin_lib pi_lib num_tendons
                    radius tendon_diameter)
                 (new_list [] (tendon_store s)).2)
      (component_store s) (layouts s)
      (mkLayoutDict (d_name cur) l (d_grout_connections cur)
                    (d_access_shafts cur))
      (foundation_diameter s) (wall_thickness s).
Proof.
  unfold Rounded.generateCircularPattern, Rounded.pattern_dicts. cbv zeta.
  destruct (new_list [] (tendon_store s)) as [l st]. cbn [fst snd]. f_equal.
  apply (fold_left_pairs (append_new l)
           (λ i angle, mkTendon i (rnd (radius * cos_lib angle)%R)
                                (rnd (radius * sin_lib angle)%R)
                                tendon_diameter "vertical")).
Qed.

Lemma rounded_read_generateCircularPattern (rnd cos_lib sin_lib : R → R)
    (pi_lib : R) (num_tendons : nat) (radius tendon_diameter : R)
    (s : Session) :
  let s' := Rounded.generateCircularPattern rnd cos_lib sin_lib pi_lib
              num_tendons radius tendon_diameter s in
  read_list (tendon_store s') (d_tendons (current_layout s'))
  = Some (Rounded.pattern_dicts rnd cos_lib sin_lib pi_lib num_tendons
            radius tendon_diameter).
Proof.
  rewrite rounded_generateCircularPattern_loop. session_simpl.
  apply (read_fold_append_new _ _ _ []). apply read_new_list_nil.
Qed.

Lemma rounded_current_generateCircularPattern (rnd cos_lib sin_lib : R → R)
    (pi_lib : R) (num_tendons : nat) (radius tendon_diameter : R)
    (s : Session) (layout : Layout) :
  current s = Some layout →
  current (Rounded.generateCircularPattern rnd cos_lib sin_lib pi_lib
             num_tendons radius tendon_diameter s)
  = Some (mkLayout (name layout)
            (Rounded.pattern_dicts rnd cos_lib sin_lib pi_lib num_tendons
               radius tendon_diameter)
            (grout_connections layout) (access_shafts layout)).
Proof.
  intros Hc. apply current_Some.
  pose proof (rounded_read_generateCircularPattern rnd cos_lib sin_lib pi_lib
                num_tendons radius tendon_diameter s) as Hr. cbv zeta in Hr.
  apply current_Some in Hc as (ts & gs & shafts & ? & ? & ? & ->).
  eexists _, gs, shafts. split; [exact Hr|].
  rewrite rounded_generateCircularPattern_loop. by session_simpl.
Qed.

(** ** The example arithmetic is within the assumed error *)

Lemma rnd_example_error (v : R) :
  (Rabs v <= 64)%R
  → (Rabs (Rounded.rnd_example v - v) <= Rounded.eps_example)%R.
Proof.
  unfold Rounded.rnd_example, Rounded.eps_example.
  rewrite !Rabs_le_iff. lra.
Qed.

Lemma cos_example_error (a : R) :
  (Rabs (Rounded.cos_example a - cos a) <= Rounded.eps_example)%R.
Proof.
  unfold Rounded.cos_example, Rounded.rnd_example, Rounded.eps_example.
  pose proof (COS_bound a). rewrite Rabs_le_iff. lra.
Qed.

Lemma sin_example_error (a : R) :
  (Rabs (Rounded.sin_example a - sin a) <= Rounded.eps_example)%R.
Proof.
  unfold Rounded.sin_example, Rounded.rnd_example, Rounded.eps_example.
  pose proof (SIN_bound a). rewrite Rabs_le_iff. lra.
Qed.

Lemma pi_example_error :
  (Rabs (Rounded.pi_example - PI) <= Rounded.eps_example)%R.
Proof.
  unfold Rounded.pi_example, Rounded.rnd_example, Rounded.eps_example.
  pose proof PI_4. pose proof PI_RGT_0. rewrite Rabs_le_iff. lra.
Qed.

(** ** The circular pattern *)

(** C4. For every count in [4, 24], every radius the slider offers
    (0 <= radius <= 6.5) and every diameter, "Generate Circular Pattern"
    rebinds the tendon collection to a new list of exactly [count]
    tendons, whatever it held before: tendon k has id k and the given
    diameter; its angle is computed as [k * step] and lies within
    [48 * eps] of 2*pi*k/count (0 for the first, below 2*pi for all,
    consecutive angles 2*pi/count apart); its coordinates are the computed
    [radius * cos(angle)] and [radius * sin(angle)], within [320 * eps] of
    the exact ones; and it lies at radial offset [radius] within
    [640 * eps].  The other collections and the name are untouched.  Here
    [eps] bounds the error of one operation of the double arithmetic and
    of [np.cos], [np.sin] and [np.pi] (2^-48 for binary64), so the
    tolerance is of the order of 1e-12. *)
Theorem circular_pattern (rnd cos_lib sin_lib : R → R) (pi_lib eps : R)
    (s : Session) (count : nat) (radius diameter : R) :
  (0 <= eps <= / 1000)%R →
  (∀ v, (Rabs v <= 64)%R → (Rabs (rnd v - v) <= eps)%R) →
  (∀ a, (-1 <= a <= 8)%R → (Rabs (cos_lib a - cos a) <= eps)%R) →
  (∀ a, (-1 <= a <= 8)%R → (Rabs (sin_lib a - sin a) <= eps)%R) →
  (Rabs (pi_lib - PI) <= eps)%R →
  4 ≤ count ≤ 24 →
  (0 <= radius <= 6.5)%R →
  let s' := Rounded.generateCircularPattern rnd cos_lib sin_lib pi_lib
              count radius diameter s in
  let theta := λ k : nat, (2 * PI * INR k / INR count)%R in
  let angle := Rounded.angle rnd pi_lib count in
  ∃ generated,
    read_list (tendon_store s') (d_tendons (current_layout s')) = Some generated
    ∧ length generated = count
    ∧ t_id <$> generated = seq 0 count
    ∧ (∀ layout, current s = Some layout →
         current s' = Some (mkLayout (name layout) generated
                              (grout_connections layout)
                              (access_shafts layout)))
    ∧ theta 0 = 0%R
    ∧ (∀ k, (theta (S k) - theta k = 2 * PI / INR count)%R)
    ∧ (∀ k, S k < count →
         (Rabs (angle (S k) - angle k - 2 * PI / INR count) <= 96 * eps)%R)
    ∧ ∀ k, k < count →
        ∃ t, generated !! k = Some t
          ∧ t_id t = k ∧ t_diameter t = diameter ∧ t_type t = "vertical"
          ∧ t_x t = rnd (radius * cos_lib (angle k))%R
          ∧ t_y t = rnd (radius * sin_lib (angle k))%R
          ∧ (Rabs (angle k - theta k) <= 48 * eps)%R
          ∧ (0 <= theta k < 2 * PI)%R ∧ (angle k < 2 * PI)%R
          ∧ (Rabs (t_x t - radius * cos (theta k)) <= 320 * eps)%R
          ∧ (Rabs (t_y t - radius * sin (theta k)) <= 320 * eps)%R
          ∧ (Rabs (radialOffset (t_x t) (t_y t) - radius) <= 640 * eps)%R.
Proof.
  intros Heps Hrnd Hcos Hsin Hpi Hcount Hradius s' theta angle.
  assert (0 < INR count)%R as Hpos by (apply lt_0_INR; lia).
  pose proof (pattern_dicts_angles rnd cos_lib sin_lib pi_lib eps Heps Hrnd
                Hpi count radius diameter Hcount) as Hgen.
  cbv zeta in Hgen. fold angle in Hgen.
  exists (Rounded.pattern_dicts rnd cos_lib sin_lib pi_lib count radius
            diameter).
  split; [apply rounded_read_generateCircularPattern|].
  split; [by rewrite Hgen, length_fmap, length_seq|].
  split.
  { rewrite Hgen, <- list_fmap_compose. apply list_fmap_id. }
  split; [intros layout Hc; by apply rounded_current_generateCircularPattern|].
  split; [unfold theta; simpl; field; lra|].
  split; [intros k; unfold theta; rewrite S_INR; field; lra|].
  split.
  - intros k Hk.
    destruct (generated_tendon_near rnd cos_lib sin_lib pi_lib eps Heps Hrnd
                Hcos Hsin Hpi count k radius diameter Hcount ltac:(lia)
                Hradius) as (H1 & _).
    destruct (generated_tendon_near rnd cos_lib sin_lib pi_lib eps Heps Hrnd
                Hcos Hsin Hpi count (S k) radius diameter Hcount Hk
                Hradius) as (H2 & _).
    fold angle in H1, H2.
    assert (2 * PI * INR (S k) / INR count - 2 * PI * INR k / INR count
            = 2 * PI / INR count)%R as Hstep
      by (rewrite S_INR; field; lra).
    rewrite Rabs_le_iff in H1, H2. apply Rabs_le_iff. lra.
  - intros k Hk. rewrite Hgen, list_lookup_fmap, lookup_seq_lt by done.
    eexists. split; [done|]. cbn [t_id t_x t_y t_diameter t_type Nat.add].
    split; [done|]. split; [done|]. split; [done|].
    split; [done|]. split; [done|].
    apply (generated_tendon_near rnd cos_lib sin_lib pi_lib eps Heps Hrnd
             Hcos Hsin Hpi count k radius diameter Hcount Hk Hradius).
Qed.

(** Eight tendons of 150 mm at 4 m, generated in the initial session
    with an arithmetic that is off in every operation. *)
Lemma circular_pattern_witness :
  let s' := Rounded.generateCircularPattern Rounded.rnd_example
              Rounded.cos_example Rounded.sin_example Rounded.pi_example
              8 4 150 init_session in
  ∃ generated,
    read_list (tendon_store s') (d_tendons (current_layout s')) = Some generated
    ∧ length generated = 8
    ∧ ∀ t, t ∈ generated →
        (Rabs (radialOffset (t_x t) (t_y t) - 4)
         <= 640 * Rounded.eps_example)%R.
Proof.
  intros s'.
  assert (0 <= Rounded.eps_example <= / 1000)%R as Heps
    by (unfold Rounded.eps_example; lra).
  destruct (circular_pattern Rounded.rnd_example Rounded.cos_example
              Rounded.sin_example Rounded.pi_example Rounded.eps_example
              init_session 8 4 150 Heps rnd_example_error
              (λ a _, cos_example_error a) (λ a _, sin_example_error a)
              pi_example_error ltac:(lia) ltac:(lra))
    as (generated & Hread & Hlen & _ & _ & _ & _ & _ & Hall).
  exists generated. split; [exact Hread|]. split; [exact Hlen|].
  intros t [k Hk]%list_elem_of_lookup.
  assert (k < 8) as Hlt by (rewrite <- Hlen; by eapply lookup_lt_Some).
  destruct (Hall k Hlt) as (t' & Ht' & H). rewrite Hk in Ht'.
  injection Ht' as <-. apply H.
Defined.

(** * Loading a saved layout *)

Lemma run_cons_Ok (a : Action) (actions : list Action) (s s' : Session) :
  run (a :: actions) s = Ok s'
  ↔ ∃ s1, step a s = Ok s1 ∧ run actions s1 = Ok s'.
Proof.
  cbn [run]. destruct (step a s) as [s1|e]; cbn.
  - split; [by exists s1 | by intros (? & [= ->] & ?)].
  - split; [done | by intros (? & ? & ?)].
Qed.

Lemma run_snapshot (actions : list Action) (s s' : Session) (i : nat)
    (snap : Snapshot) :
  reachable s → run actions s = Ok s' →
  snapshot s i = Some snap → snapshot s' i = Some snap.
Proof.
  revert s. induction actions as [|a actions IH]; intros s Hreach Hrun Hsnap.
  - by apply Ok_inj in Hrun as <-.
  - apply run_cons_Ok in Hrun as (s1 & Hstep & Hrun).
    apply (IH s1); [by apply (reachable_step a s) | done |].
    by apply (step_snapshot a s s1 i snap (reachable_inv s Hreach)).
Qed.

(** The three lists of a loaded layout are new list objects. *)
Lemma loadSnapshot_new_lists (i : nat) (s s' : Session) :
  loadSnapshot i s = Ok s' →
  lists (tendon_store s) !! d_tendons (current_layout s') = None
  ∧ lists (component_store s) !! d_grout_connections (current_layout s') = None
  ∧ lists (component_store s) !! d_access_shafts (current_layout s') = None.
Proof.
  intros Hload. destruct (loadSnapshot_Ok _ _ _ Hload) as [sv Hi].
  rewrite (loadSnapshot_eq _ _ _ Hi) in Hload. apply Ok_inj in Hload as <-.
  session_simpl. unfold list_copy. split_and!.
  - apply new_list_fresh.
  - apply new_list_fresh.
  - match goal with
    | |- lists _ !! (new_list ?items ?st).1 = None =>
        pose proof (new_list_fresh items st) as Hfresh;
        destruct (lists (component_store s) !! (new_list items st).1)
          as [old|] eqn:Hold; [|done]
    end.
    rewrite new_list_other in Hfresh by (by rewrite Hold).
    by rewrite Hold in Hfresh.
Qed.

Lemma loadSnapshot_shares (i : nat) (s s' : Session) (sv : SavedDict)
    (items : list nat) :
  layouts s !! i = Some sv → loadSnapshot i s = Ok s' →
  lists (tendon_store s) !! s_tendons sv = Some items →
  lists (tendon_store s') !! d_tendons (current_layout s') = Some items
  ∧ lists (tendon_store s') !! s_tendons sv = Some items.
Proof.
  intros Hi Hload Hitems.
  rewrite (loadSnapshot_eq _ _ _ Hi) in Hload. apply Ok_inj in Hload as <-.
  session_simpl.
  destruct (list_copy_shares _ _ _ Hitems) as (H1 & H2 & _). by split.
Qed.

(** C7. For a valid index [i], "Load Layout i" succeeds and makes the
    current layout a copy of the saved one: its name is the saved name
    followed by " (copy)" and its tendons, grout connections and access
    shafts are those of the saved layout.  The list of saved layouts and
    the active foundation diameter and wall thickness are unchanged,
    whatever foundation parameters the saved layout recorded.  It is a
    copy: the three lists of the new current layout are list objects that
    did not exist before, none of them a list of a saved layout (they
    hold the dictionaries of the saved lists), so whatever is done to the
    current layout afterwards leaves the saved layout as it was. *)
Theorem loadSnapshot_restores (s : Session) (i : nat) :
  reachable s → i < length (layouts s) →
  ∃ sv snap s',
    layouts s !! i = Some sv
    ∧ snapshot s i = Some snap
    ∧ loadSnapshot i s = Ok s'
    ∧ current s'
      = Some (mkLayout (name (snap_layout snap) +:+ " (copy)")
                (tendons (snap_layout snap))
                (grout_connections (snap_layout snap))
                (access_shafts (snap_layout snap)))
    ∧ foundation_diameter s' = foundation_diameter s
    ∧ wall_thickness s' = wall_thickness s
    ∧ layouts s' = layouts s
    ∧ snapshot s' i = Some snap
    ∧ lists (tendon_store s) !! d_tendons (current_layout s') = None
    ∧ lists (component_store s) !! d_grout_connections (current_layout s')
      = None
    ∧ lists (component_store s) !! d_access_shafts (current_layout s') = None
    ∧ (∀ sv', sv' ∈ layouts s' → separated (current_layout s') sv')
    ∧ d_grout_connections (current_layout s')
      ≠ d_access_shafts (current_layout s')
    ∧ (∃ items,
         lists (tendon_store s') !! d_tendons (current_layout s') = Some items
         ∧ lists (tendon_store s') !! s_tendons sv = Some items)
    ∧ (∀ actions s'', run actions s' = Ok s'' → snapshot s'' i = Some snap).
Proof.
  intros Hreach Hi. pose proof (reachable_inv s Hreach) as Hinv.
  apply lookup_lt_is_Some_2 in Hi as [sv Hi].
  assert (sv ∈ layouts s) as Hin by by eapply list_elem_of_lookup_2.
  destruct (inv_saved s Hinv sv Hin) as (snap & Hr & _).
  destruct (current_loadSnapshot _ _ _ _ Hi Hr)
    as (s' & Hload & Hcur & Hlay & Hfd & Hwt).
  assert (reachable s') as Hreach'
    by (by apply (reachable_step (LoadSnapshot i) s)).
  pose proof (reachable_inv s' Hreach') as Hinv'.
  assert (snapshot s' i = Some snap) as Hsnap'.
  { unfold snapshot. rewrite Hlay, Hi. simpl.
    by apply (step_read_saved (LoadSnapshot i) s). }
  destruct (loadSnapshot_new_lists i s s' Hload) as (Hnt & Hng & Hna).
  destruct (inv_saved_allocated s sv Hinv Hin) as ([items Hitems] & _ & _).
  exists sv, snap, s'.
  split; [done|]. split; [by unfold snapshot; rewrite Hi|].
  split; [done|]. split; [done|]. split; [done|]. split; [done|].
  split; [done|]. split; [done|]. split; [done|]. split; [done|].
  split; [done|]. split; [apply (inv_separated s' Hinv')|].
  split; [apply (inv_distinct s' Hinv')|].
  split; [exists items; by apply (loadSnapshot_shares i s s' sv)|].
  intros actions s'' Hrun. by apply (run_snapshot actions s' s'' i snap).
Qed.

(** One tendon is added and the layout saved under the default
    foundation (10 m, 0.8 m walls); the sliders are moved to 12 m and 1 m
    and the layout is loaded: the tendon is back under the new name, the
    foundation stays at 12 m and 1 m, and a tendon added after the load
    does not appear in the saved layout. *)
Lemma loadSnapshot_restores_witness :
  let tendon := mkTendon 0 1 2 150 "vertical" in
  let saved := mkSnapshot (mkLayout "Layout 1" [tendon] [] [])
                          "2026-01-01 00:00" 10 0.8 in
  let s := applyFoundationSpec 12 1
             (saveSnapshot "2026-01-01 00:00"
                (addTendon 1 2 150 init_session)) in
  snapshot s 0 = Some saved
  ∧ ∃ s', loadSnapshot 0 s = Ok s'
      ∧ current s' = Some (mkLayout "Layout 1 (copy)" [tendon] [] [])
      ∧ foundation_diameter s' = 12%R ∧ wall_thickness s' = 1%R
      ∧ lists (tendon_store s) !! d_tendons (current_layout s') = None
      ∧ snapshot (addTendon 3 0 150 s') 0 = Some saved.
Proof.
  intros tendon saved s.
  set (s0 := addTendon 1 2 150 init_session).
  assert (current s0 = Some (mkLayout "Layout 1" [tendon] [] [])) as Hc0
    by apply (current_addTendon 1 2 150 init_session _ current_init_session).
  assert (reachable s0) as Hr0
    by (by apply (reachable_step (AddTendon 1 2 150) init_session);
         [apply reachable_init|]).
  assert (reachable s) as Hr.
  { apply (reachable_step (ApplyFoundationSpec 12 1)
             (saveSnapshot "2026-01-01 00:00" s0)); [|done].
    by apply (reachable_step (SaveSnapshot "2026-01-01 00:00") s0). }
  assert (snapshot s 0 = Some saved) as Hsaved.
  { destruct (read_saved_new "2026-01-01 00:00" s0 _ Hc0)
      as (sv & Hl & Hread & _).
    change (snapshot s 0)
      with (snapshot (saveSnapshot "2026-01-01 00:00" s0) 0).
    unfold snapshot. rewrite Hl.
    change (layouts s0) with (@nil SavedDict).
    cbn [app lookup list_lookup mbind option_bind].
    exact Hread. }
  split; [exact Hsaved|].
  destruct (loadSnapshot_restores s 0 Hr)
    as (sv & snap & s' & _ & Hsnap & Hload & Hcur & Hfd & Hwt & _ & _
        & Hnew & _ & _ & _ & _ & _ & Hkeep).
  { unfold s, applyFoundationSpec. rewrite saveSnapshot_eq.
    session_simpl. rewrite length_app. simpl. lia. }
  rewrite Hsaved in Hsnap. injection Hsnap as <-.
  exists s'. split; [exact Hload|]. split; [exact Hcur|].
  split; [exact Hfd|]. split; [exact Hwt|]. split; [exact Hnew|].
  by apply (Hkeep [AddTendon 3 0 150]).
Defined.

(** * Further properties *)

(** ** Lists with no finding *)

Lemma filter_none {A : Type} (P : A → Prop) `{!∀ x, Decision (P x)}
    (l : list A) :
  (∀ x, x ∈ l → ¬ P x) → filter P l = [].
Proof.
  intros HP. induction l as [|x l IH]; [done|].
  rewrite filter_cons_False by (apply HP; left).
  apply IH. intros y Hy. apply HP. by right.
Qed.

Lemma fmap_filter_empty {A B : Type} (f : A → B) (P : A → Prop)
    `{!∀ x, Decision (P x)} (l : list A) :
  f <$> filter P l = [] ↔ ∀ x, x ∈ l → ¬ P x.
Proof.
  split.
  - intros Hnil x Hx HP. apply (fmap_filter_nonempty f P l); [eauto | done].
  - intros Hall. destruct (f <$> filter P l) as [|y k] eqn:Hf; [done|].
    assert (f <$> filter P l ≠ []) as Hne by by rewrite Hf.
    apply fmap_filter_nonempty in Hne as (x & Hx & HP).
    by destruct (Hall x Hx).
Qed.

Lemma Ok_nil_iff {A : Type} (l : list A) : Ok l = Ok [] ↔ l = [].
Proof. split; [by intros [= ->] | by intros ->]. Qed.

(** ** Findings under changes of the foundation and of the layout *)

Lemma filter_sublist_impl {A : Type} (P Q : A → Prop)
    `{!∀ x, Decision (P x)} `{!∀ x, Decision (Q x)} (l : list A) :
  (∀ x, P x → Q x) → filter P l `sublist_of` filter Q l.
Proof.
  intros Himpl. induction l as [|x l IH]; [done|].
  rewrite !filter_cons. destruct (decide (P x)) as [HP | HP].
  - rewrite decide_True by by apply Himpl. by constructor.
  - destruct (decide (Q x)); [by constructor | done].
Qed.

Lemma fmap_sublist {A B : Type} (f : A → B) (l k : list A) :
  l `sublist_of` k → f <$> l `sublist_of` f <$> k.
Proof. induction 1; simpl; by constructor. Qed.

(** X6. A wider bore never adds a finding: if the inner radius
    [diameter/2 - thickness] does not shrink, the violations of the same
    layout are a sub-list of the earlier ones (some containment messages
    drop out, the clearance findings stay), and the warnings are the
    same. *)
Theorem wider_bore_fewer_violations (format_2f : R → string)
    (diameter thickness diameter' thickness' : R) (layout : Layout) :
  (diameter / 2 - thickness <= diameter' / 2 - thickness')%R →
  ∃ vr vr',
    validate format_2f diameter thickness layout = Ok vr
    ∧ validate format_2f diameter' thickness' layout = Ok vr'
    ∧ violations vr' `sublist_of` violations vr
    ∧ length (violations vr') ≤ length (violations vr)
    ∧ warnings vr' = warnings vr.
Proof.
  intros Hwider. eexists _, _.
  split; [apply validate_spec|]. split; [apply validate_spec|]. simpl.
  assert (((containment_msg
              <$> filter (outside_bore diameter' thickness') (tendons layout))
           ++ (clearance_finding format_2f
                 <$> filter (λ p, too_close p.1.2 p.2.2)
                       (tendon_pairs (tendons layout))))
          `sublist_of`
          ((containment_msg
              <$> filter (outside_bore diameter thickness) (tendons layout))
           ++ (clearance_finding format_2f
                 <$> filter (λ p, too_close p.1.2 p.2.2)
                       (tendon_pairs (tendons layout))))) as Hsub.
  { apply sublist_app; [|done]. apply fmap_sublist, filter_sublist_impl.
    intros t. unfold outside_bore. lra. }
  split_and!; [done | by apply sublist_length | done].
Qed.

(** The default foundation widened from 10 m to 12 m. *)
Lemma wider_bore_fewer_violations_witness :
  let layout := mkLayout "Layout 1" [mkTendon 0 4.5 0 150 "vertical"] [] [] in
  ∃ vr vr',
    validate format_2f_example 10 0.8 layout = Ok vr
    ∧ validate format_2f_example 12 0.8 layout = Ok vr'
    ∧ length (violations vr') ≤ length (violations vr).
Proof.
  intros layout.
  destruct (wider_bore_fewer_violations format_2f_example 10 0.8 12 0.8 layout)
    as (vr & vr' & H1 & H2 & _ & Hlen & _); [lra|].
  by exists vr, vr'.
Defined.

Lemma validate_append_tendon (format_2f : R → string) (diameter thickness : R)
    (n : string) (ts : list Tendon) (gs shafts : list Component) (t : Tendon) :
  ∃ vr vr',
    validate format_2f diameter thickness (mkLayout n ts gs shafts) = Ok vr
    ∧ validate format_2f diameter thickness (mkLayout n (ts ++ [t]) gs shafts)
      = Ok vr'
    ∧ (∀ m, m ∈ violations vr → m ∈ violations vr')
    ∧ (∀ m, m ∈ warnings vr → m ∈ warnings vr').
Proof.
  eexists _, _.
  split; [apply validate_spec|]. split; [apply validate_spec|]. simpl.
  split.
  - intros m [Hm | Hm]%elem_of_app; apply elem_of_app.
    + left. apply list_elem_of_fmap in Hm as (t' & -> & Ht').
      apply list_elem_of_fmap_2. rewrite filter_app. apply elem_of_app.
      by left.
    + right. apply list_elem_of_fmap in Hm as ([[i t1] [j t2]] & -> & Hp).
      apply list_elem_of_fmap_2.
      apply list_elem_of_filter in Hp as [Hclose Hp].
      apply list_elem_of_filter. split; [done|].
      apply elem_of_tendon_pairs in Hp as (? & ? & ?).
      apply elem_of_tendon_pairs.
      split_and!; [done | by apply lookup_app_l_Some ..].
  - intros m Hm. apply list_elem_of_fmap in Hm as (p & -> & Hp).
    apply (list_elem_of_fmap_2 (λ p, proximity_msg p.1 p.2)).
    apply list_elem_of_filter in Hp as [Hnear Hp].
    apply list_elem_of_filter. split; [done|].
    destruct p as [g t'].
    apply elem_of_grout_tendon_pairs in Hp as [? ?].
    apply elem_of_grout_tendon_pairs. split; [done|].
    apply elem_of_app. by left.
Qed.

Lemma grout_tendon_pairs_app (gs gs' : list Component) (ts : list Tendon) :
  grout_tendon_pairs (gs ++ gs') ts
  = grout_tendon_pairs gs ts ++ grout_tendon_pairs gs' ts.
Proof. unfold grout_tendon_pairs. apply bind_app. Qed.

Lemma validate_append_grout (format_2f : R → string) (diameter thickness : R)
    (n : string) (ts : list Tendon) (gs shafts : list Component)
    (g : Component) :
  ∃ vr vr',
    validate format_2f diameter thickness (mkLayout n ts gs shafts) = Ok vr
    ∧ validate format_2f diameter thickness (mkLayout n ts (gs ++ [g]) shafts)
      = Ok vr'
    ∧ violations vr' = violations vr
    ∧ warnings vr `prefix_of` warnings vr'.
Proof.
  eexists _, _.
  split; [apply validate_spec|]. split; [apply validate_spec|]. simpl.
  split; [done|].
  rewrite grout_tendon_pairs_app, filter_app, fmap_app.
  by apply prefix_app_r.
Qed.

Lemma page_validation_Some (format_2f : R → string) (s : Session)
    (layout : Layout) :
  current s = Some layout →
  page_validation format_2f s
  = Some (validate format_2f (foundation_diameter s) (wall_thickness s) layout).
Proof. intros Hc. unfold page_validation. by rewrite Hc. Qed.

(** X7. Adding a component never removes a finding from the page: after
    "Add Tendon" every earlier violation and warning is still listed, and
    after "Add Grout Connection" the violations are the same and the
    earlier warnings come first, unchanged. *)
Theorem adding_keeps_findings (format_2f : R → string) (s : Session)
    (x y d : R) :
  reachable s →
  ∃ vr vr_t vr_g,
    page_validation format_2f s = Some (Ok vr)
    ∧ page_validation format_2f (addTendon x y d s) = Some (Ok vr_t)
    ∧ page_validation format_2f (addGroutConnection x y d s) = Some (Ok vr_g)
    ∧ (∀ m, m ∈ violations vr → m ∈ violations vr_t)
    ∧ (∀ m, m ∈ warnings vr → m ∈ warnings vr_t)
    ∧ violations vr_g = violations vr
    ∧ warnings vr `prefix_of` warnings vr_g.
Proof.
  intros Hreach. pose proof (reachable_inv s Hreach) as Hinv.
  destruct (inv_current s Hinv) as ([n ts gs shafts] & Hc & _).
  pose proof (inv_distinct s Hinv) as Hdist.
  destruct (validate_append_tendon format_2f (foundation_diameter s)
              (wall_thickness s) n ts gs shafts
              (mkTendon (length ts) x y d "vertical"))
    as (vr & vr_t & Hv & Hvt & Hviol & Hwarn).
  destruct (validate_append_grout format_2f (foundation_diameter s)
              (wall_thickness s) n ts gs shafts
              (mkComponent (length gs) x y d))
    as (vr0 & vr_g & Hv0 & Hvg & Hviol_g & Hwarn_g).
  rewrite Hv in Hv0. apply Ok_inj in Hv0 as <-.
  exists vr, vr_t, vr_g. split_and!; try done.
  - by rewrite (page_validation_Some _ _ _ Hc), Hv.
  - rewrite (page_validation_Some _ _ _ (current_addTendon x y d s _ Hc)).
    by rewrite <- Hvt.
  - rewrite (page_validation_Some _ _ _
               (current_addGroutConnection x y d s _ Hdist Hc)).
    by rewrite <- Hvg.
Qed.

(** A tendon added at x = 5 in the default foundation is reported by
    check 1, and it still is after a second tendon is added at the
    centre. *)
Lemma adding_keeps_findings_witness :
  let s := addTendon 5 0 150 init_session in
  ∃ vr vr_t,
    page_validation format_2f_example s = Some (Ok vr)
    ∧ page_validation format_2f_example (addTendon 0 0 150 s) = Some (Ok vr_t)
    ∧ "Tendon T0 too close to wall" ∈ violations vr
    ∧ "Tendon T0 too close to wall" ∈ violations vr_t.
Proof.
  intros s.
  assert (reachable s) as Hr
    by (by apply (reachable_step (AddTendon 5 0 150) init_session);
         [apply reachable_init|]).
  destruct (adding_keeps_findings format_2f_example s 0 0 150 Hr)
    as (vr & vr_t & _ & Hv & Hvt & _ & Hkeep & _).
  exists vr, vr_t. split; [exact Hv|]. split; [exact Hvt|].
  assert ("Tendon T0 too close to wall" ∈ violations vr) as Hin.
  { pose proof (current_addTendon 5 0 150 init_session _
                  current_init_session) as Hc.
    rewrite (page_validation_Some _ _ _ Hc), validate_spec in Hv.
    apply (f_equal (λ r, match r with Some (Ok v) => violations v
                                    | _ => [] end)) in Hv.
    cbn [violations tendons app length] in Hv. rewrite <- Hv.
    change (foundation_diameter _) with 10%R.
    change (wall_thickness _) with 0.8%R.
    rewrite filter_cons_True, filter_nil.
    - apply elem_of_app. left. cbn [fmap list_fmap]. left.
    - unfold outside_bore. cbn [t_x t_y t_diameter].
      rewrite radialOffset_on_axis; lra. }
  split; [exact Hin | by apply Hkeep].
Defined.

(** ** Access shafts *)

Lemma validate_shafts (format_2f : R → string) (diameter thickness : R)
    (n n' : string) (ts : list Tendon) (gs shafts shafts' : list Component) :
  validate format_2f diameter thickness (mkLayout n ts gs shafts)
  = validate format_2f diameter thickness (mkLayout n' ts gs shafts').
Proof. by rewrite !validate_spec. Qed.

(** X8. Access shafts are drawn and counted, never checked: after "Add
    Access Shaft", wherever the shaft is put and however large it is, the
    page shows the same violations and warnings, the same estimates and
    offers the same CSV export as before. *)
Theorem access_shafts_not_checked (format_2f str_num : R → string)
    (s : Session) (x y d : R) :
  reachable s →
  page_validation format_2f (addAccessShaft x y d s)
  = page_validation format_2f s
  ∧ page_estimate (addAccessShaft x y d s) = page_estimate s
  ∧ page_export str_num (addAccessShaft x y d s) = page_export str_num s.
Proof.
  intros Hreach. pose proof (reachable_inv s Hreach) as Hinv.
  destruct (inv_current s Hinv) as ([n ts gs shafts] & Hc & _).
  pose proof (current_addAccessShaft x y d s _ (inv_distinct s Hinv) Hc) as Hc'.
  cbn [name tendons grout_connections access_shafts] in Hc'.
  unfold page_validation, page_estimate, page_export.
  rewrite Hc, Hc'. cbn [mbind option_bind fmap option_fmap option_map].
  split_and!; [| done | done].
  apply (f_equal Some), validate_shafts.
Qed.

(** A shaft of 2 m on top of the first tendon of the default pattern. *)
Lemma access_shafts_not_checked_witness :
  let s := generateCircularPattern 8 4 150 init_session in
  page_validation format_2f_example (addAccessShaft 4 0 2 s)
  = page_validation format_2f_example s
  ∧ page_estimate (addAccessShaft 4 0 2 s) = page_estimate s.
Proof.
  intros s.
  destruct (access_shafts_not_checked format_2f_example str_num_example
              s 4 0 2) as (H1 & H2 & _); [|done].
  by apply (reachable_step (GenerateCircularPattern 8 4 150) init_session);
    [apply reachable_init|].
Defined.

(** ** Generated patterns and the clearance rule *)

Lemma chord (radius a b : R) :
  distance (radius * cos a) (radius * sin a) (radius * cos b) (radius * sin b)
  = (2 * Rabs radius * Rabs (sin ((b - a) / 2)))%R.
Proof.
  unfold distance.
  pose proof (sin2_cos2 a) as Ha. pose proof (sin2_cos2 b) as Hb.
  pose proof (cos_minus b a) as Hm.
  pose proof (cos_2a_sin ((b - a) / 2)) as Hh.
  replace (2 * ((b - a) / 2))%R with (b - a)%R in Hh by field.
  unfold Rsqr in Ha, Hb.
  replace ((radius * cos a - radius * cos b) ^ 2
           + (radius * sin a - radius * sin b) ^ 2)%R
    with (Rsqr (2 * radius * sin ((b - a) / 2))).
  - rewrite sqrt_Rsqr_abs, !Rabs_mult, (Rabs_pos_eq 2) by lra. done.
  - unfold Rsqr.
    transitivity (radius * radius
                  * ((sin a * sin a + cos a * cos a)
                     + (sin b * sin b + cos b * cos b)
                     - 2 * (cos b * cos a + sin b * sin a)))%R; [|ring].
    rewrite Ha, Hb, <- Hm, Hh. ring.
Qed.

Lemma sin_chord_min (n k : nat) :
  1 ≤ k → k < n → (sin (PI / INR n) <= sin (PI * INR k / INR n))%R.
Proof.
  intros Hk Hkn.
  assert (0 < INR n)%R as HN by (apply lt_0_INR; lia).
  assert (1 <= INR k)%R as HK by (apply (le_INR 1); lia).
  pose proof PI_RGT_0 as Hpi.
  set (q := (PI / INR n)%R).
  assert (0 < q)%R as Hq by (by apply Rdiv_lt_0_compat).
  assert (PI = q * INR n)%R as HPI by (unfold q; field; lra).
  replace (PI * INR k / INR n)%R with (q * INR k)%R by (unfold q; field; lra).
  assert (INR k + INR (n - k) = INR n)%R as Hsum.
  { rewrite <- plus_INR. f_equal. lia. }
  assert (1 <= INR (n - k))%R as HK' by (apply (le_INR 1); lia).
  destruct (decide (2 * k ≤ n)) as [Hhalf | Hhalf].
  - assert (2 * INR k <= INR n)%R as Hhalf'.
    { apply (le_INR (2 * k)) in Hhalf. by rewrite mult_INR in Hhalf. }
    apply sin_incr_1; nra.
  - assert (2 * INR (n - k) <= INR n)%R as Hhalf'.
    { assert (2 * (n - k) ≤ n) as Hle by lia.
      apply le_INR in Hle. by rewrite mult_INR in Hle. }
    rewrite <- (sin_PI_x (q * INR k)).
    replace (PI - q * INR k)%R with (q * INR (n - k))%R by nra.
    apply sin_incr_1; nra.
Qed.

Lemma sin_chord_pos (n : nat) : 2 ≤ n → (0 <= sin (PI / INR n))%R.
Proof.
  intros Hn. pose proof PI_RGT_0 as Hpi.
  assert (2 <= INR n)%R as HN by (apply (le_INR 2); lia).
  assert (0 < PI / INR n)%R by (apply Rdiv_lt_0_compat; lra).
  assert (PI / INR n <= PI)%R.
  { apply (Rmult_le_reg_r (INR n)); [lra|].
    unfold Rdiv. rewrite Rmult_assoc, Rinv_l by lra. nra. }
  apply sin_ge_0; lra.
Qed.

Lemma pattern_pair_distance (n : nat) (radius d : R) (i j : nat)
    (t1 t2 : Tendon) :
  i < j →
  pattern_dicts n radius d !! i = Some t1 →
  pattern_dicts n radius d !! j = Some t2 →
  j < n
  ∧ t_diameter t1 = d ∧ t_diameter t2 = d
  ∧ distance (t_x t1) (t_y t1) (t_x t2) (t_y t2)
    = (2 * Rabs radius * sin (PI * INR (j - i) / INR n))%R.
Proof.
  intros Hij H1 H2.
  assert (j < n) as Hjn.
  { apply lookup_lt_Some in H2. by rewrite length_pattern_dicts in H2. }
  rewrite pattern_dicts_turn in H1, H2 by lia.
  rewrite list_lookup_fmap in H1, H2.
  rewrite lookup_seq_lt in H1, H2 by lia.
  cbn [fmap option_fmap option_map] in H1, H2.
  injection H1 as <-. injection H2 as <-.
  cbn [t_x t_y t_diameter Nat.add]. split_and!; [done ..|].
  rewrite chord.
  assert (0 < INR n)%R as HN by (apply lt_0_INR; lia).
  replace ((2 * PI * INR j / INR n - 2 * PI * INR i / INR n) / 2)%R
    with (PI * INR (j - i) / INR n)%R.
  2:{ rewrite minus_INR by lia. field. lra. }
  rewrite (Rabs_pos_eq (sin _)); [done|].
  pose proof (sin_chord_min n (j - i) ltac:(lia) ltac:(lia)).
  pose proof (sin_chord_pos n ltac:(lia)). lra.
Qed.

(** X11. A generated pattern of at least two tendons passes the clearance
    check exactly when neighbouring tendons are far enough apart: check 2
    reports nothing if and only if the chord between neighbours,
    [2 * |radius| * sin (pi / num_tendons)], is at least
    [tendon_diameter / 1000 + 0.3]. *)
Theorem pattern_clearance_criterion (format_2f : R → string) (n : nat)
    (radius d : R) :
  2 ≤ n →
  check2 format_2f (pattern_dicts n radius d) [] = Ok []
  ↔ (2 * Rabs radius * sin (PI / INR n) >= d / 1000 + 0.3)%R.
Proof.
  intros Hn. rewrite check2_spec. cbn [app].
  rewrite Ok_nil_iff, fmap_filter_empty.
  pose proof (Rabs_pos radius) as Hr.
  split.
  - intros Hnone.
    destruct (lookup_lt_is_Some_2 (pattern_dicts n radius d) 0) as [t1 H1];
      [rewrite length_pattern_dicts; lia|].
    destruct (lookup_lt_is_Some_2 (pattern_dicts n radius d) 1) as [t2 H2];
      [rewrite length_pattern_dicts; lia|].
    destruct (pattern_pair_distance n radius d 0 1 t1 t2 ltac:(lia) H1 H2)
      as (_ & Hd1 & Hd2 & Hdist).
    specialize (Hnone ((0, t1), (1, t2))).
    unfold too_close in Hnone. cbn [fst snd] in Hnone.
    rewrite Hdist, Hd1, Hd2 in Hnone.
    replace (PI * INR (1 - 0) / INR n)%R with (PI / INR n)%R in Hnone
      by (cbn [Nat.sub INR]; unfold Rdiv; ring).
    apply Rnot_lt_ge. intros Hlt. apply Hnone; [|lra].
    apply elem_of_tendon_pairs. split_and!; [lia | done | done].
  - intros Hfar [[i t1] [j t2]] (Hij & H1 & H2)%elem_of_tendon_pairs.
    destruct (pattern_pair_distance n radius d i j t1 t2 Hij H1 H2)
      as (Hjn & Hd1 & Hd2 & Hdist).
    unfold too_close. cbn [fst snd]. rewrite Hdist, Hd1, Hd2.
    pose proof (sin_chord_min n (j - i) ltac:(lia) ltac:(lia)). nra.
Qed.

(** The default pattern size. *)
Lemma pattern_clearance_criterion_witness :
  2 ≤ 8
  ∧ (check2 format_2f_example (pattern_dicts 8 4 150) [] = Ok []
     ↔ (2 * Rabs 4 * sin (PI / INR 8) >= 150 / 1000 + 0.3)%R).
Proof.
  split; [lia|]. apply (pattern_clearance_criterion format_2f_example 8 4 150).
  lia.
Defined.

(** ** Estimates *)

(** X12. The complexity score reaches its cap of 10 exactly when
    [3 * tendons + 5 * grout connections >= 80]; below that it is
    [2 + 0.3 * tendons + 0.5 * grout connections], it never decreases when
    a tendon or a grout connection is added, and it does not depend on the
    access shafts, on the positions or on the diameters. *)
Theorem complexity_cap (layout : Layout) :
  let n := length (tendons layout) in
  let g := length (grout_connections layout) in
  (complexityScore (estimate layout) = 10%R ↔ 80 ≤ 3 * n + 5 * g)
  ∧ (3 * n + 5 * g < 80 →
     complexityScore (estimate layout) = (2 + 0.3 * INR n + 0.5 * INR g)%R)
  ∧ (∀ layout',
       n ≤ length (tendons layout') →
       g ≤ length (grout_connections layout') →
       (complexityScore (estimate layout)
        <= complexityScore (estimate layout'))%R).
Proof.
  intros n g.
  assert (∀ l : Layout,
            complexityScore (estimate l)
            = Rmin 10 (2 + 0.3 * INR (length (tendons l))
                         + 0.5 * INR (length (grout_connections l)))) as Hscore.
  { intros l. unfold estimate. cbn [complexityScore].
    rewrite py_min_Rmin. f_equal. ring. }
  assert (∀ a b : nat, (INR (3 * a + 5 * b) = 3 * INR a + 5 * INR b)%R) as Hlin.
  { intros a b. rewrite plus_INR, !mult_INR. simpl. ring. }
  assert ((3 * INR n + 5 * INR g < 80)%R ↔ 3 * n + 5 * g < 80) as Hlt.
  { rewrite <- Hlin. replace 80%R with (INR 80) by (simpl; ring).
    split; [apply INR_lt | apply lt_INR]. }
  split_and!.
  - rewrite Hscore. fold n g. split.
    + intros Hcap. destruct (decide (3 * n + 5 * g < 80)) as [Hsmall|]; [|lia].
      apply Hlt in Hsmall. rewrite Rmin_right in Hcap by lra. lra.
    + intros Hbig. apply Rmin_left.
      assert (¬ (3 * INR n + 5 * INR g < 80)%R) by (rewrite Hlt; lia). lra.
  - intros Hsmall%Hlt. rewrite Hscore. fold n g. rewrite Rmin_right by lra.
    ring.
  - intros layout' Hn Hg. rewrite !Hscore. fold n g.
    apply le_INR in Hn, Hg. apply Rle_min_compat_l. lra.
Qed.

Lemma complexity_cap_witness :
  let layout := mkLayout "Layout 1" (pattern_dicts 24 4 150) [] [] in
  complexityScore (estimate layout)
  = (2 + 0.3 * INR (length (tendons layout))
       + 0.5 * INR (length (grout_connections layout)))%R.
Proof.
  intros layout. destruct (complexity_cap layout) as (_ & Hbelow & _).
  apply Hbelow. unfold layout. cbn [tendons grout_connections].
  rewrite length_pattern_dicts. cbn [length]. lia.
Defined.

(** ** Runs of the page *)

Lemma run_reachable (actions : list Action) (s s' : Session) :
  reachable s → run actions s = Ok s' → reachable s'.
Proof.
  revert s. induction actions as [|a actions IH]; intros s Hreach Hrun.
  - by apply Ok_inj in Hrun as <-.
  - apply run_cons_Ok in Hrun as (s1 & Hstep & Hrun).
    apply (IH s1); [|done]. by apply (reachable_step a s).
Qed.

Lemma saves_cons (a : Action) (actions : list Action) :
  saves (a :: actions) = (if is_save a then 1 else 0) + saves actions.
Proof.
  unfold saves. rewrite filter_cons. by destruct (is_save a).
Qed.

Lemma step_layouts_grow (a : Action) (s s' : Session) :
  step a s = Ok s' →
  ∃ new, layouts s' = layouts s ++ new
    ∧ length new = if is_save a then 1 else 0.
Proof.
  intros Hstep. destruct a; cbn [step is_save] in *.
  1-7: apply Ok_inj in Hstep as <-; exists []; by rewrite app_nil_r.
  - apply Ok_inj in Hstep as <-. rewrite saveSnapshot_eq. session_simpl.
    by eexists [_].
  - destruct (loadSnapshot_Ok _ _ _ Hstep) as [sv0 Hi0].
    rewrite (loadSnapshot_eq _ _ _ Hi0) in Hstep.
    apply Ok_inj in Hstep as <-. exists []. by rewrite app_nil_r.
Qed.

(** X13. The list of saved layouts only grows, and only by "Save Layout":
    along any sequence of interactions that runs through, the saved list
    at the start is a prefix of the saved list at the end, and the length
    has grown by the number of "Save Layout" presses; no interaction
    removes or reorders a saved layout. *)
Theorem saved_list_grows (actions : list Action) (s s' : Session) :
  run actions s = Ok s' →
  layouts s `prefix_of` layouts s'
  ∧ length (layouts s') = length (layouts s) + saves actions.
Proof.
  revert s. induction actions as [|a actions IH]; intros s Hrun.
  - apply Ok_inj in Hrun as <-. split; [done|]. unfold saves.
    cbn [filter list_filter length]. lia.
  - apply run_cons_Ok in Hrun as (s1 & Hstep & Hrun).
    destruct (IH s1 Hrun) as [Hpre Hlen].
    destruct (step_layouts_grow a s s1 Hstep) as (new & Hnew & Hlen_new).
    split.
    + transitivity (layouts s1); [|done]. rewrite Hnew. by apply prefix_app_r.
    + rewrite Hlen, Hnew, length_app, Hlen_new, saves_cons. lia.
Qed.

(** Two saves around a "Clear All". *)
Lemma saved_list_grows_witness :
  ∃ s',
    run [SaveSnapshot "2026-01-01 00:00"; ClearAll;
         SaveSnapshot "2026-01-01 00:01"] init_session = Ok s'
    ∧ length (layouts s') = length (layouts init_session) + 2.
Proof.
  eexists. split; [reflexivity|].
  apply (saved_list_grows
           [SaveSnapshot "2026-01-01 00:00"; ClearAll;
            SaveSnapshot "2026-01-01 00:01"] init_session).
  reflexivity.
Defined.

Lemma estimate_name (n n' : string) (ts : list Tendon)
    (gs shafts shafts' : list Component) :
  estimate (mkLayout n ts gs shafts) = estimate (mkLayout n' ts gs shafts').
Proof. done. Qed.

(** X14. Saving and loading again gives the layout back: in every
    reachable session, "Save Layout" followed by "Load" of the new entry
    succeeds and leaves a current layout with the same tendons, grout
    connections and access shafts under the name with [" (copy)"] added;
    the page then shows the same findings and estimates as before the
    save. *)
Theorem save_then_load (format_2f : R → string) (timestamp : string)
    (s : Session) :
  reachable s →
  ∃ layout s',
    current s = Some layout
    ∧ loadSnapshot (length (layouts s)) (saveSnapshot timestamp s) = Ok s'
    ∧ current s'
      = Some (mkLayout (name layout +:+ " (copy)") (tendons layout)
                (grout_connections layout) (access_shafts layout))
    ∧ page_validation format_2f s' = page_validation format_2f s
    ∧ page_estimate s' = page_estimate s.
Proof.
  intros Hreach. pose proof (reachable_inv s Hreach) as Hinv.
  destruct (inv_current s Hinv) as ([n ts gs shafts] & Hc & _).
  destruct (read_saved_new timestamp s _ Hc) as (sv & Hsv & Hread & _).
  assert (layouts (saveSnapshot timestamp s) !! length (layouts s) = Some sv)
    as Hi by (rewrite Hsv; by apply list_lookup_middle).
  destruct (current_loadSnapshot _ _ _ _ Hi Hread)
    as (s' & Hload & Hc' & _ & Hfd & Hwt).
  cbn [snap_layout name tendons grout_connections access_shafts] in Hc'.
  exists (mkLayout n ts gs shafts), s'.
  split_and!; [done | done | done | |].
  - unfold page_validation. rewrite Hc, Hc', Hfd, Hwt.
    cbn [mbind option_bind]. rewrite saveSnapshot_eq. session_simpl.
    apply (f_equal Some), validate_shafts.
  - unfold page_estimate. by rewrite Hc, Hc'.
Qed.

(** The default pattern saved and loaded. *)
Lemma save_then_load_witness :
  let s := generateCircularPattern 8 4 150 init_session in
  ∃ s',
    loadSnapshot (length (layouts s)) (saveSnapshot "2026-01-01 00:00" s)
    = Ok s'
    ∧ page_estimate s' = page_estimate s.
Proof.
  intros s.
  destruct (save_then_load format_2f_example "2026-01-01 00:00" s)
    as (layout & s' & _ & Hload & _ & _ & Hest).
  - by apply (reachable_step (GenerateCircularPattern 8 4 150) init_session);
      [apply reachable_init|].
  - by exists s'.
Defined.

(** X15. No interaction writes into or removes a component dictionary:
    along any sequence of interactions that runs through, every tendon
    dictionary and every grout or shaft dictionary of the heap is still
    there at the end with the same fields. *)
Theorem dictionaries_never_change (actions : list Action) (s s' : Session) :
  run actions s = Ok s' →
  (∀ o t, objs (tendon_store s) !! o = Some t →
          objs (tendon_store s') !! o = Some t)
  ∧ (∀ o c, objs (component_store s) !! o = Some c →
            objs (component_store s') !! o = Some c).
Proof.
  revert s. induction actions as [|a actions IH]; intros s Hrun.
  - by apply Ok_inj in Hrun as <-.
  - apply run_cons_Ok in Hrun as (s1 & Hstep & Hrun).
    destruct (IH s1 Hrun) as [IHt IHc].
    destruct (step_frame a s s1 Hstep) as (Ht & Hcs & _ & _).
    split.
    + intros o t Ho. apply IHt. by apply (lookup_weaken _ _ _ _ Ho).
    + intros o c Ho. apply IHc. by apply (lookup_weaken _ _ _ _ Ho).
Qed.

(** The first dictionary of a manual tendon after a "Clear All" and a new
    pattern. *)
Lemma dictionaries_never_change_witness :
  let s := addTendon 1 2 150 init_session in
  ∃ s',
    run [ClearAll; GenerateCircularPattern 8 4 150] s = Ok s'
    ∧ ∀ o t, objs (tendon_store s) !! o = Some t →
             objs (tendon_store s') !! o = Some t.
Proof.
  intros s. eexists. split; [reflexivity|].
  apply (dictionaries_never_change [ClearAll; GenerateCircularPattern 8 4 150]
           s).
  reflexivity.
Defined.

(** ** Clear All *)

(** X16. After "Clear All Components" the page reports no violation and
    no warning whatever the foundation sliders show and offers no CSV
    export; the layout keeps its name, and the saved layouts and the
    foundation sliders are as before. *)
Theorem clearAll_page (format_2f str_num : R → string) (s : Session) :
  let s' := clearAll s in
  current s' = Some (mkLayout (d_name (current_layout s)) [] [] [])
  ∧ page_validation format_2f s' = Some (Ok (mkValidation [] []))
  ∧ (∀ diameter thickness,
       page_validation format_2f (applyFoundationSpec diameter thickness s')
       = Some (Ok (mkValidation [] [])))
  ∧ page_export str_num s' = Some None
  ∧ layouts s' = layouts s
  ∧ foundation_diameter s' = foundation_diameter s
  ∧ wall_thickness s' = wall_thickness s.
Proof.
  intros s'. pose proof (current_clearAll s) as Hc. fold s' in Hc.
  assert (∀ diameter thickness,
            current (applyFoundationSpec diameter thickness s')
            = current s') as Hspec by done.
  split_and!.
  - done.
  - unfold page_validation. rewrite Hc. cbn [mbind option_bind].
    by rewrite validate_spec.
  - intros diameter thickness. unfold page_validation.
    rewrite Hspec, Hc. cbn [mbind option_bind]. by rewrite validate_spec.
  - unfold page_export. by rewrite Hc.
  - unfold s'. by rewrite clearAll_eq.
  - unfold s'. by rewrite clearAll_eq.
  - unfold s'. by rewrite clearAll_eq.
Qed.

(** ** The legend *)

Lemma ids_sequential_tail (id : nat) (ids : list nat) :
  ids_sequential (id :: ids) → id = 0 ∧ ∀ i, i ∈ ids → i ≠ 0.
Proof.
  intros Hids. split.
  - by apply (ids_sequential_lookup (id :: ids) 0 id).
  - intros i [k Hk]%list_elem_of_lookup.
    apply (ids_sequential_lookup (id :: ids) (S k) i Hids) in Hk. lia.
Qed.

Lemma labels_of_kind {A : Type} (id : A → nat) (label : string)
    (l : list A) :
  label ≠ "" → ids_sequential (id <$> l) →
  filter (λ x : string, x ≠ "")
    ((λ a, if decide (id a = 0) then label else "") <$> l)
  = match l with [] => [] | _ => [label] end.
Proof.
  intros Hlabel Hids. destruct l as [|a l]; [done|].
  rewrite fmap_cons in Hids. apply ids_sequential_tail in Hids as [H0 Hrest].
  rewrite fmap_cons, decide_True by done.
  rewrite filter_cons_True by done. f_equal.
  apply filter_none. intros x (b & -> & Hb)%list_elem_of_fmap.
  rewrite decide_False; [by intros []|].
  apply Hrest. by apply list_elem_of_fmap_2.
Qed.

Lemma get_legend_labels_ids (layout : Layout) :
  layout_ids_ok layout →
  get_legend_labels layout
  = ["Foundation Outer"; "Foundation Inner"]
      ++ match tendons layout with [] => [] | _ => ["Tendon"] end
      ++ match grout_connections layout with [] => [] | _ => ["Grout"] end
      ++ match access_shafts layout with [] => [] | _ => ["Access Shaft"] end
      ++ ["Center"].
Proof.
  intros (Ht & Hg & Ha). unfold get_legend_labels, artist_labels.
  rewrite !filter_app. unfold tendon_label, grout_label, shaft_label.
  rewrite (labels_of_kind t_id "Tendon"), (labels_of_kind c_id "Grout"),
    (labels_of_kind c_id "Access Shaft") by done.
  done.
Qed.

Lemma by_label_keys_fold (seen labels : list string) :
  NoDup (seen ++ labels) →
  fold_left (λ seen k, if decide (k ∈ seen) then seen else seen ++ [k])
            labels seen
  = seen ++ labels.
Proof.
  revert seen. induction labels as [|k labels IH]; intros seen Hnd.
  - by rewrite app_nil_r.
  - cbn [fold_left]. rewrite decide_False.
    + rewrite IH, <- app_assoc; [done|]. by rewrite <- app_assoc.
    + apply NoDup_app in Hnd as (_ & Hdisj & _). intros Hk.
      apply (Hdisj k Hk). by left.
Qed.

Lemma by_label_keys_NoDup (labels : list string) :
  NoDup labels → by_label_keys labels = labels.
Proof. intros Hnd. by apply (by_label_keys_fold []). Qed.

(** X17. In every reachable session the legend has one entry per kind of
    component present: among the labelled artists "Tendon", "Grout" and
    "Access Shaft" occur for exactly the collections that are not empty,
    beside the two foundation circles and the centre, and no label occurs
    twice, so that removing duplicate labels changes nothing.  (Stated
    without reference to the order of the entries.) *)
Theorem legend_entries (s : Session) :
  reachable s →
  ∃ layout,
    current s = Some layout
    ∧ NoDup (get_legend_labels layout)
    ∧ legend layout = get_legend_labels layout
    ∧ ∀ label,
        label ∈ legend layout
        ↔ label ∈ ["Foundation Outer"; "Foundation Inner"; "Center"]
          ∨ (label = "Tendon" ∧ tendons layout ≠ [])
          ∨ (label = "Grout" ∧ grout_connections layout ≠ [])
          ∨ (label = "Access Shaft" ∧ access_shafts layout ≠ []).
Proof.
  intros Hreach. pose proof (reachable_inv s Hreach) as Hinv.
  destruct (inv_current s Hinv) as (layout & Hc & Hids).
  exists layout. split; [done|].
  assert (NoDup (get_legend_labels layout)) as Hnd.
  { rewrite (get_legend_labels_ids layout Hids).
    destruct (tendons layout), (grout_connections layout),
      (access_shafts layout);
      cbn [app]; apply (bool_decide_unpack (NoDup _)); by vm_compute. }
  split; [done|]. unfold legend. rewrite (by_label_keys_NoDup _ Hnd).
  split; [done|]. intros label.
  rewrite (get_legend_labels_ids layout Hids).
  destruct (tendons layout), (grout_connections layout),
    (access_shafts layout);
    cbn [app]; rewrite ?elem_of_cons, ?elem_of_nil; intuition congruence.
Qed.

(** The default pattern. *)
Lemma legend_entries_witness :
  let s := generateCircularPattern 8 4 150 init_session in
  ∃ layout, current s = Some layout ∧ NoDup (get_legend_labels layout).
Proof.
  intros s. destruct (legend_entries s) as (layout & Hc & Hnodup & _).
  - by apply (reachable_step (GenerateCircularPattern 8 4 150) init_session);
      [apply reachable_init|].
  - by exists layout.
Defined.

(** ** The number of findings *)

Lemma length_list_bind {A B : Type} (f : A → list B) (l : list A) :
  length (l ≫= f) = sum_list_with (λ x, length (f x)) l.
Proof.
  induction l as [|x l IH]; [done|].
  rewrite bind_cons, length_app, IH. done.
Qed.

Lemma sum_list_with_enumerate {A : Type} (g : nat → nat) (l : list A)
    (start : nat) :
  sum_list_with (λ p, g p.1) (enumerate l start)
  = sum_list_with g (seq start (length l)).
Proof.
  rewrite <- fst_enumerate.
  induction (enumerate l start) as [|p ps IH]; [done|].
  cbn [fmap list_fmap sum_list_with]. by rewrite IH.
Qed.

Lemma sum_list_with_eq {A : Type} (f g : A → nat) (l : list A) :
  (∀ x, f x = g x) → sum_list_with f l = sum_list_with g l.
Proof.
  intros Hfg. induction l as [|x l IH]; [done|].
  cbn [sum_list_with]. by rewrite Hfg, IH.
Qed.

Lemma sum_pairs_below (n k : nat) :
  k ≤ n →
  2 * sum_list_with (λ i, n - (i + 1)) (seq 0 k) + k * (k + 1) = 2 * k * n.
Proof.
  induction k as [|k IH]; intros Hk; [done|].
  rewrite seq_S, sum_list_with_app. cbn [sum_list_with Nat.add].
  specialize (IH ltac:(lia)). nia.
Qed.

Lemma length_tendon_pairs (ts : list Tendon) :
  2 * length (tendon_pairs ts) = length ts * (length ts - 1).
Proof.
  unfold tendon_pairs. rewrite length_list_bind.
  rewrite (sum_list_with_eq _ (λ p, length ts - (p.1 + 1))).
  - rewrite (sum_list_with_enumerate (λ i, length ts - (i + 1))).
    pose proof (sum_pairs_below (length ts) (length ts) ltac:(lia)). nia.
  - intros p. by rewrite length_fmap, length_enumerate, length_drop.
Qed.

Lemma length_grout_tendon_pairs (gs : list Component) (ts : list Tendon) :
  length (grout_tendon_pairs gs ts) = length gs * length ts.
Proof.
  unfold grout_tendon_pairs. rewrite length_list_bind.
  induction gs as [|g gs IH]; [done|].
  cbn [sum_list_with length]. rewrite IH, length_fmap. lia.
Qed.

(** X18. For [n] tendons and [g] grout connections the clearance check
    looks at [n (n - 1) / 2] pairs and the proximity check at [g * n]
    pairs, so the page lists at most [n (n + 1) / 2] violations and at most
    [g * n] warnings; without tendons there is no finding at all. *)
Theorem findings_bounded (format_2f : R → string) (diameter thickness : R)
    (layout : Layout) :
  let n := length (tendons layout) in
  let g := length (grout_connections layout) in
  2 * length (tendon_pairs (tendons layout)) = n * (n - 1)
  ∧ length (grout_tendon_pairs (grout_connections layout) (tendons layout))
    = g * n
  ∧ ∃ vr,
      validate format_2f diameter thickness layout = Ok vr
      ∧ 2 * length (violations vr) ≤ n * (n + 1)
      ∧ length (warnings vr) ≤ g * n.
Proof.
  intros n g.
  pose proof (length_tendon_pairs (tendons layout)) as Hpairs. fold n in Hpairs.
  pose proof (length_grout_tendon_pairs (grout_connections layout)
                (tendons layout)) as Hgt. fold n g in Hgt.
  split; [done|]. split; [done|].
  eexists. split; [apply validate_spec|].
  cbn [violations warnings]. rewrite length_app, !length_fmap.
  pose proof (length_filter (outside_bore diameter thickness) (tendons layout))
    as H1.
  pose proof (length_filter (λ p, too_close p.1.2 p.2.2)
                (tendon_pairs (tendons layout))) as H2.
  pose proof (length_filter (λ p : Component * Tendon, near p.1 p.2)
                (grout_tendon_pairs (grout_connections layout)
                   (tendons layout))) as H3.
  fold n in H1. split; [nia | lia].
Qed.

(** ** Manual placement and the slider ranges *)

Lemma radialOffset_axis_abs (x : R) : radialOffset x 0 = Rabs x.
Proof.
  unfold radialOffset.
  replace (x ^ 2 + 0 ^ 2)%R with (Rsqr x) by (unfold Rsqr; ring).
  apply sqrt_Rsqr_abs.
Qed.

(** X19. With the foundation sliders in their ranges the bore has a
    radius between 1 m and 7.2 m, so a tendon placed by hand at the
    default position, the centre, is never reported by check 1, and one
    placed at either end of the X slider, on the outer circle, always
    is. *)
Theorem manual_tendon_positions (diameter thickness d : R) (id : nat) :
  foundation_sliders diameter thickness → (100 <= d <= 300)%R →
  (1 <= diameter / 2 - thickness <= 7.2)%R
  ∧ check1 diameter thickness [mkTendon id 0 0 d "vertical"] [] = Ok []
  ∧ check1 diameter thickness [mkTendon id (diameter / 2) 0 d "vertical"] []
    = Ok [containment_msg (mkTendon id (diameter / 2) 0 d "vertical")]
  ∧ check1 diameter thickness [mkTendon id (- diameter / 2) 0 d "vertical"] []
    = Ok [containment_msg (mkTendon id (- diameter / 2) 0 d "vertical")].
Proof.
  intros [Hd Hw] Hdiam. split; [lra|].
  rewrite !check1_spec. cbn [app].
  split_and!.
  - rewrite filter_cons_False, filter_nil; [done|].
    unfold outside_bore. cbn [t_x t_y t_diameter].
    rewrite radialOffset_axis_abs, Rabs_R0. lra.
  - rewrite filter_cons_True, filter_nil; [done|].
    unfold outside_bore. cbn [t_x t_y t_diameter].
    rewrite radialOffset_axis_abs, Rabs_pos_eq by lra. lra.
  - rewrite filter_cons_True, filter_nil; [done|].
    unfold outside_bore. cbn [t_x t_y t_diameter].
    rewrite radialOffset_axis_abs, Rabs_left1 by lra. lra.
Qed.

(** The default widget values. *)
Lemma manual_tendon_positions_witness :
  foundation_sliders 10 0.8 ∧ (100 <= 150 <= 300)%R
  ∧ check1 10 0.8 [mkTendon 0 0 0 150 "vertical"] [] = Ok [].
Proof.
  assert (foundation_sliders 10 0.8) as Hf by (unfold foundation_sliders; lra).
  assert (100 <= 150 <= 300)%R as Hd by lra.
  split; [exact Hf|]. split; [exact Hd|].
  apply (manual_tendon_positions 10 0.8 150 0 Hf Hd).
Defined.
